(** * Student Rep Portal: persistence and data-exchange model

    A shallow embedding of [src/App.jsx], in this order:

    - [JSON] values and the two platform functions the program calls on
      them, [JSON.stringify] and [JSON.parse], after ECMA-262;
    - the browser state the program touches ([localStorage] and its
      quota, [alert], [location.reload]) and a small state-and-exception
      monad;
    - the functions of [App.jsx], under their own names;
    - the vocabulary of the specification;
    - the properties of the JSON functions, then those of the program.

    What the model leaves out.  A string stands for its UTF-8 encoding,
    so a surrogate that is not part of a pair has no counterpart, and
    [JSON_parse] rejects its escape.  A number is an IEEE double, held as
    the shortest decimal that denotes it: [JSON_parse] rounds a literal to
    the nearest double and [Number::toString] prints that decimal.  Minus
    zero is not told from zero; the program does not tell them apart
    either. *)

From Stdlib Require Import ZArith NArith Ascii String List Lia.
From Stdlib Require Import DecimalFacts DecimalPos DecimalN.
From stdpp Require Import base option list gmap strings.

Set Warnings "-register-all".
Local Open Scope Z_scope.

(** ** JSON values *)

(** A text is a sequence of code units. *)
Abbreviation text := (list ascii).

(** A finite number is written as a decimal: [JNum n] is the integer [n],
    and [JDec m k] the number [m / 10^k] that is not an integer ([m] is
    not a multiple of 10).  The decimal stands for the double nearest to
    it, and [valid] below keeps to the decimals that [Number::toString]
    prints, one for each double.  [JInf] is [Infinity] or [-Infinity],
    which [JSON.parse] returns for a literal beyond the doubles.  [JObj]
    lists the own properties of an object in the order
    [OrdinaryOwnPropertyKeys] enumerates them. *)
Inductive JSON : Type :=
| JNull
| JBool (b : bool)
| JNum (n : Z)
| JDec (m : Z) (k : positive)
| JInf (negative : bool)
| JStr (s : string)
| JArr (xs : list JSON)
| JObj (kvs : list (string * JSON)).

Abbreviation Obj := (list (string * JSON)).

(** Induction principle that reaches below arrays and objects. *)
Section JSON_induction.
Variable P : JSON -> Prop.
Hypothesis Hnull : P JNull.
Hypothesis Hbool : forall b, P (JBool b).
Hypothesis Hnum : forall n, P (JNum n).
Hypothesis Hdec : forall m k, P (JDec m k).
Hypothesis Hinf : forall negative, P (JInf negative).
Hypothesis Hstr : forall s, P (JStr s).
Hypothesis Harr : forall xs, Forall P xs -> P (JArr xs).
Hypothesis Hobj : forall kvs, Forall (fun kv => P (snd kv)) kvs -> P (JObj kvs).

Fixpoint JSON_deep_ind (v : JSON) : P v :=
  match v with
  | JNull => Hnull
  | JBool b => Hbool b
  | JNum n => Hnum n
  | JDec m k => Hdec m k
  | JInf negative => Hinf negative
  | JStr s => Hstr s
  | JArr xs =>
      Harr xs ((fix go (l : list JSON) : Forall P l :=
                  match l with
                  | [] => @List.Forall_nil _ P
                  | x :: l' => @List.Forall_cons _ P x l' (JSON_deep_ind x) (go l')
                  end) xs)
  | JObj kvs =>
      Hobj kvs ((fix go (l : Obj) : Forall (fun kv => P (snd kv)) l :=
                   match l with
                   | [] => @List.Forall_nil _ _
                   | kv :: l' =>
                       @List.Forall_cons _ _ kv l' (JSON_deep_ind (snd kv)) (go l')
                   end) kvs)
  end.
End JSON_induction.

(** ** Numbers *)

(** A Number is an IEEE 754 binary64 value.  One that is finite and not
    zero is [mant * 2^ex], with [mant] from [2^52] to [2^53 - 1] and [ex]
    from [-1074] to [971], or with a smaller [mant] and [ex = -1074]. *)
Inductive rounded : Type :=
| RZero
| RFinite (mant ex : Z)
| RInfinity.

(** The integer part of the binary logarithm of [num / den]. *)
Definition log2_ratio (num den : Z) : Z :=
  let l := Z.log2 num - Z.log2 den in
  if (if 0 <=? l then den * 2 ^ l <=? num else den <=? num * 2 ^ (- l))
  then l else l - 1.

(** The integer nearest to [n / d], the even one of two. *)
Definition round_half_even (n d : Z) : Z :=
  let q := n / d in
  match 2 * (n mod d) ?= d with
  | Lt => q
  | Gt => q + 1
  | Eq => if Z.even q then q else q + 1
  end.

(** The double nearest to the positive rational [num / den], the one
    with the even mantissa of two (roundTiesToEven). *)
Definition round_double (num den : Z) : rounded :=
  let ex := Z.max (log2_ratio num den - 52) (-1074) in
  let mant := if 0 <=? ex then round_half_even num (den * 2 ^ ex)
              else round_half_even (num * 2 ^ (- ex)) den in
  if mant =? 0 then RZero
  else
    let '(mant, ex) := if mant =? 2 ^ 53 then (2 ^ 52, ex + 1) else (mant, ex) in
    if 971 <? ex then RInfinity else RFinite mant ex.

(** The rational [num / den * 10^e]. *)
Definition times_pow10 (num den e : Z) : Z * Z :=
  if 0 <=? e then (num * 10 ^ e, den) else (num, den * 10 ^ (- e)).

Definition below_pow10 (num den n : Z) : bool :=
  let '(a, b) := times_pow10 1 1 n in num * b <? den * a.

Fixpoint dexp_up (fuel : nat) (num den n : Z) : Z :=
  match fuel with
  | O => n
  | S fuel => if below_pow10 num den n then n else dexp_up fuel num den (n + 1)
  end.

(** The least [n] with [num / den < 10^n]: the number of digits before
    the point.  The search starts below it, from the binary logarithm. *)
Definition dexp (num den : Z) : Z :=
  let l := log2_ratio num den in
  let n0 := if 0 <=? l then l * 30102 / 100000 else l * 30103 / 100000 in
  dexp_up 4 num den n0.

(** The decimal [c * 10^q] rounds to the double [mant * 2^ex]. *)
Definition rounds_to (mant ex c q : Z) : bool :=
  let '(cn, cd) := times_pow10 c 1 q in
  match round_double cn cd with
  | RFinite mant' ex' => (mant' =? mant) && (ex' =? ex)
  | _ => false
  end.

(** Of the two multiples of [10^q] around [vn / vd], the one that rounds
    to the double; the nearer of the two, and then the even one, when
    both do. *)
Definition candidate (vn vd mant ex q : Z) : option Z :=
  let '(n, d) := times_pow10 vn vd (- q) in
  let lo := n / d in
  let hi := lo + 1 in
  match rounds_to mant ex lo q, rounds_to mant ex hi q with
  | true, true =>
      match 2 * n ?= (lo + hi) * d with
      | Lt => Some lo
      | Gt => Some hi
      | Eq => Some (if Z.even lo then lo else hi)
      end
  | true, false => Some lo
  | false, true => Some hi
  | false, false => None
  end.

(** The digits [c] and the exponent [q] of [Number::toString]: as few
    digits as denote the double, [k] of them tried from 1 on; 17 are
    always enough. *)
Fixpoint shortest_from (fuel : nat) (k : Z) (vn vd mant ex n10 : Z) : Z * Z :=
  match fuel with
  | O => (round_half_even (fst (times_pow10 vn vd (k - n10)))
                          (snd (times_pow10 vn vd (k - n10))), n10 - k)
  | S fuel =>
      match candidate vn vd mant ex (n10 - k) with
      | Some c => (c, n10 - k)
      | None => shortest_from fuel (k + 1) vn vd mant ex n10
      end
  end.

Definition shortest (mant ex : Z) : Z * Z :=
  let '(vn, vd) := if 0 <=? ex then (mant * 2 ^ ex, 1) else (mant, 2 ^ (- ex)) in
  shortest_from 17 1 vn vd mant ex (dexp vn vd).

(** [m / 10^k] with the zeros at the end of [m] cancelled. *)
Fixpoint strip_zeros (k : nat) (m : Z) : Z * nat :=
  match k with
  | O => (m, O)
  | S k' => if m mod 10 =? 0 then strip_zeros k' (m / 10) else (m, k)
  end.

(** The decimal [m * 10^e] as a value. *)
Definition decimal (m e : Z) : JSON :=
  if m =? 0 then JNum 0
  else if 0 <=? e then JNum (m * 10 ^ e)
  else match strip_zeros (Z.to_nat (- e)) m with
       | (m', O) => JNum m'
       | (m', S k) => JDec m' (Pos.of_succ_nat k)
       end.

(** The Number that the literal [m * 10^e] denotes: the double nearest to
    it, as its shortest decimal.  A literal too small for the doubles
    denotes zero, one too large an infinity. *)
Definition number (m e : Z) : JSON :=
  if m =? 0 then JNum 0
  else
    let '(num, den) := times_pow10 (Z.abs m) 1 e in
    match round_double num den with
    | RZero => JNum 0
    | RInfinity => JInf (m <? 0)
    | RFinite mant ex =>
        let '(c, q) := shortest mant ex in
        decimal (if m <? 0 then - c else c) q
    end.

(** ** Characters *)

Definition DQUOTE : ascii := "034"%char.
Definition BACKSLASH : ascii := "092"%char.
Definition LF : ascii := "010"%char.
Definition SPACE : ascii := "032"%char.

(** JSON white space: tab, line feed, carriage return, space. *)
Definition is_ws (c : ascii) : bool :=
  match N_of_ascii c with
  | 9 | 10 | 13 | 32 => true
  | _ => false
  end%N.

Definition is_digit (c : ascii) : bool :=
  let n := N_of_ascii c in ((48 <=? n) && (n <=? 57))%N.

(** ** JSON.stringify *)

(** Decimal digits of a [Decimal.uint], most significant first. *)
Fixpoint uint_text (u : Decimal.uint) : text :=
  match u with
  | Decimal.Nil => []
  | Decimal.D0 u => "0"%char :: uint_text u
  | Decimal.D1 u => "1"%char :: uint_text u
  | Decimal.D2 u => "2"%char :: uint_text u
  | Decimal.D3 u => "3"%char :: uint_text u
  | Decimal.D4 u => "4"%char :: uint_text u
  | Decimal.D5 u => "5"%char :: uint_text u
  | Decimal.D6 u => "6"%char :: uint_text u
  | Decimal.D7 u => "7"%char :: uint_text u
  | Decimal.D8 u => "8"%char :: uint_text u
  | Decimal.D9 u => "9"%char :: uint_text u
  end.

(** The decimal digits of an integer, after a minus sign if it is
    negative. *)
Definition number_text (n : Z) : text :=
  match n with
  | Z0 => ["0"%char]
  | Zpos p => uint_text (Pos.to_uint p)
  | Zneg p => "-"%char :: uint_text (Pos.to_uint p)
  end.

(** The text of a fraction: nothing, or a point and digits. *)
Definition fraction_text (ds : text) : text :=
  match ds with
  | [] => []
  | _ :: _ => "."%char :: ds
  end.

(** The exponent notation of [Number::toString], for the digits [s] with
    [n] of them, or as many zeros, before the point: the first digit, a
    point and the other digits if there are any, [e], the sign and the
    digits of [n - 1]. *)
Definition exponent_text (s n : Z) : text :=
  match number_text s with
  | [] => []
  | d :: ds =>
      d :: fraction_text ds
        ++ "e"%char :: (if 0 <=? n - 1 then "+"%char else "-"%char)
        :: number_text (Z.abs (n - 1))
  end.

(** [Number::toString] on an integer: its digits when there are at most
    21 of them; otherwise the exponent notation, for the digits [s]
    before the zeros at the end. *)
Definition integer_text (n : Z) : text :=
  let digits := length (number_text (Z.abs n)) in
  if (digits <=? 21)%nat then number_text n
  else
    let '(s, rest) := strip_zeros digits (Z.abs n) in
    (if n <? 0 then ["-"%char] else [])
      ++ exponent_text s (Z.of_nat (length (number_text s))
                          + Z.of_nat (digits - rest)).

(** [Number::toString] on a decimal that is not an integer: the digits of
    [m] with the point before the last [k] of them, after as many zeros
    as it takes when they are fewer than six, and the exponent notation
    otherwise. *)
Definition decimal_text (m : Z) (k : positive) : text :=
  let digits := number_text (Z.abs m) in
  let n := length digits in
  let k := Pos.to_nat k in
  (if m <? 0 then ["-"%char] else [])
    ++ (if (k <? n)%nat
        then if (n - k <=? 21)%nat
             then take (n - k) digits ++ "."%char :: drop (n - k) digits
             else exponent_text (Z.abs m) (Z.of_nat (n - k))
        else if (k - n <? 6)%nat
             then "0"%char :: "."%char :: repeat "0"%char (k - n) ++ digits
             else exponent_text (Z.abs m) (Z.of_nat n - Z.of_nat k)).

Definition hex_digit (n : N) : ascii :=
  nth (N.to_nat n) (list_ascii_of_string "0123456789abcdef") "0"%char.

(** [QuoteJSONString], one code unit: the short escapes, [\u00xx] for the
    other control characters, the code unit itself otherwise. *)
Definition quote_char (c : ascii) : text :=
  match N_of_ascii c with
  | 8 => [BACKSLASH; "b"%char]
  | 9 => [BACKSLASH; "t"%char]
  | 10 => [BACKSLASH; "n"%char]
  | 12 => [BACKSLASH; "f"%char]
  | 13 => [BACKSLASH; "r"%char]
  | 34 => [BACKSLASH; DQUOTE]
  | 92 => [BACKSLASH; BACKSLASH]
  | n => if (n <? 32)%N
         then [BACKSLASH; "u"%char; "0"%char; "0"%char;
               hex_digit (n / 16); hex_digit (n mod 16)]
         else [c]
  end%N.

Definition quote_text (s : text) : text :=
  DQUOTE :: concat (map quote_char s) ++ [DQUOTE].

Definition quote (s : string) : text := quote_text (list_ascii_of_string s).

(** The line break of [SerializeJSONObject] and [SerializeJSONArray]: none
    when the gap is empty, a line feed and the indent otherwise. *)
Definition newline (gap ind : nat) : text :=
  match gap with
  | O => []
  | S _ => LF :: repeat SPACE ind
  end.

(** The text between a property name and its value. *)
Definition colon (gap : nat) : text :=
  match gap with
  | O => [":"%char]
  | S _ => [":"%char; SPACE]
  end.

Fixpoint join (sep : text) (parts : list text) : text :=
  match parts with
  | [] => []
  | [p] => p
  | p :: ps => p ++ sep ++ join sep ps
  end.

(** [SerializeJSONProperty] on a JSON value; [gap] is the number of spaces
    of one indentation step, [ind] the current indent. *)
Fixpoint serialize (gap ind : nat) (v : JSON) {struct v} : text :=
  match v with
  | JNull => list_ascii_of_string "null"
  | JBool true => list_ascii_of_string "true"
  | JBool false => list_ascii_of_string "false"
  | JNum n => integer_text n
  | JDec m k => decimal_text m k
  | JInf _ => list_ascii_of_string "null"
  | JStr s => quote s
  | JArr xs =>
      match xs with
      | [] => list_ascii_of_string "[]"
      | _ =>
          let stepback := ind in
          let ind := (ind + gap)%nat in
          "["%char :: newline gap ind
            ++ join (","%char :: newline gap ind) (map (serialize gap ind) xs)
            ++ newline gap stepback ++ ["]"%char]
      end
  | JObj kvs =>
      match kvs with
      | [] => list_ascii_of_string "{}"
      | _ =>
          let stepback := ind in
          let ind := (ind + gap)%nat in
          "{"%char :: newline gap ind
            ++ join (","%char :: newline gap ind)
                 (map (fun kv => quote (fst kv) ++ colon gap
                                   ++ serialize gap ind (snd kv)) kvs)
            ++ newline gap stepback ++ ["}"%char]
      end
  end.

(** [JSON.stringify(value)] and [JSON.stringify(value, null, space)]; a
    numeric [space] is clamped to 10. *)
Definition JSON_stringify_space (space : nat) (v : JSON) : string :=
  string_of_list_ascii (serialize (Nat.min 10 space) 0 v).

Definition JSON_stringify (v : JSON) : string := JSON_stringify_space 0 v.

(** ** Objects *)

Definition digit_cons (c : ascii) : option (Decimal.uint -> Decimal.uint) :=
  match N_of_ascii c with
  | 48 => Some Decimal.D0 | 49 => Some Decimal.D1 | 50 => Some Decimal.D2
  | 51 => Some Decimal.D3 | 52 => Some Decimal.D4 | 53 => Some Decimal.D5
  | 54 => Some Decimal.D6 | 55 => Some Decimal.D7 | 56 => Some Decimal.D8
  | 57 => Some Decimal.D9
  | _ => None
  end%N.

(** The longest prefix of decimal digits, and what follows it. *)
Fixpoint read_digits (s : text) : Decimal.uint * text :=
  match s with
  | [] => (Decimal.Nil, [])
  | c :: s' =>
      match digit_cons c with
      | Some d => let (u, r) := read_digits s' in (d u, r)
      | None => (Decimal.Nil, s)
      end
  end.

(** The integer part of a JSON number: [0], or a non-zero digit followed
    by digits. *)
Definition parse_int (s : text) : option (N * text) :=
  match s with
  | [] => None
  | c :: s' =>
      if Ascii.eqb c "0"%char then Some (0%N, s')
      else if is_digit c then
             let (u, r) := read_digits s in Some (Pos.of_uint u, r)
           else None
  end.

(** An array index is a canonical numeric string below 2^32 - 1. *)
Definition array_index (k : string) : option N :=
  match parse_int (list_ascii_of_string k) with
  | Some (n, []) => if (n <? 4294967295)%N then Some n else None
  | _ => None
  end.

(** [O.[[Get]](k)] on the own properties. *)
Fixpoint obj_get (o : Obj) (k : string) : option JSON :=
  match o with
  | [] => None
  | (k', v) :: o' => if String.eqb k' k then Some v else obj_get o' k
  end.

Fixpoint obj_replace (o : Obj) (k : string) (v : JSON) : Obj :=
  match o with
  | [] => []
  | (k', v') :: o' =>
      if String.eqb k' k then (k', v) :: o' else (k', v') :: obj_replace o' k v
  end.

(** A new array-index key goes after the smaller array indices. *)
Fixpoint obj_insert_index (o : Obj) (n : N) (k : string) (v : JSON) : Obj :=
  match o with
  | [] => [(k, v)]
  | (k', v') :: o' =>
      match array_index k' with
      | Some n' =>
          if (n' <? n)%N then (k', v') :: obj_insert_index o' n k v
          else (k, v) :: o
      | None => (k, v) :: o
      end
  end.

(** [CreateDataProperty(O, k, v)]: an existing property keeps its place
    and takes the new value; a new array index is placed among the array
    indices, in ascending order; any other new key goes last. *)
Definition obj_set (o : Obj) (k : string) (v : JSON) : Obj :=
  match obj_get o k with
  | Some _ => obj_replace o k v
  | None =>
      match array_index k with
      | Some n => obj_insert_index o n k v
      | None => o ++ [(k, v)]
      end
  end.

Definition obj_of_members (kvs : Obj) : Obj :=
  fold_left (fun o kv => obj_set o (fst kv) (snd kv)) kvs [].

(** ** JSON.parse *)

Fixpoint skip_ws (s : text) : text :=
  match s with
  | c :: s' => if is_ws c then skip_ws s' else s
  | [] => []
  end.

Fixpoint strip_prefix (p s : text) : option text :=
  match p, s with
  | [], _ => Some s
  | a :: p', b :: s' => if Ascii.eqb a b then strip_prefix p' s' else None
  | _ :: _, [] => None
  end.

(** The fraction of a JSON number, if there is one: a point and at least
    one digit. *)
Definition parse_frac (s : text) : option (Decimal.uint * text) :=
  match s with
  | c :: s' =>
      if Ascii.eqb c "."%char then
        match read_digits s' with
        | (Decimal.Nil, _) => None
        | (u, r) => Some (u, r)
        end
      else Some (Decimal.Nil, s)
  | [] => Some (Decimal.Nil, [])
  end.

Definition parse_exp_digits (s : text) : option (Z * text) :=
  match read_digits s with
  | (Decimal.Nil, _) => None
  | (u, r) => Some (Z.of_N (Pos.of_uint u), r)
  end.

(** The exponent of a JSON number, if there is one: [e] or [E], a sign
    or none, and at least one digit. *)
Definition parse_exp (s : text) : option (Z * text) :=
  match s with
  | c :: s' =>
      if Ascii.eqb c "e"%char || Ascii.eqb c "E"%char then
        match s' with
        | sign :: s'' =>
            if Ascii.eqb sign "+"%char then parse_exp_digits s''
            else if Ascii.eqb sign "-"%char then
                   '(x, r) ← parse_exp_digits s''; Some (- x, r)
                 else parse_exp_digits s'
        | [] => None
        end
      else Some (0, s)
  | [] => Some (0, [])
  end.

(** A JSON number after its sign: the integer part, a fraction or none,
    an exponent or none. *)
Definition parse_unsigned (negative : bool) (s : text) : option (JSON * text) :=
  '(i, r1) ← parse_int s;
  '(f, r2) ← parse_frac r1;
  '(x, r3) ← parse_exp r2;
  let places := Z.of_nat (Decimal.nb_digits f) in
  let m := Z.of_N i * 10 ^ places + Z.of_N (Pos.of_uint f) in
  Some (number (if negative then - m else m) (x - places), r3).

(** A JSON number: a minus sign or none, and the rest. *)
Definition parse_number (s : text) : option (JSON * text) :=
  match s with
  | c :: s' =>
      if Ascii.eqb c "-"%char then parse_unsigned true s'
      else parse_unsigned false s
  | [] => None
  end.

Definition hex_value (c : ascii) : option N :=
  let n := N_of_ascii c in
  if ((48 <=? n) && (n <=? 57))%N then Some (n - 48)%N
  else if ((97 <=? n) && (n <=? 102))%N then Some (n - 87)%N
  else if ((65 <=? n) && (n <=? 70))%N then Some (n - 55)%N
  else None.

Definition push (c : ascii) (r : option (text * text)) : option (text * text) :=
  '(cs, rest) ← r; Some (c :: cs, rest).

Definition push_all (cs : text) (r : option (text * text))
  : option (text * text) :=
  '(cs', rest) ← r; Some (cs ++ cs', rest).

(** The four hexadecimal digits of a [\u] escape. *)
Definition hex4 (h1 h2 h3 h4 : ascii) : option N :=
  a ← hex_value h1; b ← hex_value h2; c ← hex_value h3; d ← hex_value h4;
  Some (((a * 16 + b) * 16 + c) * 16 + d)%N.

(** UTF-8 of a code point. *)
Definition utf8 (cp : N) : text :=
  if (cp <? 128)%N then [ascii_of_N cp]
  else if (cp <? 2048)%N then
    [ascii_of_N (192 + cp / 64); ascii_of_N (128 + cp mod 64)]
  else if (cp <? 65536)%N then
    [ascii_of_N (224 + cp / 4096); ascii_of_N (128 + (cp / 64) mod 64);
     ascii_of_N (128 + cp mod 64)]
  else
    [ascii_of_N (240 + cp / 262144); ascii_of_N (128 + (cp / 4096) mod 64);
     ascii_of_N (128 + (cp / 64) mod 64); ascii_of_N (128 + cp mod 64)].

Definition is_high_surrogate (n : N) : bool := ((55296 <=? n) && (n <? 56320))%N.
Definition is_low_surrogate (n : N) : bool := ((56320 <=? n) && (n <? 57344))%N.

(** The characters of a string literal after the opening quote, up to and
    including the closing one.  A [\u] escape stands for a code unit; a
    high surrogate and the low surrogate that follows it stand for one
    code point. *)
Fixpoint parse_chars (s : text) : option (text * text) :=
  match s with
  | [] => None
  | c :: s1 =>
      if Ascii.eqb c DQUOTE then Some ([], s1)
      else if Ascii.eqb c BACKSLASH then
        match s1 with
        | [] => None
        | e :: s2 =>
            match N_of_ascii e with
            | 34 => push DQUOTE (parse_chars s2)
            | 92 => push BACKSLASH (parse_chars s2)
            | 47 => push "/"%char (parse_chars s2)
            | 98 => push "008"%char (parse_chars s2)
            | 102 => push "012"%char (parse_chars s2)
            | 110 => push "010"%char (parse_chars s2)
            | 114 => push "013"%char (parse_chars s2)
            | 116 => push "009"%char (parse_chars s2)
            | 117 =>
                match s2 with
                | h1 :: h2 :: h3 :: h4 :: s3 =>
                    n ← hex4 h1 h2 h3 h4;
                    if is_high_surrogate n then
                      match s3 with
                      | b' :: u' :: l1 :: l2 :: l3 :: l4 :: s4 =>
                          if Ascii.eqb b' BACKSLASH && Ascii.eqb u' "u"%char then
                            lo ← hex4 l1 l2 l3 l4;
                            if is_low_surrogate lo then
                              push_all
                                (utf8 (65536 + (n - 55296) * 1024 + (lo - 56320)))
                                (parse_chars s4)
                            else None
                          else None
                      | _ => None
                      end
                    else if is_low_surrogate n then None
                    else push_all (utf8 n) (parse_chars s3)
                | _ => None
                end
            | _ => None
            end%N
        end
      else if (N_of_ascii c <? 32)%N then None
      else push c (parse_chars s1)
  end.

Definition parse_string (s : text) : option (string * text) :=
  match s with
  | c :: s' =>
      if Ascii.eqb c DQUOTE then
        '(cs, r) ← parse_chars s'; Some (string_of_list_ascii cs, r)
      else None
  | [] => None
  end.

(** The recursive-descent parser of the JSON grammar.  Each function
    returns the value read and the text left; [fuel] bounds the nesting
    and the number of elements, and [JSON_parse] supplies more than any
    text can use. *)
Fixpoint parse_value (fuel : nat) (s : text) : option (JSON * text) :=
  match fuel with
  | O => None
  | S fuel =>
      match skip_ws s with
      | [] => None
      | c :: r =>
          if Ascii.eqb c "n"%char then
            r' ← strip_prefix (list_ascii_of_string "ull") r; Some (JNull, r')
          else if Ascii.eqb c "t"%char then
            r' ← strip_prefix (list_ascii_of_string "rue") r;
            Some (JBool true, r')
          else if Ascii.eqb c "f"%char then
            r' ← strip_prefix (list_ascii_of_string "alse") r;
            Some (JBool false, r')
          else if Ascii.eqb c DQUOTE then
            '(str, r') ← parse_string (c :: r); Some (JStr str, r')
          else if Ascii.eqb c "["%char then
            match skip_ws r with
            | c' :: r' =>
                if Ascii.eqb c' "]"%char then Some (JArr [], r')
                else '(xs, r'') ← parse_elements fuel r; Some (JArr xs, r'')
            | [] => None
            end
          else if Ascii.eqb c "{"%char then
            match skip_ws r with
            | c' :: r' =>
                if Ascii.eqb c' "}"%char then Some (JObj [], r')
                else '(kvs, r'') ← parse_members fuel r;
                     Some (JObj (obj_of_members kvs), r'')
            | [] => None
            end
          else
            parse_number (c :: r)
      end
  end
with parse_elements (fuel : nat) (s : text) : option (list JSON * text) :=
  match fuel with
  | O => None
  | S fuel =>
      '(v, r) ← parse_value fuel s;
      match skip_ws r with
      | c :: r' =>
          if Ascii.eqb c ","%char then
            '(vs, r'') ← parse_elements fuel r'; Some (v :: vs, r'')
          else if Ascii.eqb c "]"%char then Some ([v], r')
          else None
      | [] => None
      end
  end
with parse_members (fuel : nat) (s : text) : option (Obj * text) :=
  match fuel with
  | O => None
  | S fuel =>
      '(k, r) ← parse_string (skip_ws s);
      match skip_ws r with
      | c :: r1 =>
          if Ascii.eqb c ":"%char then
            '(v, r2) ← parse_value fuel r1;
            match skip_ws r2 with
            | c' :: r3 =>
                if Ascii.eqb c' ","%char then
                  '(kvs, r4) ← parse_members fuel r3; Some ((k, v) :: kvs, r4)
                else if Ascii.eqb c' "}"%char then Some ([(k, v)], r3)
                else None
            | [] => None
            end
          else None
      | [] => None
      end
  end.

(** The whole text is one value between white space. *)
Definition parse_text (s : text) : option JSON :=
  '(v, r) ← parse_value (2 * length s + 2) s;
  match skip_ws r with
  | [] => Some v
  | _ :: _ => None
  end.

(** [JSON.parse(text)]: [None] stands for the SyntaxError it throws. *)
Definition JSON_parse (s : string) : option JSON :=
  parse_text (list_ascii_of_string s).

(** ** Values that JSON.stringify and JSON.parse exchange faithfully *)

(** [k] may come before [k'] among the own keys of an object: the keys
    differ, and if [k'] is an array index then [k] is a smaller one. *)
Definition key_before (k k' : string) : bool :=
  negb (String.eqb k k') &&
  match array_index k' with
  | Some n' =>
      match array_index k with
      | Some n => (n <? n')%N
      | None => false
      end
  | None => true
  end.

(** Own keys in the order of [OrdinaryOwnPropertyKeys]: no key twice,
    array indices first and ascending. *)
Fixpoint keys_ordered (ks : list string) : bool :=
  match ks with
  | [] => true
  | k :: ks' => forallb (key_before k) ks' && keys_ordered ks'
  end.

(** [Number.isSafeInteger]: the integers of which every one is a double
    and no two are the same double. *)
Definition safe_integer (n : Z) : bool :=
  (- (2 ^ 53 - 1) <=? n) && (n <=? 2 ^ 53 - 1).

(** The values that [JSON.stringify] and [JSON.parse] give back as they
    are: every number is the decimal that [Number::toString] prints for a
    double, so that reading it gives the same decimal, and every object
    lists its keys in the order of its own properties.  [Infinity], which
    is printed as [null], is not one of them. *)
Fixpoint valid (v : JSON) : bool :=
  match v with
  | JNull | JBool _ | JStr _ => true
  | JNum n =>
      match number n 0 with
      | JNum n' => n' =? n
      | _ => false
      end
  | JDec m k =>
      match number m (Z.neg k) with
      | JDec m' k' => (m' =? m) && (k' =? k)%positive
      | _ => false
      end
  | JInf _ => false
  | JArr xs => forallb valid xs
  | JObj kvs =>
      keys_ordered (map fst kvs) && forallb (fun kv => valid (snd kv)) kvs
  end.

(** What follows a serialized value: nothing, white space or one of the
    three closing punctuators. *)
Definition value_end (s : text) : bool :=
  match s with
  | [] => true
  | c :: _ => is_ws c || Ascii.eqb c ","%char || Ascii.eqb c "]"%char
              || Ascii.eqb c "}"%char
  end.

Fixpoint size (v : JSON) : nat :=
  match v with
  | JArr xs => S (sum_list_with (fun x => S (size x)) xs)
  | JObj kvs => S (sum_list_with (fun kv => S (size (snd kv))) kvs)
  | _ => 1
  end.

(** ** Vocabulary of the proofs about the JSON functions *)

Ltac ascii_cases c := destruct c as [[|] [|] [|] [|] [|] [|] [|] [|]].

(** A text that does not go on with a digit. *)
Definition nondigit (s : text) : Prop :=
  match s with
  | [] => True
  | c :: _ => digit_cons c = None
  end.

(** What may follow the digits of a number: no digit and no point. *)
Definition after_digits (s : text) : Prop :=
  match s with
  | [] => True
  | c :: _ => digit_cons c = None /\ Ascii.eqb c "."%char = false
  end.

Definition digit_value (c : ascii) : N := (N_of_ascii c - 48)%N.

(** The number that the digits [ds] denote after the digits of [acc]. *)
Definition digits_value (acc : N) (ds : text) : N :=
  fold_left (fun a c => (10 * a + digit_value c)%N) ds acc.

(** A serialized value starts with a character that is neither white
    space nor a closing bracket. *)
Definition value_start (c : ascii) : bool :=
  negb (is_ws c) && negb (Ascii.eqb c "]"%char) && negb (Ascii.eqb c "}"%char).

Definition parses (v : JSON) : Prop :=
  forall gap ind fuel rest,
    value_end rest = true -> (size v <= fuel)%nat ->
    parse_value fuel (serialize gap ind v ++ rest) = Some (v, rest).

(** A parse that succeeds consumes text, and succeeds alike with any fuel
    that is at least twice the number of characters consumed. *)
Definition fuel_free {A} (parse : nat -> text -> option (A * text)) (fuel : nat)
  : Prop :=
  forall s a r,
    parse fuel s = Some (a, r) ->
    (length r < length s)%nat
    /\ forall fuel', (2 * (length s - length r) <= fuel')%nat ->
                     parse fuel' s = Some (a, r).

(** * The browser and the JS monad *)

Inductive JSError : Type :=
| SyntaxError          (* JSON.parse on a malformed text *)
| TypeError            (* property access on null *)
| ReadError            (* a FileReader that fails: the promise is rejected *)
| QuotaExceededError.  (* localStorage.setItem beyond the quota *)

(** How a computation ends: normally, with an exception that the code
    around it may catch, or with an exception thrown by an effect.  An
    effect runs after the render, under React and not under the handler
    that set the state: no [try] of the program is around it, and React,
    which finds no error boundary, unmounts the application. *)
Inductive completion (A : Type) : Type :=
| Normal (a : A)
| Throw (e : JSError)
| Unmounted (e : JSError).
Arguments Normal {A} a.
Arguments Throw {A} e.
Arguments Unmounted {A} e.

(** A computation over a state [S]: whichever way it ends, it leaves a
    state behind (nothing is rolled back). *)
Definition M (S A : Type) : Type := S -> completion A * S.

Section Monad.
Context {S : Type}.

Definition ret {A} (a : A) : M S A := fun s => (Normal a, s).

Definition bind {A B} (c : M S A) (k : A -> M S B) : M S B :=
  fun s =>
    match c s with
    | (Normal a, s') => k a s'
    | (Throw e, s') => (Throw e, s')
    | (Unmounted e, s') => (Unmounted e, s')
    end.

Definition throw {A} (e : JSError) : M S A := fun s => (Throw e, s).

(** [try { body } catch (e) { handler }] *)
Definition try_catch {A} (body : M S A) (handler : JSError -> M S A) : M S A :=
  fun s =>
    match body s with
    | (Normal a, s') => (Normal a, s')
    | (Throw e, s') => handler e s'
    | (Unmounted e, s') => (Unmounted e, s')
    end.

(** An effect, [useEffect(() => body, deps)], as it ends. *)
Definition effect (body : M S unit) : M S unit :=
  fun s =>
    match body s with
    | (Throw e, s') => (Unmounted e, s')
    | r => r
    end.

(** An event handler of which [body] is the part that may throw: the
    error is reported and goes no further, and the state of the component
    is [interrupted], what the updates made before the error leave. *)
Definition event_handler {A} (interrupted : A) (body : M S A) : M S A :=
  fun s =>
    match body s with
    | (Throw e, s') => (Normal interrupted, s')
    | r => r
    end.

(** A platform function that returns or throws [e]. *)
Definition or_throw {A} (e : JSError) (o : option A) : M S A :=
  match o with
  | Some a => ret a
  | None => throw e
  end.
End Monad.

Notation "'let*' x ':=' c 'in' k" := (bind c (fun x => k))
  (at level 10, x name, c at level 200, k at level 200, only parsing).
Notation "c ';;;' k" := (bind c (fun _ => k))
  (at level 100, k at level 200, right associativity, only parsing).

(** What the program touches of the browser: the origin's [localStorage],
    the messages shown by [alert], and the page reloads requested. *)
Record Browser : Type := {
  localStorage : gmap string string;
  alerts : list string;
  reloads : nat;
}.

Abbreviation JS := (M Browser).

(** The quota of the origin: whether the browser accepts that the
    storage holds [st].  Browsers differ in what they count and in how
    much they allow. *)
Class Quota : Type := within_quota : gmap string string -> bool.

(** A storage that takes whatever it is given.  The theorems below that
    name no quota are about this one. *)
#[global] Instance unlimited : Quota := fun _ => true.

(** [localStorage.getItem(key)]: [None] is JavaScript's [null]. *)
Definition getItem (key : string) : JS (option string) :=
  fun b => (Normal (localStorage b !! key), b).

(** [localStorage.setItem(key, value)]: the value is stored, or, if the
    storage would then be beyond the quota, nothing is stored and a
    QuotaExceededError is thrown. *)
Definition setItem {Q : Quota} (key value : string) : JS unit :=
  fun b =>
    let st := <[key := value]> (localStorage b) in
    if within_quota st
    then (Normal tt,
          {| localStorage := st; alerts := alerts b; reloads := reloads b |})
    else (Throw QuotaExceededError, b).

Definition alert (msg : string) : JS unit :=
  fun b => (Normal tt,
            {| localStorage := localStorage b;
               alerts := alerts b ++ [msg]; reloads := reloads b |}).

Definition location_reload : JS unit :=
  fun b => (Normal tt,
            {| localStorage := localStorage b;
               alerts := alerts b; reloads := S (reloads b) |}).

(** Truthiness, for the values the program tests. *)
Definition truthy_string (s : string) : bool :=
  match s with
  | EmptyString => false
  | String _ _ => true
  end.

Definition truthy (v : JSON) : bool :=
  match v with
  | JNull => false
  | JBool b => b
  | JNum n => negb (n =? 0)
  | JDec m _ => negb (m =? 0)
  | JInf _ => true
  | JStr s => truthy_string s
  | JArr _ | JObj _ => true
  end.

(** [v.k] for a property name [k] that no built-in prototype defines (the
    program reads [id], [messages], [resources] and [infos]): an own
    property of an object, [undefined] ([None]) on any other value, and a
    TypeError on [null]. *)
Definition get_property (v : JSON) (k : string) : JS (option JSON) :=
  match v with
  | JNull => throw TypeError
  | JObj o => ret (obj_get o k)
  | _ => ret None
  end.

(** * App.jsx *)

Definition DEFAULT_ADMIN_PASSWORD : string := "Unbrella01".

(** [uid(prefix)]; [rand] is the fragment drawn from [Math.random]. *)
Definition uid (prefix rand : string) : string :=
  (prefix ++ "_" ++ rand)%string.

Definition saveToStorage {Q : Quota} (key : string) (value : JSON) : JS unit :=
  setItem key (JSON_stringify value).

Definition loadFromStorage (key : string) (fallback : JSON) : JS JSON :=
  try_catch
    (let* raw := getItem key in
     match raw with
     | Some raw =>
         if truthy_string raw then or_throw SyntaxError (JSON_parse raw)
         else ret fallback
     | None => ret fallback
     end)
    (fun _ => ret fallback).

(** ** The three collections *)

(** An entry of a collection is an object; a collection is an array. *)
Definition collection (entries : list Obj) : JSON := JArr (map JObj entries).

Record App : Type := {
  route : string;
  messages : list Obj;
  resources : list Obj;
  infos : list Obj;
}.

(** The state setters, each followed by the effect that depends on the
    collection it sets: [useEffect(() => saveToStorage(key, c), [c])]. *)
Definition setMessages {Q : Quota} (f : list Obj -> list Obj) (app : App)
  : JS App :=
  let app' := {| route := route app; messages := f (messages app);
                 resources := resources app; infos := infos app |} in
  effect (saveToStorage "sr_messages" (collection (messages app'))) ;;; ret app'.

Definition setResources {Q : Quota} (f : list Obj -> list Obj) (app : App)
  : JS App :=
  let app' := {| route := route app; messages := messages app;
                 resources := f (resources app); infos := infos app |} in
  effect (saveToStorage "sr_resources" (collection (resources app'))) ;;; ret app'.

Definition setInfos {Q : Quota} (f : list Obj -> list Obj) (app : App)
  : JS App :=
  let app' := {| route := route app; messages := messages app;
                 resources := resources app; infos := f (infos app) |} in
  effect (saveToStorage "sr_infos" (collection (infos app'))) ;;; ret app'.

(** The three effects of the first render, in the order of their
    declaration; the first that throws ends them, as React 18 runs the
    effects of one component (React 17 runs the others before it
    unmounts). *)
Definition App_effects {Q : Quota} (app : App) : JS unit :=
  effect (saveToStorage "sr_messages" (collection (messages app))) ;;;
  effect (saveToStorage "sr_resources" (collection (resources app))) ;;;
  effect (saveToStorage "sr_infos" (collection (infos app))).

Definition handleSendMessage {Q : Quota} (msg : Obj) (app : App) : JS App :=
  setMessages (fun prev => prev ++ [msg]) app.

(** [m.id !== id], for an identifier [id] that is a string. *)
Definition id_differs (id : string) (m : Obj) : bool :=
  match obj_get m "id" with
  | Some (JStr s) => negb (String.eqb s id)
  | _ => true
  end.

(** [confirmed] is the answer to [confirm(...)]. *)
Definition handleDeleteMessage {Q : Quota} (confirmed : bool) (id : string)
    (app : App) : JS App :=
  if negb confirmed then ret app
  else setMessages (fun prev => List.filter (id_differs id) prev) app.

Definition handleDeleteResource {Q : Quota} (confirmed : bool) (id : string)
    (app : App) : JS App :=
  if negb confirmed then ret app
  else setResources (fun prev => List.filter (id_differs id) prev) app.

Definition handlePostInfo {Q : Quota} (type : string) (payload : Obj) (app : App)
  : JS App :=
  let* app := (if String.eqb type "resource"
               then setResources (fun prev => prev ++ [payload]) app
               else ret app) in
  if String.eqb type "info"
  then setInfos (fun prev => prev ++ [payload]) app
  else ret app.

(** ** Contact *)

(** A file chosen in a file input: its name, its size in bytes, and what
    a [FileReader] makes of it: a data URL, or a failure. *)
Record File : Type := {
  file_name : string;
  file_size : N;
  file_read : option string;
}.

Definition readFileAsBase64 (file : File) : JS string :=
  or_throw ReadError (file_read file).

(** The template [`${Math.round(size / 1024)} KB`]. *)
Definition size_KB (size : N) : string :=
  (string_of_list_ascii (number_text ((Z.of_N size + 512) / 1024)) ++ " KB")%string.

Record Status : Type := { ok : bool; status_text : string }.

Record Contact : Type := {
  name : string;
  email : string;
  subject : string;
  message : string;
  file : option File;
  sending : bool;
  status : option Status;
}.

(** [a || b] on strings. *)
Definition or_string (a b : string) : string :=
  if truthy_string a then a else b.

(** [rand] is the random fragment of the identifier, [now] the result of
    [new Date().toISOString()].  The result is the state of the form and
    of the application after the handler has run. *)
Definition handleSubmit {Q : Quota} (rand now : string) (c : Contact) (app : App)
  : JS (Contact * App) :=
  let* r :=
    try_catch
      (let* fileData :=
         match file c with
         | Some f =>
             let* data := readFileAsBase64 f in
             ret (JObj [("name", JStr (file_name f));
                        ("size", JStr (size_KB (file_size f)));
                        ("data", JStr data)])
         | None => ret JNull
         end in
       let msg : Obj :=
         [("id", JStr (uid "msg" rand));
          ("name", JStr (or_string (name c) "Anonymous"));
          ("email", JStr (email c));
          ("subject", JStr (or_string (subject c) "General"));
          ("message", JStr (message c));
          ("file", fileData);
          ("createdAt", JStr now);
          ("status", JStr "unread")] in
       let* app' := handleSendMessage msg app in
       ret ({| name := ""; email := ""; subject := ""; message := "";
               file := None; sending := true;
               status := Some {| ok := true;
                                 status_text := "Message sent. The rep will contact you." |} |},
            app'))
      (fun _ =>
         ret ({| name := name c; email := email c; subject := subject c;
                 message := message c; file := file c; sending := true;
                 status := Some {| ok := false;
                                   status_text := "Failed to send message." |} |},
              app)) in
  let c' := fst r in
  ret ({| name := name c'; email := email c'; subject := subject c';
          message := message c'; file := file c'; sending := false;
          status := status c' |}, snd r).

(** ** Admin: the gate *)

Record Admin : Type := {
  loggedIn : JSON;
  pw : string;
}.

(** [useState(false)], [useState("")]. *)
Definition Admin_initial : Admin := {| loggedIn := JBool false; pw := "" |}.

(** The effect of the first render. *)
Definition Admin_effect (a : Admin) : JS Admin :=
  let* s := loadFromStorage "sr_admin_logged" (JBool false) in
  ret {| loggedIn := s; pw := pw a |}.

(** The component as a page load leaves it. *)
Definition Admin_mount : JS Admin := Admin_effect Admin_initial.

(** [setLoggedIn(true)] comes before the write and [setPw("")] after
    it. *)
Definition login {Q : Quota} (a : Admin) : JS Admin :=
  if String.eqb (pw a) DEFAULT_ADMIN_PASSWORD then
    event_handler {| loggedIn := JBool true; pw := pw a |}
      (saveToStorage "sr_admin_logged" (JBool true) ;;;
       ret {| loggedIn := JBool true; pw := "" |})
  else
    alert "Incorrect password. Change DEFAULT_ADMIN_PASSWORD in code for production." ;;;
    ret a.

Definition logout {Q : Quota} (a : Admin) : JS Admin :=
  event_handler {| loggedIn := JBool false; pw := pw a |}
    (saveToStorage "sr_admin_logged" (JBool false) ;;;
     ret {| loggedIn := JBool false; pw := pw a |}).

(** ** Admin: export and import *)

(** The export button; [messages] and [resources] are the props of
    [Admin].  The result is the text of the file offered for download. *)
Definition export_onClick (messages resources : JSON) : JS string :=
  let* stored_infos := loadFromStorage "sr_infos" (JArr []) in
  let dump := JObj [("messages", messages);
                    ("resources", resources);
                    ("infos", stored_infos)] in
  ret (JSON_stringify_space 2 dump).

(** [if (Array.isArray(v)) saveToStorage(key, v)] *)
Definition save_if_array {Q : Quota} (key : string) (v : option JSON) : JS unit :=
  match v with
  | Some (JArr xs) => saveToStorage key (JArr xs)
  | _ => ret tt
  end.

(** [reader.onload], on the text of the file. *)
Definition import_onload {Q : Quota} (result : string) : JS unit :=
  try_catch
    (let* data := or_throw SyntaxError (JSON_parse result) in
     let* m := get_property data "messages" in
     save_if_array "sr_messages" m ;;;
     let* r := get_property data "resources" in
     save_if_array "sr_resources" r ;;;
     let* i := get_property data "infos" in
     save_if_array "sr_infos" i ;;;
     alert "Import complete. Reloading..." ;;;
     location_reload)
    (fun _ => alert "Invalid file.").

(** The [onChange] handler of the file input; [f] is the text of the
    file selected, if one is. *)
Definition import_onChange {Q : Quota} (f : option string) : JS unit :=
  match f with
  | None => ret tt
  | Some result => import_onload result
  end.

(** ** The views *)

(** Arrays are objects with an identity: [reverse] reverses its receiver
    in place, [slice] allocates a copy.  A heap maps the references of
    the arrays of entries to their contents. *)
Abbreviation Heap := (gmap positive (list Obj)).
Abbreviation Render := (M Heap).

Definition Array_read (r : positive) : Render (list Obj) :=
  fun h => match h !! r with
           | Some xs => (Normal xs, h)
           | None => (Throw TypeError, h)
           end.

Definition Array_length (r : positive) : Render nat :=
  let* xs := Array_read r in ret (length xs).

Definition Array_slice (r : positive) : Render positive :=
  let* xs := Array_read r in
  fun h => let r' := fresh (dom h) in (Normal r', <[r' := xs]> h).

Definition Array_reverse (r : positive) : Render positive :=
  let* xs := Array_read r in
  fun h => (Normal r, <[r := rev xs]> h).

(** [map] calls [f] on the elements from first to last; the elements
    rendered are the children of the list, in that order. *)
Definition Array_map {B} (f : Obj -> B) (r : positive) : Render (list B) :=
  let* xs := Array_read r in ret (map f xs).

(** A rendered list item: its React key and the properties of the entry
    that it shows, in document order. *)
Record Item : Type := {
  item_key : option JSON;
  item_cells : list (option JSON);
}.

Inductive ListView : Type :=
| Placeholder (text : string)
| Items (items : list Item).

Definition info_article (info : Obj) : Item :=
  {| item_key := obj_get info "id";
     item_cells := [obj_get info "title"; obj_get info "body";
                    obj_get info "createdAt"] |}.

Definition resource_item (r : Obj) : Item :=
  {| item_key := obj_get r "id";
     item_cells := [obj_get r "name"; obj_get r "size";
                    obj_get r "createdAt"; obj_get r "data"; obj_get r "name"] |}.

Definition message_item (m : Obj) : Item :=
  {| item_key := obj_get m "id";
     item_cells := [obj_get m "subject"; obj_get m "name"; obj_get m "message";
                    obj_get m "email"; obj_get m "createdAt"; obj_get m "file"] |}.

Definition Home (infos : positive) : Render ListView :=
  let* n := Array_length infos in
  if Nat.eqb n 0 then ret (Placeholder "No announcements yet.")
  else let* items := Array_map info_article infos in ret (Items items).

Definition FilesPage (resources : positive) : Render ListView :=
  let* n := Array_length resources in
  if Nat.eqb n 0 then ret (Placeholder "No files uploaded yet.")
  else let* items := Array_map resource_item resources in ret (Items items).

(** The two lists of the admin panel. *)
Definition Admin_messages (messages : positive) : Render ListView :=
  let* n := Array_length messages in
  if Nat.eqb n 0 then ret (Placeholder "No messages yet.")
  else
    let* copy := Array_slice messages in
    let* reversed := Array_reverse copy in
    let* items := Array_map message_item reversed in
    ret (Items items).

Definition Admin_resources (resources : positive) : Render ListView :=
  let* copy := Array_slice resources in
  let* reversed := Array_reverse copy in
  let* items := Array_map resource_item reversed in
  ret (Items items).

(** What [Admin] returns: the login form, or the panel with the two
    counts and the two lists. *)
Inductive AdminView : Type :=
| LoginForm
| Panel (message_count : nat) (message_list : ListView)
        (resource_count : nat) (resource_list : ListView).

Definition Admin_view (a : Admin) (messages resources : positive)
  : Render AdminView :=
  if negb (truthy (loggedIn a)) then ret LoginForm
  else
    let* message_count := Array_length messages in
    let* message_list := Admin_messages messages in
    let* resource_count := Array_length resources in
    let* resource_list := Admin_resources resources in
    ret (Panel message_count message_list resource_count resource_list).

(** * More of App.jsx *)

(** ** App: the initial state *)

(** The three collections as [App] takes them from storage.  Nothing is
    checked on the way: each is whatever JSON value the text stored
    denotes. *)
Record Loaded : Type := {
  loaded_messages : JSON;
  loaded_resources : JSON;
  loaded_infos : JSON;
}.

(** The three lazy initial states,
    [useState(() => loadFromStorage(key, []))]. *)
Definition App_initial : JS Loaded :=
  let* m := loadFromStorage "sr_messages" (JArr []) in
  let* r := loadFromStorage "sr_resources" (JArr []) in
  let* i := loadFromStorage "sr_infos" (JArr []) in
  ret {| loaded_messages := m; loaded_resources := r; loaded_infos := i |}.

(** ** App: the callbacks as transitions *)

(** A call of one of the four callbacks that [App] hands to its pages. *)
Inductive Action : Type :=
| SendMessage (msg : Obj)
| DeleteMessage (confirmed : bool) (id : string)
| DeleteResource (confirmed : bool) (id : string)
| PostInfo (type : string) (payload : Obj).

Definition perform {Q : Quota} (act : Action) (app : App) : JS App :=
  match act with
  | SendMessage msg => handleSendMessage msg app
  | DeleteMessage confirmed id => handleDeleteMessage confirmed id app
  | DeleteResource confirmed id => handleDeleteResource confirmed id app
  | PostInfo type payload => handlePostInfo type payload app
  end.

Fixpoint perform_all {Q : Quota} (acts : list Action) (app : App) : JS App :=
  match acts with
  | [] => ret app
  | act :: acts' => let* app' := perform act app in perform_all acts' app'
  end.

(** ** Admin: the panel *)

Module AdminPanel.

(** The state of [Admin] besides the gate, and the value of the file
    input [admin-file], which [handleUpload] resets. *)
Record state : Type := {
  newTitle : string;
  newBody : string;
  uploadFile : option File;
  uploading : bool;
  status : option Status;
  admin_file : string;
}.

(** [rand] and [now] as in [handleSubmit]. *)
Definition handleUpload {Q : Quota} (rand now : string) (p : state) (app : App)
  : JS (state * App) :=
  match uploadFile p with
  | None => alert "Choose a file first." ;;; ret (p, app)
  | Some f =>
      let* r :=
        try_catch
          (let* data := readFileAsBase64 f in
           let res : Obj :=
             [("id", JStr (uid "res" rand));
              ("name", JStr (file_name f));
              ("size", JStr (size_KB (file_size f)));
              ("data", JStr data);
              ("createdAt", JStr now)] in
           let* app' := handlePostInfo "resource" res app in
           ret ({| newTitle := newTitle p; newBody := newBody p;
                   uploadFile := None; uploading := true;
                   status := Some {| ok := true; status_text := "File uploaded." |};
                   admin_file := "" |},
                app'))
          (fun _ =>
             ret ({| newTitle := newTitle p; newBody := newBody p;
                     uploadFile := uploadFile p; uploading := true;
                     status := Some {| ok := false; status_text := "Upload failed." |};
                     admin_file := admin_file p |},
                  app)) in
      let p' := fst r in
      ret ({| newTitle := newTitle p'; newBody := newBody p';
              uploadFile := uploadFile p'; uploading := false;
              status := status p'; admin_file := admin_file p' |}, snd r)
  end.

Definition postAnnouncement {Q : Quota} (rand now : string) (p : state) (app : App)
  : JS (state * App) :=
  if negb (truthy_string (newTitle p)) || negb (truthy_string (newBody p)) then
    alert "Please fill title and body." ;;; ret (p, app)
  else
    let info : Obj :=
      [("id", JStr (uid "info" rand));
       ("title", JStr (newTitle p));
       ("body", JStr (newBody p));
       ("createdAt", JStr now)] in
    let* app' := handlePostInfo "info" info app in
    ret ({| newTitle := ""; newBody := "";
            uploadFile := uploadFile p; uploading := uploading p;
            status := Some {| ok := true; status_text := "Announcement posted." |};
            admin_file := admin_file p |},
         app').

End AdminPanel.

(** * Vocabulary of the specification *)

Definition empty_browser : Browser :=
  {| localStorage := ∅; alerts := []; reloads := 0 |}.

(** The browser [b] with [value] stored under [key]. *)
Definition stored (key value : string) (b : Browser) : Browser :=
  {| localStorage := <[key := value]> (localStorage b);
     alerts := alerts b; reloads := reloads b |}.

(** The storage holds the three collections of [app]: what the effects
    of [App] establish after every render. *)
Definition persisted (b : Browser) (app : App) : Prop :=
  localStorage b !! "sr_messages" = Some (JSON_stringify (collection (messages app)))
  /\ localStorage b !! "sr_resources" = Some (JSON_stringify (collection (resources app)))
  /\ localStorage b !! "sr_infos" = Some (JSON_stringify (collection (infos app))).

(** [m] carries the identifier [id]. *)
Definition has_id (id : string) (m : Obj) : Prop :=
  obj_get m "id" = Some (JStr id).

#[global] Instance has_id_dec id m : Decision (has_id id m).
Proof.
  unfold has_id. destruct (obj_get m "id") as [[| | | | |s| |]|];
    try (right; discriminate).
  destruct (decide (s = id)) as [->|Hne]; [left; reflexivity|].
  right. congruence.
Defined.

#[global] Instance persisted_dec b app : Decision (persisted b app).
Proof. unfold persisted. apply _. Defined.

(** What a confirmed delete does to a collection: the entries that carry
    [id] go, all of them; the others stay, in their order. *)
Definition removes_entries (id : string) (before after : list Obj) : Prop :=
  (forall m, m ∈ after <-> m ∈ before /\ ~ has_id id m)
  /\ sublist after before
  /\ (length after + length (filter (has_id id) before) = length before)%nat
  /\ (forall l1 m l2,
        before = l1 ++ m :: l2 -> has_id id m ->
        Forall (fun x => ~ has_id id x) (l1 ++ l2) ->
        after = l1 ++ l2 /\ S (length after) = length before).

(** The storage after [if (Array.isArray(v)) saveToStorage(key, v)]. *)
Definition storage_after_save (key : string) (v : option JSON)
    (st : gmap string string) : gmap string string :=
  match v with
  | Some (JArr xs) => <[key := JSON_stringify (JArr xs)]> st
  | _ => st
  end.

Definition storage_after_import (o : Obj) (st : gmap string string)
  : gmap string string :=
  storage_after_save "sr_infos" (obj_get o "infos")
    (storage_after_save "sr_resources" (obj_get o "resources")
       (storage_after_save "sr_messages" (obj_get o "messages") st)).

(** What the import leaves under a storage key, given what the imported
    object holds under the property that goes with it. *)
Definition imported (v : option JSON) (old : option string) : option string :=
  match v with
  | Some (JArr xs) => Some (JSON_stringify (JArr xs))
  | _ => old
  end.

(** A list as the views show it: the placeholder when there is nothing
    to show. *)
Definition list_view (placeholder : string) (items : list Item) : ListView :=
  match items with
  | [] => Placeholder placeholder
  | _ :: _ => Items items
  end.

(** Every array of [h] is in [h'], with the same elements. *)
Definition arrays_kept (h h' : Heap) : Prop :=
  forall r xs, h !! r = Some xs -> h' !! r = Some xs.

(** Cases on what the imported object holds under the three names. *)
Ltac import_cases o :=
  destruct (obj_get o "infos") as [[| | | | | |?|]|],
           (obj_get o "resources") as [[| | | | | |?|]|],
           (obj_get o "messages") as [[| | | | | |?|]|].

(** ** Sample data *)

Definition entry (id title : string) : Obj :=
  [("id", JStr id); ("title", JStr title)].

Definition sample_app : App :=
  {| route := "admin";
     messages := [entry "msg_aaaaaaa" "first"; entry "msg_bbbbbbb" "second"];
     resources := [entry "res_ccccccc" "notes.pdf"];
     infos := [entry "info_ddddddd" "welcome"] |}.

(** The browser after the first render of [sample_app]. *)
Definition sample_browser : Browser := snd (App_effects sample_app empty_browser).

Definition sample_heap : Heap :=
  {[ 1%positive := infos sample_app;
     2%positive := resources sample_app;
     3%positive := messages sample_app ]}.

(** ** Vocabulary of the further properties *)

(** The number of characters that a storage holds, keys and values. *)
Definition usage (st : gmap string string) : nat :=
  map_fold (fun k v n => (String.length k + String.length v + n)%nat) O st.

(** A quota of [n] characters. *)
Definition at_most (n : nat) : Quota :=
  fun st => bool_decide (usage st <= n)%nat.

(** The browser [b] with [st] in the storage. *)
Definition with_storage (st : gmap string string) (b : Browser) : Browser :=
  {| localStorage := st; alerts := alerts b; reloads := reloads b |}.

(** The quota lets the import write under [key] what it writes for [v]:
    the array, or nothing. *)
Definition write_accepted {Q : Quota} (key : string) (v : option JSON)
    (st : gmap string string) : bool :=
  match v with
  | Some (JArr xs) => within_quota (<[key := JSON_stringify (JArr xs)]> st)
  | _ => true
  end.

(** What [loadFromStorage] makes of what [getItem] returns. *)
Definition reading (raw : option string) (fallback : JSON) : JSON :=
  match raw with
  | Some text =>
      if truthy_string text
      then match JSON_parse text with Some v => v | None => fallback end
      else fallback
  | None => fallback
  end.

(** The browser [b] after [alert(msg)]. *)
Definition alerted (msg : string) (b : Browser) : Browser :=
  {| localStorage := localStorage b; alerts := alerts b ++ [msg];
     reloads := reloads b |}.

(** [b'] differs from [b] at most in what the storage holds under the
    keys of the three collections. *)
Definition collections_only (b b' : Browser) : Prop :=
  alerts b' = alerts b /\ reloads b' = reloads b
  /\ forall k, k <> "sr_messages"%string -> k <> "sr_resources"%string ->
               k <> "sr_infos"%string ->
               localStorage b' !! k = localStorage b !! k.

(** Nothing readable is stored under [key]: no text, or a text that is
    not JSON. *)
Definition unreadable (key : string) (b : Browser) : Prop :=
  localStorage b !! key = None
  \/ exists raw, localStorage b !! key = Some raw /\ JSON_parse raw = None.

(** The browser [b] after the import has reported and asked for the
    reload, with [st] in the storage. *)
Definition import_done (st : gmap string string) (b : Browser) : Browser :=
  {| localStorage := st;
     alerts := alerts b ++ ["Import complete. Reloading..."%string];
     reloads := S (reloads b) |}.

(** The collections of [app] as [App] takes them from storage. *)
Definition loaded_of (app : App) : Loaded :=
  {| loaded_messages := collection (messages app);
     loaded_resources := collection (resources app);
     loaded_infos := collection (infos app) |}.

(** * Properties of the JSON functions *)

(** Numbers. *)

Lemma value_end_head c s : value_end (c :: s) = true -> digit_cons c = None.
Proof. ascii_cases c; cbn; intros H; try discriminate H; reflexivity. Qed.

Lemma value_end_nondigit s : value_end s = true -> nondigit s.
Proof. destruct s as [|c s]; [constructor|]. apply value_end_head. Qed.

Lemma read_digits_stop s : nondigit s -> read_digits s = (Decimal.Nil, s).
Proof.
  destruct s as [|c s]; [reflexivity|]. cbn. intros H. now rewrite H.
Qed.

Lemma read_digits_uint_text u rest :
  nondigit rest -> read_digits (uint_text u ++ rest) = (u, rest).
Proof.
  intros H. induction u; cbn [uint_text app];
    [now apply read_digits_stop|..];
    cbn [read_digits]; cbn [digit_cons N_of_ascii]; cbn; now rewrite IHu.
Qed.

(** The digits of a text and the number they denote. *)

Lemma digits_value_app acc a b :
  digits_value acc (a ++ b) = digits_value (digits_value acc a) b.
Proof. apply fold_left_app. Qed.

Lemma digits_value_shift acc ds :
  digits_value acc ds
  = (acc * 10 ^ N.of_nat (length ds) + digits_value 0 ds)%N.
Proof.
  revert acc. induction ds as [|c ds IH]; intros acc.
  - cbn. lia.
  - cbn [digits_value fold_left length]. fold (digits_value (10 * acc + digit_value c) ds).
    fold (digits_value (10 * 0 + digit_value c) ds).
    rewrite IH, (IH (10 * 0 + digit_value c)%N).
    rewrite Nat2N.inj_succ, N.pow_succ_r'. lia.
Qed.

Lemma digits_value_acc u acc :
  Npos (Pos.of_uint_acc u acc) = digits_value (Npos acc) (uint_text u).
Proof.
  revert acc. induction u; intros acc; cbn [Pos.of_uint_acc uint_text];
    [reflexivity|..];
    rewrite IHu; cbn [digits_value fold_left];
    apply (f_equal (fun a => fold_left _ (uint_text u) a));
    change (digit_value "0") with 0%N; change (digit_value "1") with 1%N;
    change (digit_value "2") with 2%N; change (digit_value "3") with 3%N;
    change (digit_value "4") with 4%N; change (digit_value "5") with 5%N;
    change (digit_value "6") with 6%N; change (digit_value "7") with 7%N;
    change (digit_value "8") with 8%N; change (digit_value "9") with 9%N; lia.
Qed.

Lemma digits_value_uint u : Pos.of_uint u = digits_value 0 (uint_text u).
Proof.
  induction u; cbn [Pos.of_uint uint_text]; [reflexivity|..];
    try (rewrite digits_value_acc; reflexivity).
  exact IHu.
Qed.

Lemma nb_digits_text u : Decimal.nb_digits u = length (uint_text u).
Proof. induction u; cbn; congruence. Qed.

Lemma uint_text_digits u : Forall (fun c => is_digit c = true) (uint_text u).
Proof. induction u; cbn [uint_text]; constructor; auto. Qed.

(** A text of digits is the text of the digits read off it. *)
Lemma read_digits_text ds rest :
  Forall (fun c => is_digit c = true) ds -> nondigit rest ->
  exists u, read_digits (ds ++ rest) = (u, rest) /\ uint_text u = ds.
Proof.
  intros Hd Hr. induction Hd as [|c ds Hc Hds IH].
  - exists Decimal.Nil. split; [now apply read_digits_stop|reflexivity].
  - destruct IH as (u & E & Hu). cbn [app read_digits]. rewrite E.
    revert Hc. ascii_cases c; cbn; intros Hc; try discriminate Hc;
      eexists; (split; [reflexivity|]); cbn [uint_text]; now rewrite Hu.
Qed.

Lemma to_uint_head p :
  match Pos.to_uint p with
  | Decimal.Nil | Decimal.D0 _ => False
  | _ => True
  end.
Proof.
  pose proof (DecimalPos.Unsigned.to_of (Pos.to_uint p)) as H.
  rewrite DecimalPos.Unsigned.of_to in H. cbn in H.
  pose proof (DecimalPos.Unsigned.to_uint_nonzero p) as Hz.
  pose proof (DecimalFacts.unorm_0 (Pos.to_uint p)) as H0.
  pose proof (DecimalFacts.nzhead_nonzero (Pos.to_uint p)) as Hn.
  unfold Decimal.unorm in *.
  destruct (Decimal.nzhead (Pos.to_uint p)) eqn:E; rewrite H; try exact I.
  - apply Hz. now rewrite H.
  - now apply (Hn u).
Qed.

Lemma digits_of_pos p :
  exists c ds,
    uint_text (Pos.to_uint p) = c :: ds
    /\ is_digit c = true /\ Ascii.eqb c "0"%char = false
    /\ Forall (fun c => is_digit c = true) ds
    /\ digits_value 0 (c :: ds) = Npos p.
Proof.
  pose proof (to_uint_head p) as Hh.
  pose proof (uint_text_digits (Pos.to_uint p)) as Hd.
  pose proof (digits_value_uint (Pos.to_uint p)) as Hv.
  rewrite DecimalPos.Unsigned.of_to in Hv.
  destruct (Pos.to_uint p) eqn:E; try contradiction; cbn [uint_text] in *;
    inversion Hd; subst; eexists _, _; repeat split; eauto.
Qed.

Lemma after_digits_nondigit s : after_digits s -> nondigit s.
Proof. destruct s; [trivial|]. now intros []. Qed.

Lemma value_end_after_digits s : value_end s = true -> after_digits s.
Proof.
  destruct s as [|c s]; [constructor|].
  ascii_cases c; cbn; intros H; try discriminate H; split; reflexivity.
Qed.

Lemma parse_int_zero tail : parse_int ("0"%char :: tail) = Some (0%N, tail).
Proof. reflexivity. Qed.

Lemma parse_int_digits c ds tail :
  is_digit c = true -> Ascii.eqb c "0"%char = false ->
  Forall (fun c => is_digit c = true) ds -> nondigit tail ->
  parse_int ((c :: ds) ++ tail) = Some (digits_value 0 (c :: ds), tail).
Proof.
  intros Hc H0 Hds Ht.
  destruct (read_digits_text (c :: ds) tail) as (u & E & Hu); [now constructor|exact Ht|].
  cbn [app] in *. unfold parse_int. rewrite H0, Hc, E.
  now rewrite digits_value_uint, Hu.
Qed.

Lemma parse_frac_digits c ds tail :
  Forall (fun c => is_digit c = true) (c :: ds) -> nondigit tail ->
  exists u, parse_frac ("."%char :: (c :: ds) ++ tail) = Some (u, tail)
            /\ uint_text u = c :: ds.
Proof.
  intros Hds Ht.
  destruct (read_digits_text (c :: ds) tail Hds Ht) as (u & E & Hu).
  exists u. split; [|exact Hu]. unfold parse_frac.
  cbn [Ascii.eqb Bool.eqb]. cbn -[read_digits app]. rewrite E.
  destruct u; [discriminate Hu|..]; reflexivity.
Qed.

Lemma parse_frac_skip tail :
  after_digits tail -> parse_frac tail = Some (Decimal.Nil, tail).
Proof.
  destruct tail as [|c t]; [reflexivity|]. intros [_ H]. unfold parse_frac.
  now rewrite H.
Qed.

Lemma parse_fraction_text fds tail :
  Forall (fun c => is_digit c = true) fds -> after_digits tail ->
  exists u, parse_frac (fraction_text fds ++ tail) = Some (u, tail)
            /\ uint_text u = fds.
Proof.
  intros Hf Ht. destruct fds as [|c ds].
  - exists Decimal.Nil. split; [now apply parse_frac_skip|reflexivity].
  - cbn [fraction_text app]. apply parse_frac_digits; [exact Hf|].
    now apply after_digits_nondigit.
Qed.

Lemma parse_unsigned_digits negative c ds fds tail x rest :
  is_digit c = true -> Ascii.eqb c "0"%char = false ->
  Forall (fun c => is_digit c = true) ds ->
  Forall (fun c => is_digit c = true) fds ->
  after_digits tail -> parse_exp tail = Some (x, rest) ->
  parse_unsigned negative ((c :: ds) ++ fraction_text fds ++ tail)
  = Some (number (let m := Z.of_N (digits_value 0 ((c :: ds) ++ fds)) in
                  if negative then - m else m)
                 (x - Z.of_nat (length fds)), rest).
Proof.
  intros Hc H0 Hds Hf Ht Hx.
  destruct (parse_fraction_text fds tail Hf Ht) as (u & Eu & Hu).
  unfold parse_unsigned.
  rewrite (parse_int_digits c ds _ Hc H0 Hds).
  2:{ destruct fds; cbn [fraction_text app]; [now apply after_digits_nondigit|reflexivity]. }
  cbn [mbind option_bind]. rewrite Eu. cbn [mbind option_bind]. rewrite Hx.
  cbn [mbind option_bind]. cbv zeta.
  rewrite nb_digits_text, digits_value_uint, Hu.
  rewrite digits_value_app, (digits_value_shift (digits_value 0 (c :: ds)) fds).
  rewrite N2Z.inj_add, N2Z.inj_mul, N2Z.inj_pow, nat_N_Z. reflexivity.
Qed.

Lemma digits_value_zeros z ds :
  digits_value 0 (repeat "0"%char z ++ ds) = digits_value 0 ds.
Proof. induction z as [|z IH]; [reflexivity|exact IH]. Qed.

Lemma parse_unsigned_zero negative fds tail x rest :
  Forall (fun c => is_digit c = true) fds ->
  after_digits tail -> parse_exp tail = Some (x, rest) ->
  parse_unsigned negative ("0"%char :: fraction_text fds ++ tail)
  = Some (number (let m := Z.of_N (digits_value 0 fds) in
                  if negative then - m else m)
                 (x - Z.of_nat (length fds)), rest).
Proof.
  intros Hf Ht Hx.
  destruct (parse_fraction_text fds tail Hf Ht) as (u & Eu & Hu).
  unfold parse_unsigned. rewrite parse_int_zero.
  cbn [mbind option_bind]. rewrite Eu. cbn [mbind option_bind]. rewrite Hx.
  cbn [mbind option_bind]. cbv zeta.
  rewrite nb_digits_text, digits_value_uint, Hu. reflexivity.
Qed.

Lemma parse_frac_none rest :
  value_end rest = true -> parse_frac rest = Some (Decimal.Nil, rest).
Proof. intros H. now apply parse_frac_skip, value_end_after_digits. Qed.

Lemma parse_exp_none rest :
  value_end rest = true -> parse_exp rest = Some (0, rest).
Proof.
  destruct rest as [|c r]; [reflexivity|]. intros H. unfold parse_exp.
  revert H. ascii_cases c; cbn; intros H; try discriminate H; reflexivity.
Qed.

(** The digits of an integer that is not negative. *)
Lemma digits_of_nonneg x :
  0 <= x ->
  exists c ds,
    number_text x = c :: ds
    /\ Forall (fun c => is_digit c = true) (c :: ds)
    /\ Z.of_N (digits_value 0 (c :: ds)) = x.
Proof.
  intros H. destruct x as [|p|p]; [|..|lia].
  - eexists _, _. split; [reflexivity|]. split; [repeat constructor|reflexivity].
  - destruct (digits_of_pos p) as (c & ds & E & Hc & _ & Hds & Hv).
    exists c, ds. cbn [number_text]. rewrite E, Hv. repeat split; auto.
Qed.

Lemma parse_exp_digits_text x rest :
  0 <= x -> value_end rest = true ->
  parse_exp_digits (number_text x ++ rest) = Some (x, rest).
Proof.
  intros Hx Hr. destruct (digits_of_nonneg x Hx) as (c & ds & E & Hd & Hv).
  destruct (read_digits_text (c :: ds) rest Hd (value_end_nondigit _ Hr))
    as (u & Eu & Hu).
  unfold parse_exp_digits. rewrite E, Eu.
  destruct u; [discriminate Hu|..]; rewrite digits_value_uint, Hu, Hv; reflexivity.
Qed.

Lemma parse_exp_text n rest :
  value_end rest = true ->
  parse_exp ("e"%char :: (if 0 <=? n then "+"%char else "-"%char)
               :: number_text (Z.abs n) ++ rest)
  = Some (n, rest).
Proof.
  intros Hr. unfold parse_exp. cbn [Ascii.eqb Bool.eqb orb].
  pose proof (parse_exp_digits_text (Z.abs n) rest (Z.abs_nonneg n) Hr) as E.
  destruct (Z.leb_spec 0 n) as [H|H].
  - cbn [Ascii.eqb Bool.eqb]. rewrite E. f_equal. f_equal. lia.
  - cbn [Ascii.eqb Bool.eqb]. rewrite E. cbn [mbind option_bind].
    f_equal. f_equal. lia.
Qed.

Lemma after_digits_exponent t : after_digits ("e"%char :: t).
Proof. split; reflexivity. Qed.

Lemma exponent_text_digits p n :
  exists c ds,
    uint_text (Pos.to_uint p) = c :: ds
    /\ exponent_text (Zpos p) n
       = (c :: []) ++ fraction_text ds
           ++ "e"%char :: (if 0 <=? n - 1 then "+"%char else "-"%char)
           :: number_text (Z.abs (n - 1)).
Proof.
  destruct (digits_of_pos p) as (c & ds & E & _).
  exists c, ds. split; [exact E|]. unfold exponent_text. cbn [number_text].
  rewrite E. reflexivity.
Qed.

Lemma parse_unsigned_exponent negative p n rest :
  value_end rest = true ->
  parse_unsigned negative (exponent_text (Zpos p) n ++ rest)
  = Some (number (if negative then Zneg p else Zpos p)
                 (n - Z.of_nat (length (uint_text (Pos.to_uint p)))), rest).
Proof.
  intros Hr.
  destruct (exponent_text_digits p n) as (c & ds & E & ->).
  destruct (digits_of_pos p) as (c' & ds' & E' & Hc & H0 & Hds & Hv).
  rewrite E in E'. injection E' as <- <-.
  rewrite <- !app_assoc. cbn [app].
  change (c :: fraction_text ds ++ ?t) with ((c :: []) ++ fraction_text ds ++ t).
  rewrite (parse_unsigned_digits negative c [] ds _ (n - 1) rest Hc H0);
    [|constructor|exact Hds|apply after_digits_exponent|now apply parse_exp_text].
  cbn [app]. rewrite Hv, E. cbn [length]. cbv zeta.
  replace (n - 1 - Z.of_nat (length ds)) with (n - Z.of_nat (S (length ds))) by lia.
  destruct negative; reflexivity.
Qed.

Lemma strip_zeros_value k m :
  0 < m ->
  let '(m', k') := strip_zeros k m in
  0 < m' /\ (k' <= k)%nat /\ m = m' * 10 ^ Z.of_nat (k - k').
Proof.
  revert m. induction k as [|k IH]; intros m Hm; cbn [strip_zeros].
  - split; [exact Hm|]. split; [lia|]. cbn. lia.
  - destruct (Z.eqb_spec (m mod 10) 0) as [H0|H0].
    + assert (Hd : m = 10 * (m / 10)).
      { pose proof (Z.div_mod m 10 ltac:(lia)). lia. }
      specialize (IH (m / 10) ltac:(lia)).
      destruct (strip_zeros k (m / 10)) as [m' k'].
      destruct IH as (Hp & Hk & Hv). split; [exact Hp|]. split; [lia|].
      replace (Z.of_nat (S k - k')) with (Z.succ (Z.of_nat (k - k'))) by lia.
      rewrite Z.pow_succ_r by lia. lia.
    + split; [exact Hm|]. split; [lia|].
      replace (S k - S k)%nat with O by lia. cbn. lia.
Qed.

Lemma number_times_pow10 s j :
  s <> 0 -> 0 <= j -> number (s * 10 ^ j) 0 = number s j.
Proof.
  intros Hs Hj. unfold number.
  assert (Hp : 0 < 10 ^ j) by (apply Z.pow_pos_nonneg; lia).
  destruct (Z.eqb_spec (s * 10 ^ j) 0) as [H|_]; [nia|].
  destruct (Z.eqb_spec s 0) as [H|_]; [contradiction|].
  unfold times_pow10. cbn [Z.leb Z.compare].
  destruct (Z.leb_spec 0 j) as [_|H]; [|lia].
  rewrite Z.pow_0_r, Z.mul_1_r, Z.abs_mul, (Z.abs_eq (10 ^ j)) by lia.
  assert (Hn : (s * 10 ^ j <? 0) = (s <? 0)).
  { destruct (Z.ltb_spec (s * 10 ^ j) 0), (Z.ltb_spec s 0); try reflexivity; nia. }
  now rewrite Hn.
Qed.

Lemma valid_JNum n : valid (JNum n) = true -> number n 0 = JNum n.
Proof.
  cbn [valid]. destruct (number n 0); try discriminate.
  intros H. apply Z.eqb_eq in H. now subst.
Qed.

Lemma valid_JDec m k :
  valid (JDec m k) = true -> number m (Z.neg k) = JDec m k /\ m <> 0.
Proof.
  cbn [valid]. intros H. split.
  - destruct (number m (Z.neg k)); try discriminate.
    apply andb_true_iff in H as [H1 H2].
    apply Z.eqb_eq in H1. apply Pos.eqb_eq in H2. now subst.
  - intros ->. discriminate H.
Qed.

(** The safe integers are valid: an integer below [2^53] is a double,
    the decimals of fewer digits that round to it are the integer itself
    written with zeros at the end, and the search for the shortest of
    them ends at the units at the latest. *)
Lemma log2_ratio_scaled n s :
  0 < n -> 0 <= s -> log2_ratio (n * 2 ^ s) (2 ^ s) = Z.log2 n.
Proof.
  intros Hn Hs. unfold log2_ratio.
  rewrite Z.log2_mul_pow2, Z.log2_pow2 by lia.
  replace (s + Z.log2 n - s) with (Z.log2 n) by lia.
  pose proof (Z.log2_nonneg n) as Hl.
  destruct (Z.log2_spec n Hn) as [Hlo _].
  assert (Hp : 0 < 2 ^ s) by (apply Z.pow_pos_nonneg; lia).
  destruct (Z.leb_spec 0 (Z.log2 n)); [|lia].
  destruct (Z.leb_spec (2 ^ s * 2 ^ Z.log2 n) (n * 2 ^ s)); [reflexivity|nia].
Qed.

Lemma log2_ratio_integer n : 0 < n -> log2_ratio n 1 = Z.log2 n.
Proof.
  intros Hn. pose proof (log2_ratio_scaled n 0 Hn (Z.le_refl 0)) as H.
  change (2 ^ 0) with 1 in H. now rewrite Z.mul_1_r in H.
Qed.

Lemma round_half_even_integer n : round_half_even n 1 = n.
Proof.
  unfold round_half_even. now rewrite Z.div_1_r, Z.mod_1_r.
Qed.

(** An integer below [2^53] is a double. *)
Lemma round_double_small n :
  0 < n < 2 ^ 53 ->
  round_double n 1 = RFinite (n * 2 ^ (52 - Z.log2 n)) (Z.log2 n - 52).
Proof.
  intros [Hn Hb]. unfold round_double. rewrite log2_ratio_integer by exact Hn.
  assert (Hl : 0 <= Z.log2 n < 53).
  { split; [apply Z.log2_nonneg|]. now apply Z.log2_lt_pow2. }
  destruct (Z.log2_spec n Hn) as [Hlo Hhi].
  set (l := Z.log2 n) in *.
  rewrite Z.max_l by lia.
  assert (Hm : 0 < n * 2 ^ (52 - l) < 2 ^ 53).
  { assert (0 < 2 ^ (52 - l)) by (apply Z.pow_pos_nonneg; lia).
    split; [nia|].
    replace 53 with (Z.succ l + (52 - l)) by lia.
    rewrite Z.pow_add_r by lia. nia. }
  assert (E : (if 0 <=? l - 52 then round_half_even n (1 * 2 ^ (l - 52))
               else round_half_even (n * 2 ^ (- (l - 52))) 1)
              = n * 2 ^ (52 - l)).
  { destruct (Z.leb_spec 0 (l - 52)).
    - replace l with 52 by lia. change (1 * 2 ^ (52 - 52)) with 1.
      change (2 ^ (52 - 52)) with 1.
      rewrite round_half_even_integer. lia.
    - replace (- (l - 52)) with (52 - l) by lia.
      apply round_half_even_integer. }
  cbv zeta. rewrite E.
  destruct (Z.eqb_spec (n * 2 ^ (52 - l)) 0); [lia|].
  destruct (Z.eqb_spec (n * 2 ^ (52 - l)) (2 ^ 53)); [lia|].
  destruct (Z.ltb_spec 971 (l - 52)); [lia|reflexivity].
Qed.

(** An integer from [2^53] on rounds to a double with a positive
    exponent, or to infinity. *)
Lemma round_double_large n mant ex :
  2 ^ 53 <= n -> round_double n 1 = RFinite mant ex -> 0 < ex.
Proof.
  intros Hb. assert (Hn : 0 < n) by lia.
  unfold round_double. rewrite log2_ratio_integer by exact Hn.
  assert (Hl : 53 <= Z.log2 n) by now apply Z.log2_le_pow2.
  set (l := Z.log2 n) in *. rewrite Z.max_l by lia. cbv zeta.
  destruct (0 <=? l - 52);
    (destruct (_ =? 0); [discriminate|]);
    (destruct (_ =? 2 ^ 53);
     [destruct (971 <? l - 52 + 1); [discriminate|]
     |destruct (971 <? l - 52); [discriminate|]]);
    intros E; injection E as _ E; lia.
Qed.

Lemma round_double_zero : round_double 0 1 = RZero.
Proof. reflexivity. Qed.

(** Two integers that round to one double, itself an integer below
    [2^53], are equal. *)
Lemma round_double_integer_inj n c :
  0 < n < 2 ^ 53 -> 0 <= c ->
  round_double c 1 = round_double n 1 -> c = n.
Proof.
  intros Hn Hc E. rewrite (round_double_small n Hn) in E.
  assert (Hl : 0 <= Z.log2 n < 53).
  { split; [apply Z.log2_nonneg|]. apply Z.log2_lt_pow2; lia. }
  destruct (Z.eq_dec c 0) as [->|Hc0]; [discriminate E|].
  destruct (Z.lt_ge_cases c (2 ^ 53)) as [Hs|Hb].
  - rewrite round_double_small in E by lia.
    injection E as Em El.
    assert (Z.log2 c = Z.log2 n) as Hlog by lia.
    rewrite Hlog in Em.
    assert (0 < 2 ^ (52 - Z.log2 n)) by (apply Z.pow_pos_nonneg; lia).
    nia.
  - apply (round_double_large c _ _ Hb) in E. lia.
Qed.

Section Shortest_integer.
Variables n vn vd mant ex : Z.
Hypothesis Hn : 0 < n < 2 ^ 53.
Hypothesis Hvd : 0 < vd.
Hypothesis Hvn : vn = n * vd.
Hypothesis Hmant : mant = n * 2 ^ (52 - Z.log2 n).
Hypothesis Hex : ex = Z.log2 n - 52.

Lemma rounds_to_exact c q :
  0 <= q -> 0 <= c -> rounds_to mant ex c q = true -> c * 10 ^ q = n.
Proof.
  intros Hq Hc. unfold rounds_to, times_pow10.
  destruct (Z.leb_spec 0 q) as [_|Hneg]; [|lia].
  destruct (round_double (c * 10 ^ q) 1) as [|m e|] eqn:E; try discriminate.
  intros H. apply andb_true_iff in H as [H1 H2].
  apply Z.eqb_eq in H1. apply Z.eqb_eq in H2. subst m e.
  apply round_double_integer_inj; [exact Hn| |].
  - assert (0 < 10 ^ q) by (apply Z.pow_pos_nonneg; lia). nia.
  - rewrite E, Hmant, Hex. symmetry. now apply round_double_small.
Qed.

Lemma rounds_to_self : rounds_to mant ex n 0 = true.
Proof.
  unfold rounds_to, times_pow10. change (0 <=? 0) with true.
  change (10 ^ 0) with 1. rewrite Z.mul_1_r.
  rewrite (round_double_small n Hn), <- Hmant, <- Hex.
  now rewrite !Z.eqb_refl.
Qed.

Lemma candidate_exact q c :
  0 <= q -> candidate vn vd mant ex q = Some c -> c * 10 ^ q = n.
Proof.
  intros Hq. unfold candidate, times_pow10.
  assert (Hp : 0 < 10 ^ q) by (apply Z.pow_pos_nonneg; lia).
  destruct (Z.leb_spec 0 (- q)) as [H0|H0].
  - assert (q = 0) as -> by lia. change (10 ^ (- 0)) with 1.
    rewrite Z.mul_1_r, Hvn, Z.div_mul by lia. cbv zeta.
    rewrite rounds_to_self.
    destruct (rounds_to mant ex (n + 1) 0).
    + replace (2 * (n * vd) ?= (n + (n + 1)) * vd) with Lt
        by (symmetry; apply Z.compare_lt_iff; nia).
      intros E. injection E as <-. change (10 ^ 0) with 1. lia.
    + intros E. injection E as <-. change (10 ^ 0) with 1. lia.
  - replace (- - q) with q by lia. cbv zeta.
    assert (Hlo : 0 <= vn / (vd * 10 ^ q)) by (apply Z.div_pos; nia).
    set (lo := vn / (vd * 10 ^ q)) in *.
    destruct (rounds_to mant ex lo q) eqn:E1;
      destruct (rounds_to mant ex (lo + 1) q) eqn:E2.
    + destruct (2 * vn ?= (lo + (lo + 1)) * (vd * 10 ^ q));
        [destruct (Z.even lo)| |]; intros E; injection E as <-;
        apply rounds_to_exact; try assumption; lia.
    + intros E. injection E as <-. apply rounds_to_exact; try assumption; lia.
    + intros E. injection E as <-. apply rounds_to_exact; try assumption; lia.
    + discriminate.
Qed.

Lemma candidate_units : candidate vn vd mant ex 0 <> None.
Proof.
  unfold candidate, times_pow10. change (0 <=? - 0) with true.
  change (10 ^ (- 0)) with 1.
  rewrite Z.mul_1_r, Hvn, Z.div_mul by lia. cbv zeta.
  rewrite rounds_to_self.
  destruct (rounds_to mant ex (n + 1) 0); [|discriminate].
  now destruct (2 * (n * vd) ?= (n + (n + 1)) * vd); [destruct (Z.even n)| |].
Qed.

Lemma shortest_from_exact fuel k n10 c q :
  k <= n10 -> n10 - k < Z.of_nat fuel ->
  shortest_from fuel k vn vd mant ex n10 = (c, q) ->
  0 <= q /\ c * 10 ^ q = n.
Proof.
  revert k. induction fuel as [|fuel IH]; intros k Hk Hf; [lia|].
  cbn [shortest_from].
  destruct (candidate vn vd mant ex (n10 - k)) as [c'|] eqn:E.
  - intros H. injection H as <- <-. split; [lia|].
    apply candidate_exact; [lia|exact E].
  - assert (k <> n10).
    { intros ->. rewrite Z.sub_diag in E. now apply candidate_units in E. }
    apply IH; lia.
Qed.

Lemma below_pow10_integer j :
  0 <= j -> below_pow10 vn vd j = (n <? 10 ^ j).
Proof.
  intros Hj. unfold below_pow10, times_pow10.
  destruct (Z.leb_spec 0 j); [|lia].
  rewrite Hvn. destruct (Z.ltb_spec n (10 ^ j));
    [apply Z.ltb_lt|apply Z.ltb_ge]; nia.
Qed.

Lemma dexp_up_le fuel j :
  0 <= j <= 16 -> dexp_up fuel vn vd j <= 16.
Proof.
  revert j. induction fuel as [|fuel IH]; intros j Hj; cbn [dexp_up]; [lia|].
  rewrite below_pow10_integer by lia.
  destruct (Z.ltb_spec n (10 ^ j)); [lia|].
  apply IH. assert (j <> 16); [|lia].
  intros ->. assert (2 ^ 53 < 10 ^ 16) by reflexivity. lia.
Qed.

Lemma dexp_up_ge fuel j : j <= dexp_up fuel vn vd j.
Proof.
  revert j. induction fuel as [|fuel IH]; intros j; cbn [dexp_up]; [lia|].
  destruct (below_pow10 vn vd j); [lia|].
  specialize (IH (j + 1)). lia.
Qed.

Lemma dexp_up_positive fuel j :
  0 <= j -> 1 <= dexp_up (S fuel) vn vd j.
Proof.
  intros Hj. cbn [dexp_up]. rewrite below_pow10_integer by lia.
  destruct (Z.ltb_spec n (10 ^ j)) as [H|H].
  - assert (j <> 0); [|lia]. intros ->. change (10 ^ 0) with 1 in H. lia.
  - pose proof (dexp_up_ge fuel (j + 1)). lia.
Qed.

End Shortest_integer.

Lemma shortest_integer n c q :
  0 < n < 2 ^ 53 ->
  shortest (n * 2 ^ (52 - Z.log2 n)) (Z.log2 n - 52) = (c, q) ->
  0 <= q /\ c * 10 ^ q = n.
Proof.
  intros Hn. assert (Hl : 0 <= Z.log2 n < 53).
  { split; [apply Z.log2_nonneg|]. apply Z.log2_lt_pow2; lia. }
  unfold shortest.
  set (s := 52 - Z.log2 n).
  assert (Hs : 0 <= s) by (unfold s; lia).
  assert (Hp : 0 < 2 ^ s) by (apply Z.pow_pos_nonneg; lia).
  assert (E : (if 0 <=? Z.log2 n - 52
               then (n * 2 ^ s * 2 ^ (Z.log2 n - 52), 1)
               else (n * 2 ^ s, 2 ^ (- (Z.log2 n - 52))))
              = (n * 2 ^ s, 2 ^ s)).
  { destruct (Z.leb_spec 0 (Z.log2 n - 52)).
    - assert (s = 0) as -> by (unfold s; lia).
      replace (Z.log2 n - 52) with 0 by lia. change (2 ^ 0) with 1.
      now rewrite !Z.mul_1_r.
    - now replace (- (Z.log2 n - 52)) with s by (unfold s; lia). }
  rewrite E. unfold dexp. rewrite log2_ratio_scaled by lia. cbv zeta.
  destruct (Z.leb_spec 0 (Z.log2 n)); [|lia].
  set (n0 := Z.log2 n * 30102 / 100000).
  assert (Hn0 : 0 <= n0 <= 16).
  { unfold n0. split; [apply Z.div_pos; lia|].
    apply Z.lt_succ_r, Z.div_lt_upper_bound; lia. }
  pose proof (dexp_up_le n (n * 2 ^ s) (2 ^ s) Hn Hp eq_refl 4 n0 Hn0) as Hle.
  pose proof (dexp_up_positive n (n * 2 ^ s) (2 ^ s) Hn Hp eq_refl 3 n0
                (proj1 Hn0)) as Hge.
  apply (shortest_from_exact n (n * 2 ^ s) (2 ^ s) _ _ Hn Hp eq_refl
           eq_refl eq_refl); [exact Hge|].
  change (Z.of_nat 17) with 17. lia.
Qed.

Lemma number_small n : 0 < n < 2 ^ 53 -> number n 0 = JNum n /\ number (- n) 0 = JNum (- n).
Proof.
  intros Hn. unfold number, times_pow10.
  destruct (Z.eqb_spec n 0); [lia|]. destruct (Z.eqb_spec (- n) 0); [lia|].
  change (0 <=? 0) with true. change (10 ^ 0) with 1.
  rewrite Z.abs_opp, Z.abs_eq, Z.mul_1_r by lia. cbv zeta.
  rewrite (round_double_small n Hn).
  destruct (shortest _ _) as [c q] eqn:E.
  apply shortest_integer in E as [Hq Hc]; [|exact Hn].
  assert (Hp : 0 < 10 ^ q) by (apply Z.pow_pos_nonneg; lia).
  destruct (Z.ltb_spec n 0); [lia|]. destruct (Z.ltb_spec (- n) 0); [|lia].
  unfold decimal.
  destruct (Z.eqb_spec c 0); [nia|]. destruct (Z.eqb_spec (- c) 0); [lia|].
  destruct (Z.leb_spec 0 q); [|lia].
  split; f_equal; lia.
Qed.

(** Every safe integer is a valid number. *)
Lemma valid_safe_integer n : safe_integer n = true -> valid (JNum n) = true.
Proof.
  unfold safe_integer. intros H. apply andb_true_iff in H as [H1 H2].
  apply Z.leb_le in H1. apply Z.leb_le in H2. cbn [valid].
  destruct (Z.compare_spec n 0) as [->|Hneg|Hpos].
  - reflexivity.
  - destruct (number_small (- n)) as [_ E]; [lia|].
    rewrite Z.opp_involutive in E. rewrite E. apply Z.eqb_refl.
  - destruct (number_small n) as [E _]; [lia|].
    rewrite E. apply Z.eqb_refl.
Qed.

Lemma parse_number_minus t : parse_number ("-"%char :: t) = parse_unsigned true t.
Proof. reflexivity. Qed.

Lemma parse_number_digit c t :
  is_digit c = true -> parse_number (c :: t) = parse_unsigned false (c :: t).
Proof. ascii_cases c; cbn; intros H; try discriminate H; reflexivity. Qed.

(** A number after its sign, for the sign and the digits [t] of [m]. *)
Lemma parse_number_signed m p t v rest :
  Z.abs m = Zpos p ->
  (exists c ds, t = c :: ds /\ is_digit c = true) ->
  (forall negative,
      parse_unsigned negative (t ++ rest)
      = Some (number (if negative then Zneg p else Zpos p) v, rest)) ->
  parse_number (((if m <? 0 then ["-"%char] else []) ++ t) ++ rest)
  = Some (number m v, rest).
Proof.
  intros Ha (c & ds & -> & Hc) H.
  destruct m as [|q|q]; [discriminate Ha|..]; injection Ha as ->; cbn [Z.ltb Z.compare app].
  - rewrite (parse_number_digit c _ Hc). apply (H false).
  - rewrite parse_number_minus. apply (H true).
Qed.

Lemma exponent_text_start p n :
  exists c ds, exponent_text (Zpos p) n = c :: ds /\ is_digit c = true.
Proof.
  destruct (exponent_text_digits p n) as (c & ds & E & ->).
  destruct (digits_of_pos p) as (c' & ds' & E' & Hc & _).
  rewrite E in E'. injection E' as <- <-. cbn [app]. eauto.
Qed.

Lemma parse_number_integer n rest :
  valid (JNum n) = true -> value_end rest = true ->
  parse_number (integer_text n ++ rest) = Some (JNum n, rest).
Proof.
  intros Hv Hr. apply valid_JNum in Hv. unfold integer_text.
  destruct (length (number_text (Z.abs n)) <=? 21)%nat eqn:Hlen.
  - destruct n as [|p|p]; cbn [number_text].
    + cbn [app]. rewrite (parse_number_digit "0"%char _ eq_refl).
      change ("0"%char :: rest) with ("0"%char :: fraction_text [] ++ rest).
      rewrite (parse_unsigned_zero false [] rest 0 rest);
        [reflexivity|constructor|now apply value_end_after_digits
        |now apply parse_exp_none].
    + destruct (digits_of_pos p) as (c & ds & E & Hc & H0 & Hds & Hd).
      rewrite E. cbn [app]. rewrite (parse_number_digit c _ Hc).
      change (c :: ds ++ rest) with ((c :: ds) ++ fraction_text [] ++ rest).
      rewrite (parse_unsigned_digits false c ds [] rest 0 rest Hc H0 Hds);
        [|constructor|now apply value_end_after_digits|now apply parse_exp_none].
      rewrite app_nil_r, Hd. cbn [length Z.of_N]. cbv zeta.
      change (0 - Z.of_nat 0) with 0. now rewrite Hv.
    + destruct (digits_of_pos p) as (c & ds & E & Hc & H0 & Hds & Hd).
      rewrite E. cbn [app]. rewrite parse_number_minus.
      change (c :: ds ++ rest) with ((c :: ds) ++ fraction_text [] ++ rest).
      rewrite (parse_unsigned_digits true c ds [] rest 0 rest Hc H0 Hds);
        [|constructor|now apply value_end_after_digits|now apply parse_exp_none].
      rewrite app_nil_r, Hd. cbn [length Z.of_N]. cbv zeta.
      change (0 - Z.of_nat 0) with 0. change (- Z.pos p) with (Z.neg p).
      now rewrite Hv.
  - destruct (Z.eq_dec n 0) as [->|Hn0]; [discriminate Hlen|]. clear Hlen.
    assert (Hpos : 0 < Z.abs n) by lia.
    pose proof (strip_zeros_value (length (number_text (Z.abs n))) (Z.abs n) Hpos) as Hs.
    destruct (strip_zeros (length (number_text (Z.abs n))) (Z.abs n)) as [s k'].
    destruct Hs as (Hs & Hk & Hval).
    destruct s as [|q|q]; try lia.
    set (j := Z.of_nat (length (number_text (Z.abs n)) - k')) in *.
    assert (Hj : 0 <= j) by (subst j; lia).
    destruct (exponent_text_start q (Z.of_nat (length (number_text (Zpos q))) + j))
      as (c & ds & Ec & Hc).
    rewrite Ec.
    assert (Hu : forall negative,
               parse_unsigned negative (c :: ds ++ rest)
               = Some (number (if negative then Zneg q else Zpos q) j, rest)).
    { intros negative. change (c :: ds ++ rest) with ((c :: ds) ++ rest).
      rewrite <- Ec, parse_unsigned_exponent by exact Hr.
      cbn [number_text]. do 3 f_equal. lia. }
    rewrite <- Hv.
    destruct (Z.ltb_spec n 0) as [Hneg|Hneg]; cbn [app].
    + rewrite parse_number_minus, (Hu true).
      replace n with (Zneg q * 10 ^ j) by lia.
      now rewrite number_times_pow10.
    + rewrite (parse_number_digit c _ Hc), (Hu false).
      replace n with (Zpos q * 10 ^ j) by lia.
      now rewrite number_times_pow10.
Qed.

Lemma decimal_text_body m k :
  decimal_text m k
  = (if m <? 0 then ["-"%char] else [])
      ++ (let digits := number_text (Z.abs m) in
          let n := length digits in
          let k := Pos.to_nat k in
          if (k <? n)%nat
          then if (n - k <=? 21)%nat
               then take (n - k) digits ++ "."%char :: drop (n - k) digits
               else exponent_text (Z.abs m) (Z.of_nat (n - k))
          else if (k - n <? 6)%nat
               then "0"%char :: "."%char :: repeat "0"%char (k - n) ++ digits
               else exponent_text (Z.abs m) (Z.of_nat n - Z.of_nat k)).
Proof. reflexivity. Qed.

Lemma repeat_zero_digits z : Forall (fun c => is_digit c = true) (repeat "0"%char z).
Proof. induction z; constructor; auto. Qed.

(** The text of a positive decimal, read back. *)
Lemma parse_unsigned_decimal negative p k rest :
  value_end rest = true ->
  let digits := number_text (Zpos p) in
  let n := length digits in
  let kk := Pos.to_nat k in
  let body :=
    if (kk <? n)%nat
    then if (n - kk <=? 21)%nat
         then take (n - kk) digits ++ "."%char :: drop (n - kk) digits
         else exponent_text (Zpos p) (Z.of_nat (n - kk))
    else if (kk - n <? 6)%nat
         then "0"%char :: "."%char :: repeat "0"%char (kk - n) ++ digits
         else exponent_text (Zpos p) (Z.of_nat n - Z.of_nat kk) in
  (exists c t, body = c :: t /\ is_digit c = true)
  /\ parse_unsigned negative (body ++ rest)
     = Some (number (if negative then Zneg p else Zpos p) (Z.neg k), rest).
Proof.
  intros Hr digits n kk body. subst body digits n. cbn [number_text].
  destruct (digits_of_pos p) as (c & ds & E & Hc & H0 & Hds & Hd).
  assert (Hk : Z.of_nat kk = Zpos k) by (subst kk; lia).
  assert (Hkpos : (0 < kk)%nat) by (subst kk; lia).
  assert (Hex : forall e,
             e - Z.of_nat (length (uint_text (Pos.to_uint p))) = Z.neg k ->
             (exists c t, exponent_text (Zpos p) e = c :: t /\ is_digit c = true)
             /\ parse_unsigned negative (exponent_text (Zpos p) e ++ rest)
                = Some (number (if negative then Zneg p else Zpos p) (Z.neg k), rest)).
  { intros e He. split; [apply exponent_text_start|].
    rewrite parse_unsigned_exponent by exact Hr. now rewrite He. }
  destruct (kk <? length (uint_text (Pos.to_uint p)))%nat eqn:Hlt.
  - apply Nat.ltb_lt in Hlt.
    destruct (length (uint_text (Pos.to_uint p)) - kk <=? 21)%nat; [|apply Hex; lia].
    rewrite E in *. cbn [length] in *.
    destruct (S (length ds) - kk)%nat as [|j] eqn:Ej; [lia|].
    cbn [take drop]. split; [eauto|].
    assert (Hfd : Forall (fun c => is_digit c = true) (drop j ds))
      by now apply Forall_drop.
    assert (Hlen : length (drop j ds) = kk) by (rewrite length_drop; lia).
    destruct (drop j ds) as [|f fds] eqn:Ed; [cbn in Hlen; lia|].
    rewrite <- app_assoc.
    change (("."%char :: f :: fds) ++ rest) with (fraction_text (f :: fds) ++ rest).
    change ((c :: take j ds) ++ ?t) with ((c :: take j ds) ++ t).
    rewrite (parse_unsigned_digits negative c (take j ds) (f :: fds) rest 0 rest Hc H0);
      [|now apply Forall_take|exact Hfd|now apply value_end_after_digits
       |now apply parse_exp_none].
    cbv zeta. rewrite <- Ed. cbn [app]. rewrite take_drop, Hd.
    rewrite Ed, Hlen, Hk. cbn [Z.of_N Z.sub Z.opp Z.add].
    destruct negative; reflexivity.
  - apply Nat.ltb_ge in Hlt.
    destruct (kk - length (uint_text (Pos.to_uint p)) <? 6)%nat; [|apply Hex; lia].
    split; [eexists _, _; split; reflexivity|].
    set (z := (kk - length (uint_text (Pos.to_uint p)))%nat) in *.
    assert (Hne : exists f fds, repeat "0"%char z ++ uint_text (Pos.to_uint p) = f :: fds).
    { rewrite E. destruct z; cbn; eauto. }
    destruct Hne as (f & fds & Ef).
    change ("0"%char :: "."%char :: ?t) with ("0"%char :: ("."%char :: t)).
    cbn [app]. rewrite app_comm_cons, Ef. cbn [app].
    change ("."%char :: f :: fds ++ rest) with (fraction_text (f :: fds) ++ rest).
    rewrite (parse_unsigned_zero negative (f :: fds) rest 0 rest);
      [|rewrite <- Ef; apply Forall_app; split;
        [apply repeat_zero_digits|rewrite E; now constructor]
       |now apply value_end_after_digits|now apply parse_exp_none].
    cbv zeta. rewrite <- Ef, digits_value_zeros, length_app, repeat_length, E, Hd.
    rewrite E in Hlt. subst z. rewrite E.
    replace (0 - Z.of_nat (kk - length (c :: ds) + length (c :: ds))) with (Z.neg k) by lia.
    destruct negative; reflexivity.
Qed.

Lemma parse_number_decimal m k rest :
  valid (JDec m k) = true -> value_end rest = true ->
  parse_number (decimal_text m k ++ rest) = Some (JDec m k, rest).
Proof.
  intros Hv Hr. apply valid_JDec in Hv as [Hv Hm]. rewrite <- Hv.
  rewrite decimal_text_body.
  destruct (Z.abs m) as [|p|p] eqn:Ea; try lia.
  destruct (parse_unsigned_decimal true p k rest Hr) as [Hs Ht].
  destruct (parse_unsigned_decimal false p k rest Hr) as [_ Hf].
  cbv zeta in *.
  apply (parse_number_signed m p _ (Z.neg k) rest Ea Hs).
  intros [|]; assumption.
Qed.

Lemma integer_text_start n :
  exists c t, integer_text n = c :: t /\ is_digit c || Ascii.eqb c "-"%char = true.
Proof.
  unfold integer_text.
  destruct (length (number_text (Z.abs n)) <=? 21)%nat eqn:Hlen.
  - destruct n as [|p|p]; cbn [number_text];
      try (eexists _, _; split; reflexivity).
    destruct (digits_of_pos p) as (c & ds & E & Hc & _).
    rewrite E. exists c, ds. split; [reflexivity|]. now rewrite Hc.
  - destruct (Z.eq_dec n 0) as [->|Hn0]; [discriminate Hlen|].
    pose proof (strip_zeros_value (length (number_text (Z.abs n))) (Z.abs n)
                  ltac:(lia)) as Hs.
    destruct (strip_zeros (length (number_text (Z.abs n))) (Z.abs n)) as [s k'].
    destruct Hs as (Hs & _). destruct s as [|q|q]; try lia.
    destruct (n <? 0); [eexists _, _; split; reflexivity|].
    destruct (exponent_text_start q
                (Z.of_nat (length (number_text (Zpos q)))
                 + Z.of_nat (length (number_text (Z.abs n)) - k')))
      as (c & ds & -> & Hc).
    exists c, ds. split; [reflexivity|]. now rewrite Hc.
Qed.

Lemma decimal_text_start m k :
  exists c t, decimal_text m k = c :: t /\ is_digit c || Ascii.eqb c "-"%char = true.
Proof.
  rewrite decimal_text_body.
  destruct (m <? 0) eqn:Hneg; [eexists _, _; split; reflexivity|].
  cbn [app].
  destruct (Z.abs m) as [|p|p] eqn:Ea; try lia.
  - assert (m = 0) by lia. subst m. cbv zeta.
    change (length (number_text 0)) with 1%nat.
    destruct (Pos.to_nat k <? 1)%nat eqn:H1; [apply Nat.ltb_lt in H1; lia|].
    destruct (Pos.to_nat k - 1 <? 6)%nat; eexists _, _; split; reflexivity.
  - destruct (parse_unsigned_decimal false p k [] eq_refl) as [(c & t & E & Hc) _].
    cbv zeta in E. exists c, t. split; [exact E|]. now rewrite Hc.
Qed.

(** Strings. *)

Lemma parse_chars_quote_char c rest :
  parse_chars (quote_char c ++ rest) = push c (parse_chars rest).
Proof. ascii_cases c; reflexivity. Qed.

Lemma parse_chars_quoted cs rest :
  parse_chars (concat (map quote_char cs) ++ DQUOTE :: rest) = Some (cs, rest).
Proof.
  induction cs as [|c cs IH]; [reflexivity|].
  cbn [map concat]. rewrite <- app_assoc, parse_chars_quote_char, IH.
  reflexivity.
Qed.

Lemma parse_string_quote s rest :
  parse_string (quote s ++ rest) = Some (s, rest).
Proof.
  unfold quote, quote_text. cbn [app]. rewrite <- app_assoc. cbn [app].
  unfold parse_string. cbn [Ascii.eqb DQUOTE]. cbn -[parse_chars].
  rewrite parse_chars_quoted. cbn.
  now rewrite string_of_list_ascii_of_string.
Qed.

(** White space. *)

Lemma skip_ws_newline gap ind s : skip_ws (newline gap ind ++ s) = skip_ws s.
Proof.
  destruct gap; [reflexivity|]. cbn [newline app skip_ws].
  change (is_ws LF) with true. cbn iota.
  induction ind; [reflexivity|]. cbn [repeat app skip_ws].
  change (is_ws SPACE) with true. exact IHind.
Qed.

Lemma skip_ws_colon gap s :
  skip_ws (colon gap ++ s) = ":"%char :: (match gap with O => s | S _ => SPACE :: s end).
Proof. destruct gap; reflexivity. Qed.

Lemma value_start_number c :
  is_digit c || Ascii.eqb c "-"%char = true -> value_start c = true.
Proof. ascii_cases c; cbn; intros H; try discriminate H; reflexivity. Qed.

Lemma serialize_start gap ind v :
  exists c t, serialize gap ind v = c :: t /\ value_start c = true.
Proof.
  destruct v as [|[|]|n|m k|negative|s|[|x xs]|[|kv kvs]];
    cbn - [join newline integer_text decimal_text];
    try (eexists _, _; split; [reflexivity|reflexivity]).
  - destruct (integer_text_start n) as (c & t & E & H).
    exists c, t. split; [exact E|now apply value_start_number].
  - destruct (decimal_text_start m k) as (c & t & E & H).
    exists c, t. split; [exact E|now apply value_start_number].
Qed.

Lemma skip_ws_start c s : value_start c = true -> skip_ws (c :: s) = c :: s.
Proof.
  unfold value_start. cbn [skip_ws]. destruct (is_ws c); [discriminate|reflexivity].
Qed.

(** Objects: defining the properties of an ordered key list one after
    the other rebuilds the list. *)

Lemma obj_get_fresh (o : Obj) k :
  Forall (fun k0 => key_before k0 k = true) (map fst o) -> obj_get o k = None.
Proof.
  induction o as [|[k0 v0] o IH]; [reflexivity|].
  cbn [map fst obj_get]. intros H. inversion H as [|? ? Hk Ho]; subst.
  unfold key_before in Hk. destruct (String.eqb k0 k); [discriminate|].
  now apply IH.
Qed.

Lemma obj_insert_index_last (o : Obj) n k v :
  array_index k = Some n ->
  Forall (fun k0 => key_before k0 k = true) (map fst o) ->
  obj_insert_index o n k v = o ++ [(k, v)].
Proof.
  intros Hn. induction o as [|[k0 v0] o IH]; [reflexivity|].
  cbn [map fst obj_insert_index app]. intros H.
  inversion H as [|? ? Hk Ho]; subst.
  unfold key_before in Hk. rewrite Hn in Hk.
  destruct (array_index k0) as [n0|].
  - apply andb_true_iff in Hk as [_ Hk]. rewrite Hk. now rewrite IH.
  - now rewrite andb_false_r in Hk.
Qed.

Lemma obj_set_last (o : Obj) k v :
  Forall (fun k0 => key_before k0 k = true) (map fst o) ->
  obj_set o k v = o ++ [(k, v)].
Proof.
  intros H. unfold obj_set. rewrite (obj_get_fresh o k H).
  destruct (array_index k) as [n|] eqn:E; [|reflexivity].
  now apply obj_insert_index_last.
Qed.

Lemma keys_ordered_before l1 k l2 :
  keys_ordered (l1 ++ k :: l2) = true ->
  Forall (fun k0 => key_before k0 k = true) l1.
Proof.
  induction l1 as [|a l1 IH]; [constructor|].
  cbn [app keys_ordered]. intros H. apply andb_true_iff in H as [Ha Hl].
  rewrite forallb_app in Ha. apply andb_true_iff in Ha as [_ Ha].
  cbn [forallb] in Ha. apply andb_true_iff in Ha as [Ha _].
  constructor; [exact Ha|now apply IH].
Qed.

Lemma fold_obj_set_ordered (kvs acc : Obj) :
  keys_ordered (map fst (acc ++ kvs)) = true ->
  fold_left (fun o kv => obj_set o (fst kv) (snd kv)) kvs acc = acc ++ kvs.
Proof.
  revert acc. induction kvs as [|[k v] kvs IH]; intros acc H.
  - now rewrite app_nil_r.
  - cbn [fold_left fst snd]. rewrite obj_set_last.
    + rewrite IH; rewrite <- app_assoc; [reflexivity|exact H].
    + rewrite map_app in H. cbn [map fst] in H.
      now apply keys_ordered_before in H.
Qed.

Lemma obj_of_members_ordered (kvs : Obj) :
  keys_ordered (map fst kvs) = true -> obj_of_members kvs = kvs.
Proof. intros H. unfold obj_of_members. now rewrite fold_obj_set_ordered. Qed.

(** Unfolding equations of the parser. *)

Lemma parse_value_ws fuel c s :
  is_ws c = true -> parse_value fuel (c :: s) = parse_value fuel s.
Proof. intros H. destruct fuel; [reflexivity|]. cbn [parse_value skip_ws]. now rewrite H. Qed.

Lemma parse_value_newline fuel gap ind s :
  parse_value fuel (newline gap ind ++ s) = parse_value fuel s.
Proof.
  destruct fuel; [reflexivity|]. cbn [parse_value]. now rewrite skip_ws_newline.
Qed.

Lemma parse_elements_newline fuel gap ind s :
  parse_elements fuel (newline gap ind ++ s) = parse_elements fuel s.
Proof.
  destruct fuel; [reflexivity|]. cbn [parse_elements].
  now rewrite parse_value_newline.
Qed.

Lemma parse_members_newline fuel gap ind s :
  parse_members fuel (newline gap ind ++ s) = parse_members fuel s.
Proof.
  destruct fuel; [reflexivity|]. cbn [parse_members]. now rewrite skip_ws_newline.
Qed.

Lemma parse_value_string fuel r :
  parse_value (S fuel) (DQUOTE :: r)
  = '(str, r') ← parse_string (DQUOTE :: r); Some (JStr str, r').
Proof. reflexivity. Qed.

Lemma parse_value_number fuel c r :
  is_digit c || Ascii.eqb c "-"%char = true ->
  parse_value (S fuel) (c :: r) = parse_number (c :: r).
Proof. ascii_cases c; cbn; intros H; try discriminate H; reflexivity. Qed.

Lemma parse_value_array fuel r :
  parse_value (S fuel) ("["%char :: r)
  = match skip_ws r with
    | c' :: r' =>
        if Ascii.eqb c' "]"%char then Some (JArr [], r')
        else '(xs, r'') ← parse_elements fuel r; Some (JArr xs, r'')
    | [] => None
    end.
Proof. reflexivity. Qed.

Lemma parse_value_object fuel r :
  parse_value (S fuel) ("{"%char :: r)
  = match skip_ws r with
    | c' :: r' =>
        if Ascii.eqb c' "}"%char then Some (JObj [], r')
        else '(kvs, r'') ← parse_members fuel r;
             Some (JObj (obj_of_members kvs), r'')
    | [] => None
    end.
Proof. reflexivity. Qed.

Lemma value_end_newline_close gap ind c rest :
  Ascii.eqb c "]"%char || Ascii.eqb c "}"%char = true ->
  value_end (newline gap ind ++ c :: rest) = true.
Proof.
  intros H. destruct gap; [|reflexivity]. cbn [newline app value_end].
  apply orb_true_iff in H as [H|H]; rewrite H; now rewrite ?orb_true_r.
Qed.

Lemma parse_elements_last fuel s v r r' :
  parse_value fuel s = Some (v, r) -> skip_ws r = "]"%char :: r' ->
  parse_elements (S fuel) s = Some ([v], r').
Proof. intros Hv Hr. cbn [parse_elements]. rewrite Hv. cbn. now rewrite Hr. Qed.

Lemma parse_elements_more fuel s v r r' vs r'' :
  parse_value fuel s = Some (v, r) -> skip_ws r = ","%char :: r' ->
  parse_elements fuel r' = Some (vs, r'') ->
  parse_elements (S fuel) s = Some (v :: vs, r'').
Proof.
  intros Hv Hr Hvs. cbn [parse_elements]. rewrite Hv. cbn. rewrite Hr. cbn.
  now rewrite Hvs.
Qed.

Lemma parse_members_last fuel s k r r1 v r2 r3 :
  parse_string (skip_ws s) = Some (k, r) -> skip_ws r = ":"%char :: r1 ->
  parse_value fuel r1 = Some (v, r2) -> skip_ws r2 = "}"%char :: r3 ->
  parse_members (S fuel) s = Some ([(k, v)], r3).
Proof.
  intros Hk Hr Hv Hr2. cbn [parse_members]. rewrite Hk. cbn. rewrite Hr. cbn.
  rewrite Hv. cbn. now rewrite Hr2.
Qed.

Lemma parse_members_more fuel s k r r1 v r2 r3 kvs r4 :
  parse_string (skip_ws s) = Some (k, r) -> skip_ws r = ":"%char :: r1 ->
  parse_value fuel r1 = Some (v, r2) -> skip_ws r2 = ","%char :: r3 ->
  parse_members fuel r3 = Some (kvs, r4) ->
  parse_members (S fuel) s = Some ((k, v) :: kvs, r4).
Proof.
  intros Hk Hr Hv Hr2 Hkvs. cbn [parse_members]. rewrite Hk. cbn. rewrite Hr. cbn.
  rewrite Hv. cbn. rewrite Hr2. cbn. now rewrite Hkvs.
Qed.

Lemma join_more sep p q qs : join sep (p :: q :: qs) = p ++ sep ++ join sep (q :: qs).
Proof. reflexivity. Qed.

Lemma skip_ws_quote k t : skip_ws (quote k ++ t) = quote k ++ t.
Proof. reflexivity. Qed.

(** ** The round trip of JSON.parse after JSON.stringify *)

Lemma parse_elements_serialized gap ind sb xs :
  xs <> [] -> Forall parses xs ->
  forall fuel rest,
    (sum_list_with (fun x => S (size x)) xs <= fuel)%nat ->
    parse_elements fuel
      (join (","%char :: newline gap ind) (map (serialize gap ind) xs)
         ++ newline gap sb ++ "]"%char :: rest)
    = Some (xs, rest).
Proof.
  induction xs as [|x xs IH]; [congruence|].
  intros _ HF fuel rest Hfuel. inversion HF as [|? ? Hx Hxs]; subst.
  cbn [sum_list_with] in Hfuel. destruct fuel as [|fuel]; [lia|].
  destruct xs as [|x' xs].
  - cbn [map join]. eapply parse_elements_last.
    + apply Hx; [now apply value_end_newline_close|cbn in Hfuel; lia].
    + now rewrite skip_ws_newline.
  - cbn [map]. rewrite join_more, <- !app_assoc.
    eapply parse_elements_more.
    + apply Hx; [reflexivity|lia].
    + reflexivity.
    + rewrite parse_elements_newline.
      apply (IH ltac:(congruence) Hxs). lia.
Qed.

Lemma parse_members_serialized gap ind sb (kvs : Obj) :
  kvs <> [] -> Forall (fun kv => parses (snd kv)) kvs ->
  forall fuel rest,
    (sum_list_with (fun kv => S (size (snd kv))) kvs <= fuel)%nat ->
    parse_members fuel
      (join (","%char :: newline gap ind)
         (map (fun kv => quote (fst kv) ++ colon gap
                           ++ serialize gap ind (snd kv)) kvs)
         ++ newline gap sb ++ "}"%char :: rest)
    = Some (kvs, rest).
Proof.
  induction kvs as [|[k v] kvs IH]; [congruence|].
  intros _ HF fuel rest Hfuel. inversion HF as [|? ? Hv Hkvs]; subst.
  cbn [snd] in Hv.
  cbn [sum_list_with snd] in Hfuel. destruct fuel as [|fuel]; [lia|].
  assert (Hval : forall tail, value_end tail = true ->
            parse_value fuel (match gap with
                              | O => serialize gap ind v ++ tail
                              | S _ => SPACE :: serialize gap ind v ++ tail
                              end)
            = Some (v, tail)).
  { intros tail Ht. destruct gap; [|rewrite parse_value_ws by reflexivity];
      apply Hv; (assumption || lia). }
  destruct kvs as [|kv' kvs].
  - cbn [map join fst snd]. rewrite <- !app_assoc.
    eapply parse_members_last.
    + rewrite skip_ws_quote. apply parse_string_quote.
    + apply skip_ws_colon.
    + apply Hval. now apply value_end_newline_close.
    + now rewrite skip_ws_newline.
  - cbn [map]. rewrite join_more. cbn [fst snd]. rewrite <- !app_assoc.
    eapply parse_members_more.
    + rewrite skip_ws_quote. apply parse_string_quote.
    + apply skip_ws_colon.
    + apply Hval. reflexivity.
    + reflexivity.
    + rewrite parse_members_newline.
      apply (IH ltac:(congruence) Hkvs). lia.
Qed.

Lemma sum_list_with_S_pos {A} (f : A -> nat) (l : list A) :
  l <> [] -> (0 < sum_list_with (fun x => S (f x)) l)%nat.
Proof. destruct l; [congruence|cbn; lia]. Qed.

Lemma parse_value_serialize v : valid v = true -> parses v.
Proof.
  induction v as [|b|n|m k|negative|s|xs IH|kvs IH] using JSON_deep_ind;
    intros Hvalid gap ind fuel rest Hrest Hfuel;
    (destruct fuel as [|fuel]; [cbn in Hfuel; lia|]).
  - reflexivity.
  - destruct b; reflexivity.
  - cbn [serialize].
    destruct (integer_text_start n) as (c & t & Hc & Hd).
    pose proof (parse_number_integer n rest Hvalid Hrest) as Hn.
    rewrite Hc in *. cbn [app] in *.
    rewrite (parse_value_number _ _ _ Hd), Hn. reflexivity.
  - cbn [serialize].
    destruct (decimal_text_start m k) as (c & t & Hc & Hd).
    pose proof (parse_number_decimal m k rest Hvalid Hrest) as Hn.
    rewrite Hc in *. cbn [app] in *.
    rewrite (parse_value_number _ _ _ Hd), Hn. reflexivity.
  - discriminate Hvalid.
  - cbn [serialize]. unfold quote at 1, quote_text at 1. cbn [app].
    rewrite parse_value_string.
    change (DQUOTE :: (concat (map quote_char (list_ascii_of_string s)) ++ [DQUOTE]) ++ rest)
      with (quote s ++ rest).
    rewrite parse_string_quote. reflexivity.
  - destruct xs as [|x xs]; [reflexivity|].
    cbn [valid] in Hvalid. cbn [size] in Hfuel.
    assert (HF : Forall parses (x :: xs)).
    { apply Forall_forall. intros y Hy.
      rewrite Forall_forall in IH. apply IH; [exact Hy|].
      rewrite forallb_forall in Hvalid. apply Hvalid.
      now apply list_elem_of_In. }
    cbn [serialize]. cbn [app]. rewrite parse_value_array.
    rewrite <- !app_assoc, skip_ws_newline.
    destruct (serialize_start gap (ind + gap) x) as (c & t & Hc & Hs).
    set (elems := map (serialize gap (ind + gap)) (x :: xs)).
    assert (Hhead : exists t', join (","%char :: newline gap (ind + gap)) elems
                               ++ newline gap ind ++ ["]"%char] ++ rest = c :: t').
    { subst elems. destruct xs; cbn [map]; [cbn [join]|rewrite join_more];
        rewrite Hc; cbn [app]; eauto. }
    destruct Hhead as [t' Ht']. rewrite Ht', (skip_ws_start _ _ Hs).
    unfold value_start in Hs.
    destruct (Ascii.eqb c "]"%char); [now rewrite andb_false_r in Hs|].
    rewrite <- Ht', parse_elements_newline.
    subst elems. cbn [app].
    rewrite (parse_elements_serialized gap (ind + gap) ind (x :: xs));
      [reflexivity|congruence|exact HF|lia].
  - destruct kvs as [|kv kvs]; [reflexivity|].
    cbn [valid] in Hvalid. apply andb_true_iff in Hvalid as [Hkeys Hvalid].
    cbn [size] in Hfuel.
    assert (HF : Forall (fun kv => parses (snd kv)) (kv :: kvs)).
    { apply Forall_forall. intros y Hy.
      rewrite Forall_forall in IH. apply IH; [exact Hy|].
      rewrite forallb_forall in Hvalid. apply Hvalid.
      now apply list_elem_of_In. }
    cbn [serialize]. cbn [app]. rewrite parse_value_object.
    rewrite <- !app_assoc, skip_ws_newline.
    set (f := fun kv : string * JSON =>
                quote (fst kv) ++ colon gap ++ serialize gap (ind + gap) (snd kv)).
    assert (Hhead : exists t', join (","%char :: newline gap (ind + gap)) (map f (kv :: kvs))
                               ++ newline gap ind ++ ["}"%char] ++ rest = DQUOTE :: t').
    { destruct kvs; cbn [map]; [cbn [join]|rewrite join_more];
        unfold f at 1, quote at 1, quote_text at 1; cbn [app]; eauto. }
    destruct Hhead as [t' Ht']. rewrite Ht'. cbn [skip_ws].
    change (is_ws DQUOTE) with false. cbn iota.
    change (Ascii.eqb DQUOTE "}"%char) with false. cbn iota.
    rewrite <- Ht', parse_members_newline. cbn [app].
    rewrite (parse_members_serialized gap (ind + gap) ind (kv :: kvs));
      [|congruence|exact HF|lia].
    cbn -[obj_of_members]. now rewrite obj_of_members_ordered.
Qed.

Lemma join_length_sizes (f : JSON -> text) c sep xs :
  Forall (fun x => (size x <= length (f x))%nat) xs ->
  (sum_list_with (fun x => S (size x)) xs
   <= length (join (c :: sep) (map f xs)) + 1)%nat.
Proof.
  induction xs as [|x xs IH]; intros HF; [cbn; lia|].
  inversion HF as [|? ? Hx Hxs]; subst. specialize (IH Hxs).
  destruct xs as [|x' xs].
  - cbn. lia.
  - cbn [map]. rewrite join_more. cbn [sum_list_with] in *.
    cbn [map] in IH. rewrite !length_app. cbn [length]. lia.
Qed.

Lemma size_le_length gap ind v : (size v <= length (serialize gap ind v))%nat.
Proof.
  revert ind.
  induction v as [|b|n|m k|negative|s|xs IH|kvs IH] using JSON_deep_ind; intros ind.
  - cbn. lia.
  - destruct b; cbn; lia.
  - cbn [serialize size].
    destruct (integer_text_start n) as (c & t & -> & _). cbn. lia.
  - cbn [serialize size].
    destruct (decimal_text_start m k) as (c & t & -> & _). cbn. lia.
  - cbn. lia.
  - cbn [serialize size]. unfold quote, quote_text. cbn. lia.
  - destruct xs as [|x xs]; [cbn; lia|].
    cbn [serialize size]. cbn [length]. rewrite !length_app.
    pose proof (join_length_sizes (serialize gap (ind + gap)) ","%char
                  (newline gap (ind + gap)) (x :: xs)) as H.
    cbn [length].
    enough (sum_list_with (fun x0 => S (size x0)) (x :: xs)
            <= length (join (","%char :: newline gap (ind + gap))
                         (map (serialize gap (ind + gap)) (x :: xs))) + 1)%nat by lia.
    apply H. eapply Forall_impl; [exact IH|]. intros y Hy. apply Hy.
  - destruct kvs as [|kv kvs]; [cbn; lia|].
    cbn [serialize size]. cbn [length]. rewrite !length_app. cbn [length].
    enough (forall l : Obj,
               Forall (fun kv => forall ind, (size (snd kv) <= length (serialize gap ind (snd kv)))%nat) l ->
               sum_list_with (fun kv => S (size (snd kv))) l
               <= length (join (","%char :: newline gap (ind + gap))
                            (map (fun kv => quote (fst kv) ++ colon gap
                                              ++ serialize gap (ind + gap) (snd kv)) l)) + 1)%nat
      as H by (specialize (H _ IH); lia).
    clear. induction l as [|[k v] l IHl]; intros HF; [cbn; lia|].
    inversion HF as [|? ? Hx Hxs]; subst. specialize (IHl Hxs).
    cbn [snd] in Hx. specialize (Hx (ind + gap)%nat).
    destruct l as [|kv' l].
    + cbn [map join sum_list_with fst snd]. rewrite !length_app. lia.
    + cbn [map]. rewrite join_more. cbn [sum_list_with fst snd] in *.
      cbn [map] in IHl. rewrite !length_app. cbn [length]. lia.
Qed.

(** JSON.parse reads back what JSON.stringify wrote, with or without
    indentation. *)
Lemma JSON_parse_stringify_space space v :
  valid v = true -> JSON_parse (JSON_stringify_space space v) = Some v.
Proof.
  intros Hv. unfold JSON_parse, JSON_stringify_space, parse_text.
  rewrite list_ascii_of_string_of_list_ascii.
  set (t := serialize (Nat.min 10 space) 0 v).
  pose proof (size_le_length (Nat.min 10 space) 0 v) as Hs. fold t in Hs.
  pose proof (parse_value_serialize v Hv (Nat.min 10 space) 0%nat
                (2 * length t + 2)%nat [] eq_refl) as H.
  fold t in H. rewrite app_nil_r in H. rewrite H by lia. reflexivity.
Qed.

Lemma JSON_parse_stringify v :
  valid v = true -> JSON_parse (JSON_stringify v) = Some v.
Proof. apply JSON_parse_stringify_space. Qed.

(** JSON.stringify never returns the empty string. *)
Lemma JSON_stringify_nonempty v : JSON_stringify v <> ""%string.
Proof.
  unfold JSON_stringify, JSON_stringify_space.
  destruct (serialize_start (Nat.min 10 0) 0 v) as (c & t & -> & _).
  discriminate.
Qed.

(** ** The parser does not depend on its fuel *)

Lemma skip_ws_length s : (length (skip_ws s) <= length s)%nat.
Proof.
  induction s as [|c s IH]; [reflexivity|]. cbn [skip_ws].
  destruct (is_ws c); cbn [length]; lia.
Qed.

Lemma skip_ws_cons_length s c t :
  skip_ws s = c :: t -> (length t < length s)%nat.
Proof.
  intros H. pose proof (skip_ws_length s) as L. rewrite H in L. cbn in L. lia.
Qed.

Lemma strip_prefix_length p s r :
  strip_prefix p s = Some r -> (length r <= length s)%nat.
Proof.
  revert s. induction p as [|a p IH]; intros [|b s] H; cbn in H;
    try discriminate; try (injection H as <-; cbn; lia).
  destruct (Ascii.eqb a b); [|discriminate]. apply IH in H. cbn. lia.
Qed.

Lemma push_length c o cs r :
  push c o = Some (cs, r) -> exists cs', o = Some (cs', r).
Proof.
  destruct o as [[cs' r']|]; cbn; [|discriminate]. intros [= <- <-]. eauto.
Qed.

Lemma push_all_length pre o cs r :
  push_all pre o = Some (cs, r) -> exists cs', o = Some (cs', r).
Proof.
  destruct o as [[cs' r']|]; cbn; [|discriminate]. intros [= <- <-]. eauto.
Qed.

Lemma parse_chars_length_aux n :
  forall s cs r, (length s <= n)%nat ->
    parse_chars s = Some (cs, r) -> (length r < length s)%nat.
Proof.
  induction n as [|n IH]; intros s cs r Hn H;
    (destruct s as [|c s1]; [discriminate|]); [cbn in Hn; lia|].
  cbn [parse_chars] in H.
  destruct (Ascii.eqb c DQUOTE); [injection H as _ <-; cbn; lia|].
  cbn [length] in Hn.
  assert (Hrec : forall t cs0, (length t <= length s1)%nat ->
                               parse_chars t = Some (cs0, r) ->
                               (length r < length (c :: s1))%nat).
  { intros t cs0 Ht H0. apply IH in H0; [cbn; lia|lia]. }
  destruct (Ascii.eqb c BACKSLASH).
  - destruct s1 as [|e s2]; [discriminate|].
    destruct (N_of_ascii e) as [|p] eqn:E; [discriminate|].
    repeat (destruct p as [p|p|]; try discriminate H);
      try (apply push_length in H as [cs0 H];
           apply (Hrec s2 cs0); [cbn; lia|exact H]).
    destruct s2 as [|h1 [|h2 [|h3 [|h4 s3]]]]; try discriminate H.
    destruct (hex4 h1 h2 h3 h4) as [u|]; cbn [mbind option_bind] in H;
      [|discriminate].
    destruct (is_high_surrogate u).
    + destruct s3 as [|b' [|u' [|l1 [|l2 [|l3 [|l4 s4]]]]]]; try discriminate H.
      destruct (Ascii.eqb b' BACKSLASH && Ascii.eqb u' "u"%char); [|discriminate].
      destruct (hex4 l1 l2 l3 l4) as [lo|]; cbn [mbind option_bind] in H;
        [|discriminate].
      destruct (is_low_surrogate lo); [|discriminate].
      apply push_all_length in H as [cs0 H].
      apply (Hrec s4 cs0); [cbn; lia|exact H].
    + destruct (is_low_surrogate u); [discriminate|].
      apply push_all_length in H as [cs0 H].
      apply (Hrec s3 cs0); [cbn; lia|exact H].
  - destruct (N_of_ascii c <? 32)%N; [discriminate|].
    apply push_length in H as [cs0 H].
    apply (Hrec s1 cs0); [lia|exact H].
Qed.

Lemma parse_chars_length s cs r :
  parse_chars s = Some (cs, r) -> (length r < length s)%nat.
Proof. now apply (parse_chars_length_aux (length s)). Qed.

Lemma parse_string_length s k r :
  parse_string s = Some (k, r) -> (length r < length s)%nat.
Proof.
  destruct s as [|c s]; [discriminate|]. cbn [parse_string].
  destruct (Ascii.eqb c DQUOTE); [|discriminate].
  destruct (parse_chars s) as [[cs r']|] eqn:E; cbn; [|discriminate].
  intros [= _ <-]. apply parse_chars_length in E. cbn. lia.
Qed.

Lemma read_digits_length s u r :
  read_digits s = (u, r) -> (length r <= length s)%nat.
Proof.
  revert u r. induction s as [|c s IH]; intros u r H; cbn in H.
  - injection H as _ <-. reflexivity.
  - destruct (digit_cons c).
    + destruct (read_digits s) as [u' r'] eqn:E. injection H as _ <-.
      specialize (IH _ _ eq_refl). cbn. lia.
    + injection H as _ <-. reflexivity.
Qed.

Lemma parse_int_length s n r :
  parse_int s = Some (n, r) -> (length r < length s)%nat.
Proof.
  destruct s as [|c s]; [discriminate|]. unfold parse_int.
  destruct (Ascii.eqb c "0"%char); [intros [= _ <-]; cbn; lia|].
  destruct (is_digit c) eqn:D; [|discriminate].
  destruct (read_digits (c :: s)) as [u r'] eqn:E. intros [= _ <-].
  cbn [read_digits] in E.
  assert (exists d, digit_cons c = Some d) as [d Hd].
  { revert D. clear. ascii_cases c; cbn; intros D; try discriminate D; eauto. }
  rewrite Hd in E. destruct (read_digits s) as [u' r''] eqn:E'.
  injection E as _ <-. apply read_digits_length in E'. cbn. lia.
Qed.

Lemma parse_frac_length s f r :
  parse_frac s = Some (f, r) -> (length r <= length s)%nat.
Proof.
  destruct s as [|c s]; [intros [= _ <-]; reflexivity|]. unfold parse_frac.
  destruct (Ascii.eqb c "."%char); [|intros [= _ <-]; reflexivity].
  destruct (read_digits s) as [u r'] eqn:E. apply read_digits_length in E.
  destruct u; try discriminate; intros [= _ <-]; cbn; lia.
Qed.

Lemma parse_exp_digits_length s x r :
  parse_exp_digits s = Some (x, r) -> (length r <= length s)%nat.
Proof.
  unfold parse_exp_digits.
  destruct (read_digits s) as [u r'] eqn:E. apply read_digits_length in E.
  destruct u; try discriminate; intros [= _ <-]; exact E.
Qed.

Lemma parse_exp_length s x r :
  parse_exp s = Some (x, r) -> (length r <= length s)%nat.
Proof.
  destruct s as [|c s]; [intros [= _ <-]; reflexivity|]. unfold parse_exp.
  destruct (Ascii.eqb c "e"%char || Ascii.eqb c "E"%char);
    [|intros [= _ <-]; reflexivity].
  destruct s as [|sign s']; [discriminate|].
  destruct (Ascii.eqb sign "+"%char).
  { intros H. apply parse_exp_digits_length in H. cbn. lia. }
  destruct (Ascii.eqb sign "-"%char).
  { destruct (parse_exp_digits s') as [[x' r']|] eqn:E; cbn; [|discriminate].
    intros [= _ <-]. apply parse_exp_digits_length in E. cbn. lia. }
  intros H. apply parse_exp_digits_length in H. cbn in *. lia.
Qed.

Lemma parse_unsigned_length negative s v r :
  parse_unsigned negative s = Some (v, r) -> (length r < length s)%nat.
Proof.
  unfold parse_unsigned.
  destruct (parse_int s) as [[i r1]|] eqn:Ei; cbn; [|discriminate].
  destruct (parse_frac r1) as [[f r2]|] eqn:Ef; cbn; [|discriminate].
  destruct (parse_exp r2) as [[x r3]|] eqn:Ex; cbn; [|discriminate].
  intros [= _ <-].
  apply parse_int_length in Ei. apply parse_frac_length in Ef.
  apply parse_exp_length in Ex. lia.
Qed.

Lemma parse_number_length s v r :
  parse_number s = Some (v, r) -> (length r < length s)%nat.
Proof.
  destruct s as [|c s']; [discriminate|]. unfold parse_number.
  destruct (Ascii.eqb c "-"%char); intros H;
    apply parse_unsigned_length in H; cbn [length] in *; lia.
Qed.

Lemma bind_Some {A B} (o : option A) (k : A -> option B) b :
  o ≫= k = Some b -> exists a, o = Some a /\ k a = Some b.
Proof. destruct o; cbn; [eauto|discriminate]. Qed.

Lemma parse_fuel_free fuel :
  fuel_free parse_value fuel /\ fuel_free parse_elements fuel
  /\ fuel_free parse_members fuel.
Proof.
  induction fuel as [|fuel (IHv & IHe & IHm)];
    [split; [|split]; intros s a r H; discriminate H|].
  split; [|split]; intros s a r H.
  - cbn [parse_value] in H.
    destruct (skip_ws s) as [|c t] eqn:Es; [discriminate|].
    pose proof (skip_ws_cons_length _ _ _ Es) as Ls.
    assert (Hprim : forall k : option (JSON * text),
               k = Some (a, r) -> (length r <= length t)%nat ->
               (forall g, parse_value (S g) s = k) ->
               (length r < length s)%nat
               /\ forall fuel', (2 * (length s - length r) <= fuel')%nat ->
                                parse_value fuel' s = Some (a, r)).
    { intros k Hk Lr Hg. split; [lia|]. intros [|g] Hf; [lia|].
      now rewrite Hg. }
    destruct (Ascii.eqb c "n"%char) eqn:En.
    { apply bind_Some in H as (r' & Hp & [= <- <-]).
      apply (Hprim (Some (JNull, r'))); [reflexivity|now apply strip_prefix_length in Hp|].
      intros g. cbn [parse_value]. now rewrite Es, En, Hp. }
    destruct (Ascii.eqb c "t"%char) eqn:Et.
    { apply bind_Some in H as (r' & Hp & [= <- <-]).
      apply (Hprim (Some (JBool true, r'))); [reflexivity|now apply strip_prefix_length in Hp|].
      intros g. cbn [parse_value]. now rewrite Es, En, Et, Hp. }
    destruct (Ascii.eqb c "f"%char) eqn:Ef.
    { apply bind_Some in H as (r' & Hp & [= <- <-]).
      apply (Hprim (Some (JBool false, r'))); [reflexivity|now apply strip_prefix_length in Hp|].
      intros g. cbn [parse_value]. now rewrite Es, En, Et, Ef, Hp. }
    destruct (Ascii.eqb c DQUOTE) eqn:Eq.
    { apply bind_Some in H as ([k r'] & Hp & [= <- <-]).
      apply (Hprim (Some (JStr k, r'))); [reflexivity| |].
      - apply parse_string_length in Hp. cbn in Hp. lia.
      - intros g. cbn [parse_value]. now rewrite Es, En, Et, Ef, Eq, Hp. }
    destruct (Ascii.eqb c "["%char) eqn:Ea.
    { destruct (skip_ws t) as [|c' t'] eqn:Et'; [discriminate|].
      pose proof (skip_ws_cons_length _ _ _ Et') as Lt.
      destruct (Ascii.eqb c' "]"%char) eqn:Ec.
      - injection H as <- <-.
        apply (Hprim (Some (JArr [], t'))); [reflexivity|lia|].
        intros g. cbn [parse_value]. now rewrite Es, En, Et, Ef, Eq, Ea, Et', Ec.
      - apply bind_Some in H as ([xs r'] & Hp & [= <- <-]).
        apply IHe in Hp as [Lr Hp]. split; [lia|].
        intros [|g] Hf; [lia|]. cbn [parse_value].
        rewrite Es, En, Et, Ef, Eq, Ea, Et', Ec, Hp by lia. reflexivity. }
    destruct (Ascii.eqb c "{"%char) eqn:Eo.
    { destruct (skip_ws t) as [|c' t'] eqn:Et'; [discriminate|].
      pose proof (skip_ws_cons_length _ _ _ Et') as Lt.
      destruct (Ascii.eqb c' "}"%char) eqn:Ec.
      - injection H as <- <-.
        apply (Hprim (Some (JObj [], t'))); [reflexivity|lia|].
        intros g. cbn [parse_value].
        now rewrite Es, En, Et, Ef, Eq, Ea, Eo, Et', Ec.
      - apply bind_Some in H as ([kvs r'] & Hp & [= <- <-]).
        apply IHm in Hp as [Lr Hp]. split; [lia|].
        intros [|g] Hf; [lia|]. cbn [parse_value].
        rewrite Es, En, Et, Ef, Eq, Ea, Eo, Et', Ec, Hp by lia. reflexivity. }
    apply (Hprim (parse_number (c :: t))); [exact H| |].
    + apply parse_number_length in H. cbn in H. lia.
    + intros g. cbn [parse_value]. now rewrite Es, En, Et, Ef, Eq, Ea, Eo.
  - cbn [parse_elements] in H.
    apply bind_Some in H as ([v r1] & Hv & H).
    apply IHv in Hv as [L1 Hv].
    destruct (skip_ws r1) as [|c r2] eqn:E1; [discriminate|].
    pose proof (skip_ws_cons_length _ _ _ E1) as L2.
    destruct (Ascii.eqb c ","%char) eqn:Ec.
    + apply bind_Some in H as ([vs r3] & He & [= <- <-]).
      apply IHe in He as [L3 He]. split; [lia|].
      intros [|g] Hf; [lia|]. cbn [parse_elements].
      rewrite Hv by lia. cbn. rewrite E1, Ec, He by lia. reflexivity.
    + destruct (Ascii.eqb c "]"%char) eqn:Eb; [|discriminate].
      injection H as <- <-. split; [lia|].
      intros [|g] Hf; [lia|]. cbn [parse_elements].
      rewrite Hv by lia. cbn. now rewrite E1, Ec, Eb.
  - cbn [parse_members] in H.
    pose proof (skip_ws_length s) as L0.
    apply bind_Some in H as ([k r0] & Hk & H).
    pose proof (parse_string_length _ _ _ Hk) as Lk.
    destruct (skip_ws r0) as [|c r1] eqn:E0; [discriminate|].
    pose proof (skip_ws_cons_length _ _ _ E0) as L1.
    destruct (Ascii.eqb c ":"%char) eqn:Ec; [|discriminate].
    apply bind_Some in H as ([v r2] & Hv & H).
    apply IHv in Hv as [L2 Hv].
    destruct (skip_ws r2) as [|c' r3] eqn:E2; [discriminate|].
    pose proof (skip_ws_cons_length _ _ _ E2) as L3.
    destruct (Ascii.eqb c' ","%char) eqn:Ec'.
    + apply bind_Some in H as ([kvs r4] & Hm & [= <- <-]).
      apply IHm in Hm as [L4 Hm]. split; [lia|].
      intros [|g] Hf; [lia|]. cbn [parse_members].
      rewrite Hk. cbn. rewrite E0, Ec, Hv by lia. cbn.
      rewrite E2, Ec', Hm by lia. reflexivity.
    + destruct (Ascii.eqb c' "}"%char) eqn:Eb; [|discriminate].
      injection H as <- <-. split; [lia|].
      intros [|g] Hf; [lia|]. cbn [parse_members].
      rewrite Hk. cbn. rewrite E0, Ec, Hv by lia. cbn.
      now rewrite E2, Ec', Eb.
Qed.

(** A text that the grammar accepts with some fuel is accepted by
    [JSON_parse]: [None] is a malformed text, never a lack of fuel. *)
Lemma parse_text_complete fuel s v r :
  parse_value fuel s = Some (v, r) -> skip_ws r = [] ->
  parse_text s = Some v.
Proof.
  intros H Hr. apply (proj1 (parse_fuel_free fuel)) in H as [L H].
  unfold parse_text. rewrite H by lia. cbn. now rewrite Hr.
Qed.

(** ** The parser at work *)

(** Texts that are not JSON. *)
Example parse_trailing_comma : JSON_parse "[1,]" = None.
Proof. reflexivity. Qed.

Example parse_leading_zero : JSON_parse "[01]" = None.
Proof. reflexivity. Qed.

Example parse_truncated : JSON_parse "[{" = None.
Proof. reflexivity. Qed.

Example parse_empty : JSON_parse "" = None.
Proof. reflexivity. Qed.

Example parse_bare_word : JSON_parse "undefined" = None.
Proof. reflexivity. Qed.

Example parse_bare_point : JSON_parse "1." = None.
Proof. reflexivity. Qed.

Example parse_bare_exponent : JSON_parse "1e" = None.
Proof. reflexivity. Qed.

(** Numbers: the value of the literal, whichever way it is written. *)
Example parse_numbers :
  JSON_parse "[0, -0, 1.0, 1.5, -0.250, 1e3, 12E-1, 0.1e1, 120e-3]"
  = Some (JArr [JNum 0; JNum 0; JNum 1; JDec 15 1; JDec (-25) 2; JNum 1000;
                JDec 12 1; JNum 1; JDec 12 2]).
Proof. reflexivity. Qed.

(** Numbers are doubles: a literal denotes the double nearest to it, and
    a double is printed with as few digits as tell it from the others. *)
Example parse_rounds :
  JSON_parse "[9007199254740993, 0.1000000000000000055511151231257827, 1e400, -1e400, 1e-400, 4.9e-324, 123456789012345678901234567890]"
  = Some (JArr [JNum 9007199254740992; JDec 1 1; JInf false; JInf true;
                JNum 0; JDec 5 324; JNum 123456789012345680000000000000]).
Proof. vm_compute. reflexivity. Qed.

Example stringify_exponents :
  JSON_stringify (JArr [JNum (10 ^ 21); JNum (10 ^ 20); JDec 1 7; JDec 1 6;
                        JDec (-15) 11; JNum 123456789012345680000000000000;
                        JDec 17976931348623157 308; JInf false])
  = "[1e+21,100000000000000000000,1e-7,0.000001,-1.5e-10,1.2345678901234568e+29,1.7976931348623157e-292,null]"%string.
Proof. vm_compute. reflexivity. Qed.

(** The valid numbers are the decimals that are printed for a double:
    the safe integers, [2^53] but not [2^53 + 1], [0.1] and
    [0.30000000000000004], the least and the greatest double. *)
Example valid_numbers :
  map valid [JNum 0; JNum (-42); JNum (2 ^ 53 - 1); JNum (2 ^ 53);
             JNum (2 ^ 53 + 1); JDec 1 1; JDec 30000000000000004 17;
             JDec 10 1; JDec 5 324; JDec 4 324;
             JNum (17976931348623157 * 10 ^ 292);
             JNum (17976931348623158 * 10 ^ 292); JInf false]
  = [true; true; true; true; false; true; true; false; true; false;
     true; false; false].
Proof. vm_compute. reflexivity. Qed.

Example stringify_decimals :
  JSON_stringify (JArr [JDec 15 1; JDec (-25) 2; JDec 12 3; JDec 12345 2])
  = "[1.5,-0.25,0.012,123.45]"%string.
Proof. reflexivity. Qed.

(** Escapes in string literals; code points above U+007F come out in
    UTF-8, and a surrogate pair is one code point. *)
Example parse_escapes :
  parse_text (DQUOTE :: BACKSLASH :: list_ascii_of_string "u0041"
                ++ BACKSLASH :: list_ascii_of_string "u00e9"
                ++ BACKSLASH :: list_ascii_of_string "u2603"
                ++ BACKSLASH :: list_ascii_of_string "ud83d"
                ++ BACKSLASH :: list_ascii_of_string "ude00"
                ++ BACKSLASH :: list_ascii_of_string "n"
                ++ BACKSLASH :: list_ascii_of_string "/"
                ++ [DQUOTE])
  = Some (JStr (String "A" (String "195" (String "169"
            (String "226" (String "152" (String "131"
            (String "240" (String "159" (String "152" (String "128"
            (String LF (String "/" EmptyString))))))))))))).
Proof. reflexivity. Qed.

(** A surrogate on its own is a code unit that UTF-8 does not have. *)
Example parse_lone_surrogate :
  parse_text (DQUOTE :: BACKSLASH :: list_ascii_of_string "ud83d" ++ [DQUOTE])
  = None.
Proof. reflexivity. Qed.

(** White space between the tokens. *)
Example parse_spaced :
  JSON_parse " [ 1 , [ ] , -20 , null , true ] "
  = Some (JArr [JNum 1; JArr []; JNum (-20); JNull; JBool true]).
Proof. reflexivity. Qed.

(** A name defined twice keeps its first place and its last value, and
    array indices come first, in ascending order. *)
Example parse_own_keys :
  parse_text ("{"%char :: quote "b" ++ list_ascii_of_string ":1,"
                ++ quote "7" ++ list_ascii_of_string ":2,"
                ++ quote "b" ++ list_ascii_of_string ":3,"
                ++ quote "2" ++ list_ascii_of_string ":4}")
  = Some (JObj [("2", JNum 4); ("7", JNum 2); ("b", JNum 3)]).
Proof. reflexivity. Qed.

(** The two shapes of [JSON.stringify]. *)
Example stringify_compact :
  JSON_stringify (JArr [JNum 1; JArr []; JObj []; JArr [JNull; JBool false]])
  = "[1,[],{},[null,false]]"%string.
Proof. reflexivity. Qed.

Example stringify_indented :
  list_ascii_of_string (JSON_stringify_space 2 (JArr [JNum 1; JArr [JNull]]))
  = "["%char :: LF :: list_ascii_of_string "  1," ++ LF
      :: list_ascii_of_string "  [" ++ LF :: list_ascii_of_string "    null" ++ LF
      :: list_ascii_of_string "  ]" ++ LF :: ["]"%char].
Proof. reflexivity. Qed.

(** * Properties of the program *)

Lemma truthy_string_stringify v : truthy_string (JSON_stringify v) = true.
Proof.
  pose proof (JSON_stringify_nonempty v) as H.
  destruct (JSON_stringify v); [congruence|reflexivity].
Qed.

Lemma saveToStorage_run key value b :
  saveToStorage key value b = (Normal tt, stored key (JSON_stringify value) b).
Proof. reflexivity. Qed.

Lemma effect_save_run key value b :
  effect (saveToStorage key value) b
  = (Normal tt, stored key (JSON_stringify value) b).
Proof. reflexivity. Qed.

Lemma stored_id key value b :
  localStorage b !! key = Some value -> stored key value b = b.
Proof.
  intros H. unfold stored. rewrite (insert_id _ _ _ H). now destruct b.
Qed.

Lemma loadFromStorage_stored key value fallback b :
  valid value = true ->
  localStorage b !! key = Some (JSON_stringify value) ->
  loadFromStorage key fallback b = (Normal value, b).
Proof.
  intros Hv Hk. unfold loadFromStorage, try_catch, bind, getItem.
  rewrite Hk, truthy_string_stringify, JSON_parse_stringify by exact Hv.
  reflexivity.
Qed.

(** A write under a quota: the text is stored when the storage stays
    within the quota, and the write throws, storing nothing, when it
    does not. *)
Lemma saveToStorage_accepted {Q : Quota} key value b :
  within_quota (<[key := JSON_stringify value]> (localStorage b)) = true ->
  saveToStorage key value b = (Normal tt, stored key (JSON_stringify value) b).
Proof. intros H. unfold saveToStorage, setItem. now rewrite H. Qed.

Lemma saveToStorage_refused {Q : Quota} key value b :
  within_quota (<[key := JSON_stringify value]> (localStorage b)) = false ->
  saveToStorage key value b = (Throw QuotaExceededError, b).
Proof. intros H. unfold saveToStorage, setItem. now rewrite H. Qed.

(** No quota of a number of characters lets the storage hold every valid
    value: a string longer than the quota is refused under every key and
    whatever the storage holds. *)
Lemma length_string_of_list_ascii (l : list ascii) :
  String.length (string_of_list_ascii l) = length l.
Proof. induction l as [|c l IH]; [reflexivity|]. cbn. now rewrite IH. Qed.

Lemma quote_char_length c : (1 <= length (quote_char c))%nat.
Proof. destruct c as [[] [] [] [] [] [] [] []]; vm_compute; lia. Qed.

Lemma quote_text_length s : (length s <= length (quote_text s))%nat.
Proof.
  unfold quote_text. cbn [length]. rewrite length_app.
  enough (length s <= length (concat (map quote_char s)))%nat by lia.
  induction s as [|c s IH]; [reflexivity|].
  cbn [map concat length]. rewrite length_app.
  pose proof (quote_char_length c). lia.
Qed.

Lemma stringify_string_length s :
  (String.length s <= String.length (JSON_stringify (JStr s)))%nat.
Proof.
  unfold JSON_stringify, JSON_stringify_space. cbn [serialize]. unfold quote.
  rewrite length_string_of_list_ascii.
  pose proof (quote_text_length (list_ascii_of_string s)) as H.
  rewrite <- (length_string_of_list_ascii (list_ascii_of_string s)) in H.
  now rewrite string_of_list_ascii_of_string in H.
Qed.

Lemma usage_insert key value st :
  (String.length value <= usage (<[key := value]> st))%nat.
Proof.
  rewrite <- insert_delete_eq. unfold usage.
  rewrite map_fold_insert_L.
  - lia.
  - intros. lia.
  - apply lookup_delete_eq.
Qed.

Lemma quota_refuses_some_value n key b :
  exists value,
    valid value = true
    /\ @saveToStorage (at_most n) key value b = (Throw QuotaExceededError, b).
Proof.
  exists (JStr (string_of_list_ascii (repeat "a"%char (S n)))).
  split; [reflexivity|].
  apply saveToStorage_refused. unfold within_quota, at_most.
  apply bool_decide_eq_false. intros Hle.
  pose proof (stringify_string_length
                (string_of_list_ascii (repeat "a"%char (S n)))) as Hs.
  rewrite length_string_of_list_ascii, repeat_length in Hs.
  pose proof (usage_insert key
    (JSON_stringify (JStr (string_of_list_ascii (repeat "a"%char (S n)))))
    (localStorage b)) as Hu.
  lia.
Qed.

Lemma effect_save_accepted {Q : Quota} key value b :
  within_quota (<[key := JSON_stringify value]> (localStorage b)) = true ->
  effect (saveToStorage key value) b
  = (Normal tt, stored key (JSON_stringify value) b).
Proof. intros H. unfold effect. now rewrite saveToStorage_accepted. Qed.

Lemma effect_save_refused {Q : Quota} key value b :
  within_quota (<[key := JSON_stringify value]> (localStorage b)) = false ->
  effect (saveToStorage key value) b = (Unmounted QuotaExceededError, b).
Proof. intros H. unfold effect. now rewrite saveToStorage_refused. Qed.

(** A setter under a quota: the state is set and stored, or the effect
    throws and the application is unmounted, the storage as it was. *)
Lemma setMessages_accepted {Q : Quota} f app b :
  within_quota (<["sr_messages" := JSON_stringify (collection (f (messages app)))]>
                  (localStorage b)) = true ->
  setMessages f app b
  = (Normal {| route := route app; messages := f (messages app);
               resources := resources app; infos := infos app |},
     stored "sr_messages" (JSON_stringify (collection (f (messages app)))) b).
Proof.
  intros H. unfold setMessages, bind. cbn [messages].
  now rewrite (effect_save_accepted _ _ _ H).
Qed.

Lemma setMessages_refused {Q : Quota} f app b :
  within_quota (<["sr_messages" := JSON_stringify (collection (f (messages app)))]>
                  (localStorage b)) = false ->
  setMessages f app b = (Unmounted QuotaExceededError, b).
Proof.
  intros H. unfold setMessages, bind. cbn [messages].
  now rewrite (effect_save_refused _ _ _ H).
Qed.

Lemma setResources_accepted {Q : Quota} f app b :
  within_quota (<["sr_resources" := JSON_stringify (collection (f (resources app)))]>
                  (localStorage b)) = true ->
  setResources f app b
  = (Normal {| route := route app; messages := messages app;
               resources := f (resources app); infos := infos app |},
     stored "sr_resources" (JSON_stringify (collection (f (resources app)))) b).
Proof.
  intros H. unfold setResources, bind. cbn [resources].
  now rewrite (effect_save_accepted _ _ _ H).
Qed.

Lemma setResources_refused {Q : Quota} f app b :
  within_quota (<["sr_resources" := JSON_stringify (collection (f (resources app)))]>
                  (localStorage b)) = false ->
  setResources f app b = (Unmounted QuotaExceededError, b).
Proof.
  intros H. unfold setResources, bind. cbn [resources].
  now rewrite (effect_save_refused _ _ _ H).
Qed.

Lemma setInfos_accepted {Q : Quota} f app b :
  within_quota (<["sr_infos" := JSON_stringify (collection (f (infos app)))]>
                  (localStorage b)) = true ->
  setInfos f app b
  = (Normal {| route := route app; messages := messages app;
               resources := resources app; infos := f (infos app) |},
     stored "sr_infos" (JSON_stringify (collection (f (infos app)))) b).
Proof.
  intros H. unfold setInfos, bind. cbn [infos].
  now rewrite (effect_save_accepted _ _ _ H).
Qed.

Lemma setInfos_refused {Q : Quota} f app b :
  within_quota (<["sr_infos" := JSON_stringify (collection (f (infos app)))]>
                  (localStorage b)) = false ->
  setInfos f app b = (Unmounted QuotaExceededError, b).
Proof.
  intros H. unfold setInfos, bind. cbn [infos].
  now rewrite (effect_save_refused _ _ _ H).
Qed.

(** C1, as the code has it.  Storage round trip: for every key, every
    valid value and every fallback, when the quota lets the storage hold
    the text of the value, [saveToStorage(key, value)] followed by
    [loadFromStorage(key, fallback)] returns the value saved; when it
    does not, [saveToStorage] throws QuotaExceededError and the storage
    is as it was. *)
Theorem storage_round_trip {Q : Quota} key value fallback b :
  valid value = true ->
  (within_quota (<[key := JSON_stringify value]> (localStorage b)) = true ->
   (saveToStorage key value ;;; loadFromStorage key fallback) b
   = (Normal value, stored key (JSON_stringify value) b))
  /\ (within_quota (<[key := JSON_stringify value]> (localStorage b)) = false ->
      (saveToStorage key value ;;; loadFromStorage key fallback) b
      = (Throw QuotaExceededError, b)).
Proof.
  intros Hv. split; intros Hq; unfold bind at 1.
  - rewrite (saveToStorage_accepted _ _ _ Hq).
    apply loadFromStorage_stored; [exact Hv|].
    cbn. apply lookup_insert_eq.
  - now rewrite (saveToStorage_refused _ _ _ Hq).
Qed.

Lemma storage_round_trip_witness :
  let value := JObj [("id", JStr "msg_k3x9a1b"); ("n", JNum (-42));
                     ("ratio", JDec 15 1); ("big", JNum (10 ^ 21));
                     ("tags", JArr [JNull; JBool true; JStr "a b"])] in
  let text := JSON_stringify value in
  valid value = true
  /\ @within_quota (at_most 200) (<["sr_messages" := text]> ∅) = true
  /\ (@saveToStorage (at_most 200) "sr_messages" value ;;;
      loadFromStorage "sr_messages" JNull) empty_browser
     = (Normal value, stored "sr_messages" text empty_browser).
Proof.
  cbv zeta.
  set (value := JObj [("id", JStr "msg_k3x9a1b"); ("n", JNum (-42));
                      ("ratio", JDec 15 1); ("big", JNum (10 ^ 21));
                      ("tags", JArr [JNull; JBool true; JStr "a b"])]).
  assert (Hv : valid value = true) by (vm_compute; reflexivity).
  assert (Hq : @within_quota (at_most 200)
                 (<["sr_messages" := JSON_stringify value]>
                    (localStorage empty_browser)) = true)
    by (vm_compute; reflexivity).
  split; [exact Hv|]. split; [exact Hq|].
  exact (proj1 (storage_round_trip (Q := at_most 200) "sr_messages" value JNull
                  empty_browser Hv) Hq).
Defined.

(** C1, as stated, fails on a value whose text the quota does not let
    the storage hold: the save throws, nothing is stored, and the load
    returns the fallback. *)
Lemma storage_round_trip_counterexample :
  let value := JStr "a text that is longer than the quota" in
  valid value = true
  /\ (@saveToStorage (at_most 32) "sr_messages" value ;;;
      loadFromStorage "sr_messages" JNull) empty_browser
     = (Throw QuotaExceededError, empty_browser)
  /\ loadFromStorage "sr_messages" JNull empty_browser
     = (Normal JNull, empty_browser)
  /\ JNull <> value.
Proof.
  cbv zeta. split; [reflexivity|]. split; [vm_compute; reflexivity|].
  split; [reflexivity|discriminate].
Qed.

(** C2. Fallback on bad read: [loadFromStorage(key, fallback)] returns
    [fallback], and completes normally, whenever nothing is stored under
    [key] or the text stored there does not parse as JSON. *)
Theorem load_fallback key fallback b :
  localStorage b !! key = None \/
  (exists raw, localStorage b !! key = Some raw /\ JSON_parse raw = None) ->
  loadFromStorage key fallback b = (Normal fallback, b).
Proof.
  intros [H|(raw & H & Hp)];
    unfold loadFromStorage, try_catch, bind, getItem; rewrite H.
  - reflexivity.
  - destruct (truthy_string raw); [rewrite Hp|]; reflexivity.
Qed.

Lemma load_fallback_witness :
  let b := stored "sr_messages" "[{" empty_browser in
  (localStorage b !! "sr_messages" = None \/
   (exists raw, localStorage b !! "sr_messages" = Some raw /\ JSON_parse raw = None)) /\
  loadFromStorage "sr_messages" (JArr []) b = (Normal (JArr []), b).
Proof.
  assert (H : localStorage (stored "sr_messages" "[{" empty_browser) !! "sr_messages" = None \/
              (exists raw, localStorage (stored "sr_messages" "[{" empty_browser) !! "sr_messages" = Some raw
                           /\ JSON_parse raw = None)).
  { right. exists "[{". split; reflexivity. }
  split; [exact H|].
  exact (load_fallback "sr_messages" (JArr []) _ H).
Defined.

(** [loadFromStorage] never throws and never writes. *)
Lemma loadFromStorage_total key fallback b :
  exists v, loadFromStorage key fallback b = (Normal v, b).
Proof.
  unfold loadFromStorage, try_catch, bind, getItem.
  destruct (localStorage b !! key) as [raw|]; [|eauto].
  destruct (truthy_string raw); [|eauto].
  destruct (JSON_parse raw); cbn; eauto.
Qed.

(** C3. Contact-form defaulting: submitting the form with a non-empty
    body, empty name, email and subject and no file appends one message,
    whose name is "Anonymous", subject is "General", message is the body
    submitted, file is null and status is "unread". *)
Theorem contact_form_defaulting rand now body sending0 status0 app b :
  body <> ""%string ->
  let c := {| name := ""; email := ""; subject := ""; message := body;
              file := None; sending := sending0; status := status0 |} in
  exists c' app' b' msg,
    handleSubmit rand now c app b = (Normal (c', app'), b')
    /\ messages app' = messages app ++ [msg]
    /\ msg = [("id", JStr (uid "msg" rand)); ("name", JStr "Anonymous");
              ("email", JStr ""); ("subject", JStr "General");
              ("message", JStr body); ("file", JNull);
              ("createdAt", JStr now); ("status", JStr "unread")]
    /\ obj_get msg "name" = Some (JStr "Anonymous")
    /\ obj_get msg "subject" = Some (JStr "General")
    /\ obj_get msg "message" = Some (JStr body)
    /\ obj_get msg "file" = Some JNull
    /\ obj_get msg "status" = Some (JStr "unread").
Proof.
  intros _ c. subst c.
  set (msg := [("id", JStr (uid "msg" rand)); ("name", JStr "Anonymous");
               ("email", JStr ""); ("subject", JStr "General");
               ("message", JStr body); ("file", JNull);
               ("createdAt", JStr now); ("status", JStr "unread")] : Obj).
  exists {| name := ""; email := ""; subject := ""; message := "";
            file := None; sending := false;
            status := Some {| ok := true;
                              status_text := "Message sent. The rep will contact you." |} |},
    {| route := route app; messages := messages app ++ [msg];
       resources := resources app; infos := infos app |},
    (stored "sr_messages" (JSON_stringify (collection (messages app ++ [msg]))) b),
    msg.
  repeat split.
Qed.

Lemma contact_form_defaulting_witness :
  let app := {| route := "contact"; messages := []; resources := []; infos := [] |} in
  let c := {| name := ""; email := ""; subject := ""; message := "printer broken";
              file := None; sending := false; status := None |} in
  "printer broken"%string <> ""%string /\
  exists c' app' b' msg,
    handleSubmit "k3x9a1b" "2024-05-01T10:00:00.000Z" c app empty_browser
    = (Normal (c', app'), b')
    /\ messages app' = messages app ++ [msg]
    /\ msg = [("id", JStr (uid "msg" "k3x9a1b")); ("name", JStr "Anonymous");
              ("email", JStr ""); ("subject", JStr "General");
              ("message", JStr "printer broken"); ("file", JNull);
              ("createdAt", JStr "2024-05-01T10:00:00.000Z");
              ("status", JStr "unread")]
    /\ obj_get msg "name" = Some (JStr "Anonymous")
    /\ obj_get msg "subject" = Some (JStr "General")
    /\ obj_get msg "message" = Some (JStr "printer broken")
    /\ obj_get msg "file" = Some JNull
    /\ obj_get msg "status" = Some (JStr "unread").
Proof.
  assert (H : "printer broken"%string <> ""%string) by discriminate.
  split; [exact H|].
  exact (contact_form_defaulting "k3x9a1b" "2024-05-01T10:00:00.000Z"
           "printer broken" false None
           {| route := "contact"; messages := []; resources := []; infos := [] |}
           empty_browser H).
Defined.

(** ** The storage holds the state *)

(** The effects of the first render establish [persisted]; every handler
    keeps it. *)
Lemma App_effects_persisted app b : persisted (snd (App_effects app b)) app.
Proof.
  unfold persisted. cbn.
  rewrite lookup_insert_eq, !lookup_insert_ne, !lookup_insert_eq by discriminate.
  rewrite lookup_insert_ne, lookup_insert_eq by discriminate. auto.
Qed.

Lemma setMessages_persisted f app b :
  persisted b app ->
  exists app' b', setMessages f app b = (Normal app', b') /\ persisted b' app'.
Proof.
  intros (Hm & Hr & Hi). eexists _, _. split; [reflexivity|].
  unfold persisted. cbn.
  rewrite lookup_insert_eq, !lookup_insert_ne by discriminate. auto.
Qed.

Lemma setResources_persisted f app b :
  persisted b app ->
  exists app' b', setResources f app b = (Normal app', b') /\ persisted b' app'.
Proof.
  intros (Hm & Hr & Hi). eexists _, _. split; [reflexivity|].
  unfold persisted. cbn.
  rewrite lookup_insert_eq, !lookup_insert_ne by discriminate. auto.
Qed.

Lemma setInfos_persisted f app b :
  persisted b app ->
  exists app' b', setInfos f app b = (Normal app', b') /\ persisted b' app'.
Proof.
  intros (Hm & Hr & Hi). eexists _, _. split; [reflexivity|].
  unfold persisted. cbn.
  rewrite lookup_insert_eq, !lookup_insert_ne by discriminate. auto.
Qed.

Lemma handlers_keep_persisted app b :
  persisted b app ->
  (forall msg, exists app' b',
      handleSendMessage msg app b = (Normal app', b') /\ persisted b' app')
  /\ (forall confirmed id, exists app' b',
        handleDeleteMessage confirmed id app b = (Normal app', b')
        /\ persisted b' app')
  /\ (forall confirmed id, exists app' b',
        handleDeleteResource confirmed id app b = (Normal app', b')
        /\ persisted b' app')
  /\ (forall type payload, exists app' b',
        handlePostInfo type payload app b = (Normal app', b')
        /\ persisted b' app').
Proof.
  intros P. split; [|split; [|split]].
  - intros msg. now apply setMessages_persisted.
  - intros [|] id; [now apply setMessages_persisted|]. now exists app, b.
  - intros [|] id; [now apply setResources_persisted|]. now exists app, b.
  - intros type payload. unfold handlePostInfo, bind.
    destruct (String.eqb type "resource").
    + destruct (setResources_persisted (fun prev => prev ++ [payload]) app b P)
        as (app1 & b1 & -> & P1).
      destruct (String.eqb type "info"); [|now exists app1, b1].
      now apply setInfos_persisted.
    + cbn [ret]. destruct (String.eqb type "info"); [|now exists app, b].
      now apply setInfos_persisted.
Qed.

(** ** Deleting *)

Lemma id_differs_false id m : id_differs id m = false <-> has_id id m.
Proof.
  unfold id_differs, has_id.
  destruct (obj_get m "id") as [[| | | | |s| |]|]; try (split; [discriminate|congruence]).
  destruct (String.eqb_spec s id) as [->|Hne]; cbn; split; congruence.
Qed.

Lemma id_differs_true id m : id_differs id m = true <-> ~ has_id id m.
Proof.
  rewrite <- id_differs_false. destruct (id_differs id m); split; congruence.
Qed.

Lemma filter_absent id (l : list Obj) :
  Forall (fun m => ~ has_id id m) l -> List.filter (id_differs id) l = l.
Proof.
  induction 1 as [|m l Hm _ IH]; [reflexivity|]. cbn [List.filter].
  apply id_differs_true in Hm. now rewrite Hm, IH.
Qed.

Lemma App_eta app :
  {| route := route app; messages := messages app;
     resources := resources app; infos := infos app |} = app.
Proof. now destruct app. Qed.

(** C4. Deleting an absent identifier is a no-op: when no message carries
    [id], [handleDeleteMessage(id)], once confirmed, leaves the
    application state as it is, and the storage too when it holds that
    state; likewise [handleDeleteResource(id)] for the resources. *)
Theorem delete_absent_noop id app b :
  (Forall (fun m => ~ has_id id m) (messages app) ->
   exists b', handleDeleteMessage true id app b = (Normal app, b')
              /\ (persisted b app -> b' = b))
  /\
  (Forall (fun r => ~ has_id id r) (resources app) ->
   exists b', handleDeleteResource true id app b = (Normal app, b')
              /\ (persisted b app -> b' = b)).
Proof.
  split; intros H; eexists; (split; [|intros (Hm & Hr & Hi)]).
  - unfold handleDeleteMessage, setMessages, bind. cbn [negb messages].
    rewrite effect_save_run, (filter_absent _ _ H). unfold ret.
    rewrite App_eta. reflexivity.
  - now apply stored_id.
  - unfold handleDeleteResource, setResources, bind. cbn [negb resources].
    rewrite effect_save_run, (filter_absent _ _ H). unfold ret.
    rewrite App_eta. reflexivity.
  - now apply stored_id.
Qed.

Lemma delete_absent_noop_witness :
  Forall (fun m => ~ has_id "msg_zzzzzzz" m) (messages sample_app)
  /\ Forall (fun r => ~ has_id "msg_zzzzzzz" r) (resources sample_app)
  /\ persisted sample_browser sample_app
  /\ handleDeleteMessage true "msg_zzzzzzz" sample_app sample_browser
     = (Normal sample_app, sample_browser)
  /\ handleDeleteResource true "msg_zzzzzzz" sample_app sample_browser
     = (Normal sample_app, sample_browser).
Proof.
  assert (Hm : Forall (fun m => ~ has_id "msg_zzzzzzz" m) (messages sample_app))
    by compute_done.
  assert (Hr : Forall (fun r => ~ has_id "msg_zzzzzzz" r) (resources sample_app))
    by compute_done.
  assert (Hp : persisted sample_browser sample_app)
    by compute_done.
  destruct (delete_absent_noop "msg_zzzzzzz" sample_app sample_browser) as [Dm Dr].
  destruct (Dm Hm) as (b1 & E1 & P1). destruct (Dr Hr) as (b2 & E2 & P2).
  rewrite (P1 Hp) in E1. rewrite (P2 Hp) in E2.
  repeat split; assumption.
Defined.

(** C10. Declining the confirmation leaves everything as it is: the
    three collections and the browser, storage included. *)
Theorem delete_declined {Q : Quota} id app b :
  handleDeleteMessage false id app b = (Normal app, b)
  /\ handleDeleteResource false id app b = (Normal app, b).
Proof. split; reflexivity. Qed.

Lemma elem_of_filter_id id (l : list Obj) m :
  m ∈ List.filter (id_differs id) l <-> m ∈ l /\ ~ has_id id m.
Proof.
  rewrite !list_elem_of_In, filter_In, id_differs_true. reflexivity.
Qed.

Lemma sublist_filter_id id (l : list Obj) :
  sublist (List.filter (id_differs id) l) l.
Proof.
  induction l as [|m l IH]; [constructor|]. cbn [List.filter].
  destruct (id_differs id m); now constructor.
Qed.

Lemma length_filter_id id (l : list Obj) :
  (length (List.filter (id_differs id) l) + length (filter (has_id id) l)
   = length l)%nat.
Proof.
  induction l as [|m l IH]; [reflexivity|]. cbn [List.filter].
  destruct (id_differs id m) eqn:E.
  - apply id_differs_true in E. rewrite filter_cons_False by exact E.
    cbn [length]. lia.
  - apply id_differs_false in E. rewrite filter_cons_True by exact E.
    cbn [length]. lia.
Qed.

Lemma filter_id_unique id (l1 l2 : list Obj) m :
  has_id id m -> Forall (fun x => ~ has_id id x) (l1 ++ l2) ->
  List.filter (id_differs id) (l1 ++ m :: l2) = l1 ++ l2.
Proof.
  intros Hm HF. apply Forall_app in HF as [H1 H2].
  rewrite List.filter_app. cbn [List.filter].
  apply id_differs_false in Hm. rewrite Hm.
  now rewrite !filter_absent.
Qed.

Lemma filter_removes_entries id l :
  removes_entries id l (List.filter (id_differs id) l).
Proof.
  split; [apply elem_of_filter_id|].
  split; [apply sublist_filter_id|].
  split; [apply length_filter_id|].
  intros l1 m l2 -> Hm HF. rewrite (filter_id_unique _ _ _ _ Hm HF).
  split; [reflexivity|]. rewrite !length_app. cbn [length]. lia.
Qed.

(** C5, as the code has it. A confirmed [handleDeleteMessage(id)] or
    [handleDeleteResource(id)] removes every entry that carries [id] and
    keeps the others in order, so the collection loses as many entries as
    carried [id]: exactly one, the entries before and after it retained,
    when exactly one entry carries it.  The other collections stay. *)
Theorem delete_removes_matching id app b :
  (exists app' b',
      handleDeleteMessage true id app b = (Normal app', b')
      /\ removes_entries id (messages app) (messages app')
      /\ resources app' = resources app /\ infos app' = infos app)
  /\
  (exists app' b',
      handleDeleteResource true id app b = (Normal app', b')
      /\ removes_entries id (resources app) (resources app')
      /\ messages app' = messages app /\ infos app' = infos app).
Proof.
  split; eexists _, _; (split; [reflexivity|]); cbn;
    (split; [apply filter_removes_entries|split; reflexivity]).
Qed.

(** C5, as stated, fails on a collection in which two entries carry the
    identifier: both go, so the collection is two entries shorter and the
    entry after the first match is not retained. *)
Lemma delete_one_fewer_counterexample :
  let m1 := entry "msg_aaaaaaa" "first" in
  let m2 := entry "msg_aaaaaaa" "second" in
  let app := {| route := "admin"; messages := [m1; m2];
                resources := []; infos := [] |} in
  has_id "msg_aaaaaaa" m1 /\ has_id "msg_aaaaaaa" m2 /\
  exists app' b',
    handleDeleteMessage true "msg_aaaaaaa" app empty_browser = (Normal app', b')
    /\ messages app' = []
    /\ S (length (messages app')) <> length (messages app)
    /\ m2 ∉ messages app'.
Proof.
  cbv zeta. split; [reflexivity|]. split; [reflexivity|].
  eexists _, _. split; [reflexivity|]. cbn.
  split; [reflexivity|]. split; [discriminate|]. apply not_elem_of_nil.
Qed.

Lemma delete_removes_matching_witness :
  let id := "msg_aaaaaaa"%string in
  let l1 : list Obj := [] in
  let m := entry "msg_aaaaaaa" "first" in
  let l2 := [entry "msg_bbbbbbb" "second"] in
  exists app' b',
    handleDeleteMessage true id sample_app sample_browser = (Normal app', b')
    /\ messages sample_app = l1 ++ m :: l2
    /\ has_id id m
    /\ Forall (fun x => ~ has_id id x) (l1 ++ l2)
    /\ messages app' = l1 ++ l2
    /\ S (length (messages app')) = length (messages sample_app).
Proof.
  cbv zeta.
  destruct (delete_removes_matching "msg_aaaaaaa" sample_app sample_browser)
    as [(app' & b' & E & (_ & _ & _ & U) & _) _].
  exists app', b'.
  assert (H1 : messages sample_app
               = [] ++ entry "msg_aaaaaaa" "first" :: [entry "msg_bbbbbbb" "second"])
    by reflexivity.
  assert (H2 : has_id "msg_aaaaaaa" (entry "msg_aaaaaaa" "first")) by reflexivity.
  assert (H3 : Forall (fun x => ~ has_id "msg_aaaaaaa" x)
                 ([] ++ [entry "msg_bbbbbbb" "second"])) by compute_done.
  destruct (U _ _ _ H1 H2 H3) as [U1 U2].
  repeat split; assumption.
Defined.

(** ** The admin gate *)

Lemma Admin_mount_logged b :
  localStorage b !! "sr_admin_logged" = Some "true"%string ->
  Admin_mount b = (Normal {| loggedIn := JBool true; pw := "" |}, b).
Proof.
  intros H. unfold Admin_mount, Admin_effect, bind at 1.
  rewrite (loadFromStorage_stored "sr_admin_logged" (JBool true)); auto.
Qed.

Lemma loadFromStorage_same_storage key fallback b b' :
  localStorage b = localStorage b' ->
  fst (loadFromStorage key fallback b) = fst (loadFromStorage key fallback b').
Proof.
  intros H. unfold loadFromStorage, try_catch, bind, getItem. rewrite H.
  destruct (localStorage b' !! key) as [raw|]; [|reflexivity].
  destruct (truthy_string raw); [|reflexivity].
  destruct (JSON_parse raw); reflexivity.
Qed.

Lemma Admin_mount_same_storage b b' :
  localStorage b = localStorage b' -> fst (Admin_mount b) = fst (Admin_mount b').
Proof.
  intros H. unfold Admin_mount, Admin_effect, bind.
  pose proof (loadFromStorage_same_storage "sr_admin_logged" (JBool false) b b' H) as E.
  destruct (loadFromStorage_total "sr_admin_logged" (JBool false) b) as [v Hv].
  destruct (loadFromStorage_total "sr_admin_logged" (JBool false) b') as [v' Hv'].
  rewrite Hv, Hv' in *. cbn in *. congruence.
Qed.



(** ** Import and export *)

Lemma save_if_array_run key v b :
  save_if_array key v b
  = (Normal tt, {| localStorage := storage_after_save key v (localStorage b);
                   alerts := alerts b; reloads := reloads b |}).
Proof.
  destruct v as [[| | | | | |xs|]|]; cbn; now destruct b.
Qed.

Lemma import_onload_object result o b :
  JSON_parse result = Some (JObj o) ->
  import_onload result b
  = (Normal tt,
     {| localStorage := storage_after_import o (localStorage b);
        alerts := alerts b ++ ["Import complete. Reloading..."%string];
        reloads := S (reloads b) |}).
Proof.
  intros H. unfold import_onload, try_catch, bind at 1. rewrite H.
  cbn [or_throw ret get_property]. unfold bind, ret.
  rewrite !save_if_array_run. reflexivity.
Qed.

Lemma storage_after_save_lookup key v st k :
  storage_after_save key v st !! k
  = match v with
    | Some (JArr xs) => if decide (key = k) then Some (JSON_stringify (JArr xs))
                        else st !! k
    | _ => st !! k
    end.
Proof.
  destruct v as [[| | | | | |xs|]|]; cbn; try reflexivity. apply lookup_insert.
Qed.

Ltac import_lookups o :=
  rewrite !storage_after_save_lookup; import_cases o;
  repeat case_decide; congruence.

(** The import under a quota: each write goes through or throws. *)
Lemma save_if_array_accepted {Q : Quota} key v b :
  write_accepted key v (localStorage b) = true ->
  save_if_array key v b
  = (Normal tt, with_storage (storage_after_save key v (localStorage b)) b).
Proof.
  unfold save_if_array, write_accepted, storage_after_save, with_storage.
  destruct v as [[| | | | | |xs|]|]; intros H; try (now destruct b).
  now rewrite (saveToStorage_accepted _ _ _ H).
Qed.

Lemma save_if_array_refused {Q : Quota} key v b :
  write_accepted key v (localStorage b) = false ->
  save_if_array key v b = (Throw QuotaExceededError, b).
Proof.
  unfold save_if_array, write_accepted.
  destruct v as [[| | | | | |xs|]|]; intros H; try discriminate H.
  now rewrite (saveToStorage_refused _ _ _ H).
Qed.

Lemma import_onload_steps {Q : Quota} result o b :
  JSON_parse result = Some (JObj o) ->
  import_onload result b
  = try_catch
      (save_if_array "sr_messages" (obj_get o "messages") ;;;
       save_if_array "sr_resources" (obj_get o "resources") ;;;
       save_if_array "sr_infos" (obj_get o "infos") ;;;
       alert "Import complete. Reloading..." ;;;
       location_reload)
      (fun _ => alert "Invalid file.") b.
Proof.
  intros H. unfold import_onload, try_catch, bind at 1. rewrite H. reflexivity.
Qed.

(** C8, as the code has it.  Import overwrites selectively.  For an
    imported JSON object, each of [messages], [resources], [infos] whose
    value is an array replaces the persisted collection that goes with
    it, provided that the quota lets the storage hold it; a key that is
    absent or not an array leaves its persisted collection as it was;
    nothing else in storage changes, no other top-level key has any
    effect, and the import reports that it is complete and reloads the
    page.  A write that the quota refuses ends the import: the
    collections written before it stay written, those after it are not
    written, the import reports an invalid file and does not reload. *)
Theorem import_selective {Q : Quota} result o b :
  JSON_parse result = Some (JObj o) ->
  let st0 := localStorage b in
  let st1 := storage_after_save "sr_messages" (obj_get o "messages") st0 in
  let st2 := storage_after_save "sr_resources" (obj_get o "resources") st1 in
  let st3 := storage_after_save "sr_infos" (obj_get o "infos") st2 in
  (write_accepted "sr_messages" (obj_get o "messages") st0 = true ->
   write_accepted "sr_resources" (obj_get o "resources") st1 = true ->
   write_accepted "sr_infos" (obj_get o "infos") st2 = true ->
   import_onload result b = (Normal tt, import_done st3 b)
   /\ st3 !! "sr_messages"
      = imported (obj_get o "messages") (st0 !! "sr_messages")
   /\ st3 !! "sr_resources"
      = imported (obj_get o "resources") (st0 !! "sr_resources")
   /\ st3 !! "sr_infos"
      = imported (obj_get o "infos") (st0 !! "sr_infos")
   /\ (forall k, k <> "sr_messages"%string -> k <> "sr_resources"%string ->
                 k <> "sr_infos"%string -> st3 !! k = st0 !! k)
   /\ (forall result2 o2,
         JSON_parse result2 = Some (JObj o2) ->
         obj_get o2 "messages" = obj_get o "messages" ->
         obj_get o2 "resources" = obj_get o "resources" ->
         obj_get o2 "infos" = obj_get o "infos" ->
         import_onload result2 b = (Normal tt, import_done st3 b)))
  /\ (write_accepted "sr_messages" (obj_get o "messages") st0 = false ->
      import_onload result b = (Normal tt, alerted "Invalid file." b))
  /\ (write_accepted "sr_messages" (obj_get o "messages") st0 = true ->
      write_accepted "sr_resources" (obj_get o "resources") st1 = false ->
      import_onload result b
      = (Normal tt, alerted "Invalid file." (with_storage st1 b)))
  /\ (write_accepted "sr_messages" (obj_get o "messages") st0 = true ->
      write_accepted "sr_resources" (obj_get o "resources") st1 = true ->
      write_accepted "sr_infos" (obj_get o "infos") st2 = false ->
      import_onload result b
      = (Normal tt, alerted "Invalid file." (with_storage st2 b))).
Proof.
  intros H st0 st1 st2 st3. subst st3 st2 st1 st0.
  set (st0 := localStorage b).
  set (st1 := storage_after_save "sr_messages" (obj_get o "messages") st0).
  set (st2 := storage_after_save "sr_resources" (obj_get o "resources") st1).
  set (st3 := storage_after_save "sr_infos" (obj_get o "infos") st2).
  assert (S1 : write_accepted "sr_messages" (obj_get o "messages") st0 = true ->
               save_if_array "sr_messages" (obj_get o "messages") b
               = (Normal tt, with_storage st1 b))
    by apply save_if_array_accepted.
  assert (S2 : write_accepted "sr_resources" (obj_get o "resources") st1 = true ->
               save_if_array "sr_resources" (obj_get o "resources")
                 (with_storage st1 b)
               = (Normal tt, with_storage st2 b))
    by apply (save_if_array_accepted _ _ (with_storage st1 b)).
  assert (S3 : write_accepted "sr_infos" (obj_get o "infos") st2 = true ->
               save_if_array "sr_infos" (obj_get o "infos") (with_storage st2 b)
               = (Normal tt, with_storage st3 b))
    by apply (save_if_array_accepted _ _ (with_storage st2 b)).
  assert (R1 : write_accepted "sr_messages" (obj_get o "messages") st0 = false ->
               save_if_array "sr_messages" (obj_get o "messages") b
               = (Throw QuotaExceededError, b))
    by apply save_if_array_refused.
  assert (R2 : write_accepted "sr_resources" (obj_get o "resources") st1 = false ->
               save_if_array "sr_resources" (obj_get o "resources")
                 (with_storage st1 b)
               = (Throw QuotaExceededError, with_storage st1 b))
    by apply (save_if_array_refused _ _ (with_storage st1 b)).
  assert (R3 : write_accepted "sr_infos" (obj_get o "infos") st2 = false ->
               save_if_array "sr_infos" (obj_get o "infos") (with_storage st2 b)
               = (Throw QuotaExceededError, with_storage st2 b))
    by apply (save_if_array_refused _ _ (with_storage st2 b)).
  assert (Run : forall result2 o2,
             JSON_parse result2 = Some (JObj o2) ->
             obj_get o2 "messages" = obj_get o "messages" ->
             obj_get o2 "resources" = obj_get o "resources" ->
             obj_get o2 "infos" = obj_get o "infos" ->
             write_accepted "sr_messages" (obj_get o "messages") st0 = true ->
             write_accepted "sr_resources" (obj_get o "resources") st1 = true ->
             write_accepted "sr_infos" (obj_get o "infos") st2 = true ->
             import_onload result2 b = (Normal tt, import_done st3 b)).
  { intros result2 o2 H2 Em Er Ei Am Ar Ai.
    rewrite (import_onload_steps _ _ _ H2), Em, Er, Ei.
    unfold try_catch, bind.
    rewrite (S1 Am), (S2 Ar), (S3 Ai). reflexivity. }
  split; [|split; [|split]].
  - intros Am Ar Ai. split; [now apply (Run result o)|].
    subst st3 st2 st1 st0. unfold imported. repeat split.
    + import_lookups o.
    + import_lookups o.
    + import_lookups o.
    + intros k H1 H2 H3. import_lookups o.
    + intros result2 o2 H2 Em Er Ei. now apply (Run result2 o2).
  - intros Am. rewrite (import_onload_steps _ _ _ H). unfold try_catch, bind.
    now rewrite (R1 Am).
  - intros Am Ar. rewrite (import_onload_steps _ _ _ H). unfold try_catch, bind.
    now rewrite (S1 Am), (R2 Ar).
  - intros Am Ar Ai. rewrite (import_onload_steps _ _ _ H). unfold try_catch, bind.
    now rewrite (S1 Am), (S2 Ar), (R3 Ai).
Qed.

Lemma import_selective_witness :
  let o : Obj := [("messages", JArr [JObj (entry "msg_aaaaaaa" "first")]);
                  ("resources", JNum 5);
                  ("notes", JArr [JNum 1])] in
  let result := JSON_stringify_space 2 (JObj o) in
  let st0 := localStorage sample_browser in
  let st1 := <["sr_messages" :=
                 JSON_stringify (JArr [JObj (entry "msg_aaaaaaa" "first")])]> st0 in
  JSON_parse result = Some (JObj o)
  /\ @write_accepted (at_most 400) "sr_messages" (obj_get o "messages") st0 = true
  /\ @write_accepted (at_most 400) "sr_resources" (obj_get o "resources") st1 = true
  /\ @write_accepted (at_most 400) "sr_infos" (obj_get o "infos") st1 = true
  /\ @import_onload (at_most 400) result sample_browser
     = (Normal tt, import_done st1 sample_browser)
  /\ st1 !! "sr_resources" = st0 !! "sr_resources"
  /\ st1 !! "sr_infos" = st0 !! "sr_infos".
Proof.
  cbv zeta.
  set (o := [("messages", JArr [JObj (entry "msg_aaaaaaa" "first")]);
             ("resources", JNum 5); ("notes", JArr [JNum 1])] : Obj).
  assert (H : JSON_parse (JSON_stringify_space 2 (JObj o)) = Some (JObj o))
    by (vm_compute; reflexivity).
  assert (Am : @write_accepted (at_most 400) "sr_messages" (obj_get o "messages")
                 (localStorage sample_browser) = true)
    by (vm_compute; reflexivity).
  split; [exact H|]. split; [exact Am|].
  split; [reflexivity|]. split; [reflexivity|].
  destruct (import_selective (Q := at_most 400) _ o sample_browser H)
    as (Ok & _).
  destruct (Ok Am eq_refl eq_refl) as (E & _ & Hr & Hi & _).
  split; [exact E|]. split; [exact Hr|exact Hi].
Defined.

(** C8, as stated, fails on an array that the quota does not let the
    storage hold: the file is a JSON object whose [messages] is an
    array, and the persisted messages are not replaced; the import
    reports an invalid file and does not reload. *)
Lemma import_selective_counterexample :
  let o : Obj := [("messages", JArr [JObj (entry "msg_aaaaaaa" "first")])] in
  let result := JSON_stringify (JObj o) in
  JSON_parse result = Some (JObj o)
  /\ @import_onload (at_most 32) result empty_browser
     = (Normal tt, alerted "Invalid file." empty_browser)
  /\ localStorage (alerted "Invalid file." empty_browser) !! "sr_messages" = None.
Proof.
  cbv zeta. split; [vm_compute; reflexivity|].
  split; [vm_compute; reflexivity|reflexivity].
Qed.

Lemma valid_dump ms rs is_ :
  valid ms = true -> valid rs = true -> valid is_ = true ->
  valid (JObj [("messages", ms); ("resources", rs); ("infos", is_)]) = true.
Proof.
  intros Hm Hr Hi. cbn [valid map fst snd forallb]. rewrite Hm, Hr, Hi.
  reflexivity.
Qed.



(** ** Display order *)

Lemma Array_read_run (h : Heap) r xs :
  h !! r = Some xs -> Array_read r h = (Normal xs, h).
Proof. intros H. unfold Array_read. now rewrite H. Qed.

(** [reverse] on its own reverses the array it is called on. *)
Lemma Array_reverse_in_place (h : Heap) r xs :
  h !! r = Some xs -> Array_reverse r h = (Normal r, <[r := rev xs]> h).
Proof.
  intros H. unfold Array_reverse, bind. now rewrite (Array_read_run _ _ _ H).
Qed.

Lemma fresh_not_allocated (h : Heap) r xs :
  h !! r = Some xs -> r <> fresh (dom h).
Proof.
  intros H E. apply (is_fresh (dom h)). rewrite <- E.
  apply elem_of_dom. eauto.
Qed.

(** [a.slice().reverse().map(f)]: the elements of [a] from last to first,
    and [a] as it was. *)
Lemma slice_reverse_map {B} (f : Obj -> B) (h : Heap) r xs :
  h !! r = Some xs ->
  exists h',
    (let* copy := Array_slice r in
     let* reversed := Array_reverse copy in
     Array_map f reversed) h = (Normal (map f (rev xs)), h')
    /\ arrays_kept h h'.
Proof.
  intros H. eexists. split.
  - unfold bind at 1. unfold Array_slice, bind at 1.
    rewrite (Array_read_run _ _ _ H). unfold bind at 1.
    rewrite (Array_reverse_in_place _ _ xs) by apply lookup_insert_eq.
    unfold Array_map, bind.
    rewrite (Array_read_run _ _ (rev xs)) by apply lookup_insert_eq.
    reflexivity.
  - intros r0 ys Hr0. rewrite insert_insert_eq.
    rewrite lookup_insert_ne; [exact Hr0|].
    apply not_eq_sym. now apply (fresh_not_allocated h r0 ys).
Qed.

Lemma Array_length_run (h : Heap) r xs :
  h !! r = Some xs -> Array_length r h = (Normal (length xs), h).
Proof.
  intros H. unfold Array_length, bind. now rewrite (Array_read_run _ _ _ H).
Qed.

Lemma Array_map_run {B} (f : Obj -> B) (h : Heap) r xs :
  h !! r = Some xs -> Array_map f r h = (Normal (map f xs), h).
Proof.
  intros H. unfold Array_map, bind. now rewrite (Array_read_run _ _ _ H).
Qed.

Lemma Home_run (h : Heap) r xs :
  h !! r = Some xs ->
  Home r h = (Normal (list_view "No announcements yet." (map info_article xs)), h).
Proof.
  intros H. unfold Home. unfold bind at 1. rewrite (Array_length_run _ _ _ H).
  destruct xs; [reflexivity|]. cbn [length Nat.eqb]. unfold bind.
  now rewrite (Array_map_run _ _ _ _ H).
Qed.

Lemma FilesPage_run (h : Heap) r xs :
  h !! r = Some xs ->
  FilesPage r h
  = (Normal (list_view "No files uploaded yet." (map resource_item xs)), h).
Proof.
  intros H. unfold FilesPage. unfold bind at 1. rewrite (Array_length_run _ _ _ H).
  destruct xs; [reflexivity|]. cbn [length Nat.eqb]. unfold bind.
  now rewrite (Array_map_run _ _ _ _ H).
Qed.

Lemma Admin_resources_run (h : Heap) r xs :
  h !! r = Some xs ->
  exists h',
    Admin_resources r h = (Normal (Items (map resource_item (rev xs))), h')
    /\ arrays_kept h h'.
Proof.
  intros H. destruct (slice_reverse_map resource_item h r xs H) as (h' & E & K).
  exists h'. split; [|exact K]. unfold Admin_resources, bind in *.
  destruct (Array_slice r h) as [[copy|e|e] h1]; try discriminate E.
  destruct (Array_reverse copy h1) as [[reversed|e|e] h2]; try discriminate E.
  destruct (Array_map resource_item reversed h2) as [[items|e|e] h3];
    try discriminate E.
  injection E as -> ->. reflexivity.
Qed.

Lemma Admin_messages_run (h : Heap) r xs :
  h !! r = Some xs ->
  exists h',
    Admin_messages r h
    = (Normal (list_view "No messages yet." (map message_item (rev xs))), h')
    /\ arrays_kept h h'.
Proof.
  intros H. unfold Admin_messages. unfold bind at 1.
  rewrite (Array_length_run _ _ _ H).
  destruct xs as [|m ms].
  { exists h. split; [reflexivity|]. now intros r0 ys. }
  cbn [length Nat.eqb].
  destruct (slice_reverse_map message_item h r (m :: ms) H) as (h' & E & K).
  exists h'. split; [|exact K]. unfold bind in *.
  destruct (Array_slice r h) as [[copy|e|e] h1]; try discriminate E.
  destruct (Array_reverse copy h1) as [[reversed|e|e] h2]; try discriminate E.
  destruct (Array_map message_item reversed h2) as [[items|e|e] h3];
    try discriminate E.
  injection E as -> ->. unfold ret.
  cbn [rev]. destruct (rev ms ++ [m]) eqn:Erev; [|reflexivity].
  now apply app_eq_nil in Erev as [_ ?].
Qed.

Lemma Admin_view_run (h : Heap) a r_messages r_resources ms rs :
  truthy (loggedIn a) = true ->
  h !! r_messages = Some ms -> h !! r_resources = Some rs ->
  exists h',
    Admin_view a r_messages r_resources h
    = (Normal (Panel (length ms)
                 (list_view "No messages yet." (map message_item (rev ms)))
                 (length rs)
                 (Items (map resource_item (rev rs)))), h')
    /\ arrays_kept h h'.
Proof.
  intros Hl Hm Hr. unfold Admin_view. rewrite Hl. cbn [negb].
  unfold bind at 1. rewrite (Array_length_run _ _ _ Hm).
  destruct (Admin_messages_run h r_messages ms Hm) as (h1 & E1 & K1).
  unfold bind at 1. rewrite E1.
  pose proof (K1 _ _ Hr) as Hr1.
  unfold bind at 1. rewrite (Array_length_run _ _ _ Hr1).
  destruct (Admin_resources_run h1 r_resources rs Hr1) as (h2 & E2 & K2).
  unfold bind. rewrite E2.
  exists h2. split; [reflexivity|].
  intros r0 ys H0. apply K2, K1, H0.
Qed.

(** C9. Display order.  A collection holds its entries in the order in
    which the handlers added them.  Home and Files show their lists in
    that order; the admin panel shows messages and resources in the
    reverse order, and the arrays it was given are the same afterwards. *)
Theorem display_order (h : Heap) r_infos r_resources r_messages
    (infos0 resources0 messages0 : list Obj) :
  h !! r_infos = Some infos0 ->
  h !! r_resources = Some resources0 ->
  h !! r_messages = Some messages0 ->
  Home r_infos h
  = (Normal (list_view "No announcements yet." (map info_article infos0)), h)
  /\ FilesPage r_resources h
     = (Normal (list_view "No files uploaded yet." (map resource_item resources0)), h)
  /\ (forall a, truthy (loggedIn a) = true ->
        exists h',
          Admin_view a r_messages r_resources h
          = (Normal (Panel (length messages0)
                       (list_view "No messages yet."
                          (map message_item (rev messages0)))
                       (length resources0)
                       (Items (map resource_item (rev resources0)))), h')
          /\ arrays_kept h h')
  /\ (forall msg payload app b,
         (exists app' b', handleSendMessage msg app b = (Normal app', b')
                          /\ messages app' = messages app ++ [msg])
         /\ (exists app' b', handlePostInfo "resource" payload app b = (Normal app', b')
                             /\ resources app' = resources app ++ [payload])
         /\ (exists app' b', handlePostInfo "info" payload app b = (Normal app', b')
                             /\ infos app' = infos app ++ [payload])).
Proof.
  intros Hi Hr Hm. split; [|split; [|split]].
  - now apply Home_run.
  - now apply FilesPage_run.
  - intros a Ha. now apply Admin_view_run.
  - intros msg payload app b.
    repeat split; eexists _, _; (split; [reflexivity|reflexivity]).
Qed.

Lemma display_order_witness :
  let a := {| loggedIn := JBool true; pw := "" |} in
  sample_heap !! 1%positive = Some (infos sample_app)
  /\ sample_heap !! 2%positive = Some (resources sample_app)
  /\ sample_heap !! 3%positive = Some (messages sample_app)
  /\ truthy (loggedIn a) = true
  /\ Home 1%positive sample_heap
     = (Normal (Items [info_article (entry "info_ddddddd" "welcome")]), sample_heap)
  /\ exists h',
      Admin_view a 3%positive 2%positive sample_heap
      = (Normal (Panel 2 (Items [message_item (entry "msg_bbbbbbb" "second");
                                 message_item (entry "msg_aaaaaaa" "first")])
                   1 (Items [resource_item (entry "res_ccccccc" "notes.pdf")])), h')
      /\ arrays_kept sample_heap h'.
Proof.
  cbv zeta.
  assert (H1 : sample_heap !! 1%positive = Some (infos sample_app)) by reflexivity.
  assert (H2 : sample_heap !! 2%positive = Some (resources sample_app)) by reflexivity.
  assert (H3 : sample_heap !! 3%positive = Some (messages sample_app)) by reflexivity.
  assert (H4 : truthy (loggedIn {| loggedIn := JBool true; pw := "" |}) = true)
    by reflexivity.
  repeat (split; [assumption|]).
  destruct (display_order sample_heap _ _ _ _ _ _ H1 H2 H3) as (Hh & _ & Ha & _).
  split; [exact Hh|exact (Ha _ H4)].
Defined.

(** * More properties of the program *)

(** ** The storage adapter *)

Lemma loadFromStorage_reading key fallback b :
  loadFromStorage key fallback b
  = (Normal (reading (localStorage b !! key) fallback), b).
Proof.
  unfold loadFromStorage, try_catch, bind, getItem, reading.
  destruct (localStorage b !! key) as [raw|]; [|reflexivity].
  destruct (truthy_string raw); [|reflexivity].
  destruct (JSON_parse raw); reflexivity.
Qed.

Lemma reading_stringify v fallback :
  valid v = true -> reading (Some (JSON_stringify v)) fallback = v.
Proof.
  intros Hv. unfold reading.
  now rewrite truthy_string_stringify, JSON_parse_stringify.
Qed.

Lemma stored_stored key v1 v2 b : stored key v2 (stored key v1 b) = stored key v2 b.
Proof. unfold stored. cbn. now rewrite insert_insert_eq. Qed.

Lemma stored_comm k1 v1 k2 v2 b :
  k1 <> k2 -> stored k1 v1 (stored k2 v2 b) = stored k2 v2 (stored k1 v1 b).
Proof. intros H. unfold stored. cbn. now rewrite insert_insert_ne. Qed.

(** X1. The last save wins: after two saves under one key, each of
    which the quota lets through, the load returns the second value,
    whatever the first was. *)
Theorem save_overwrites {Q : Quota} key v1 v2 fallback b :
  valid v2 = true ->
  within_quota (<[key := JSON_stringify v1]> (localStorage b)) = true ->
  within_quota (<[key := JSON_stringify v2]> (localStorage b)) = true ->
  (saveToStorage key v1 ;;; saveToStorage key v2 ;;; loadFromStorage key fallback) b
  = (Normal v2, stored key (JSON_stringify v2) b).
Proof.
  intros Hv H1 H2. unfold bind.
  rewrite (saveToStorage_accepted _ _ _ H1).
  rewrite (saveToStorage_accepted key v2 (stored key (JSON_stringify v1) b))
    by (cbn [localStorage stored]; rewrite insert_insert_eq; exact H2).
  rewrite stored_stored, loadFromStorage_reading. cbn [localStorage stored].
  now rewrite lookup_insert_eq, reading_stringify.
Qed.

Lemma save_overwrites_witness :
  valid (JArr [JStr "b"]) = true
  /\ @within_quota (at_most 16)
       (<["sr_infos" := JSON_stringify (JDec 15 1)]> ∅) = true
  /\ @within_quota (at_most 16)
       (<["sr_infos" := JSON_stringify (JArr [JStr "b"])]> ∅) = true
  /\ (@saveToStorage (at_most 16) "sr_infos" (JDec 15 1) ;;;
      @saveToStorage (at_most 16) "sr_infos" (JArr [JStr "b"]) ;;;
      loadFromStorage "sr_infos" JNull) empty_browser
     = (Normal (JArr [JStr "b"]),
        stored "sr_infos" (JSON_stringify (JArr [JStr "b"])) empty_browser).
Proof.
  split; [reflexivity|]. split; [vm_compute; reflexivity|].
  split; [vm_compute; reflexivity|].
  apply (save_overwrites (Q := at_most 16) "sr_infos" (JDec 15 1));
    vm_compute; reflexivity.
Defined.

(** X2. A save touches one key: what is loaded under any other key is
    what was loaded before the save. *)
Theorem save_other_key key key' value fallback b :
  key <> key' ->
  (saveToStorage key value ;;; loadFromStorage key' fallback) b
  = (fst (loadFromStorage key' fallback b), stored key (JSON_stringify value) b).
Proof.
  intros Hne. unfold bind. rewrite saveToStorage_run, !loadFromStorage_reading.
  cbn [localStorage stored fst]. now rewrite lookup_insert_ne.
Qed.

Lemma save_other_key_witness :
  "sr_admin_logged"%string <> "sr_messages"%string /\
  (saveToStorage "sr_admin_logged" (JBool true) ;;;
   loadFromStorage "sr_messages" (JArr [])) sample_browser
  = (fst (loadFromStorage "sr_messages" (JArr []) sample_browser),
     stored "sr_admin_logged" (JSON_stringify (JBool true)) sample_browser).
Proof.
  assert (H : "sr_admin_logged"%string <> "sr_messages"%string) by discriminate.
  split; [exact H|].
  exact (save_other_key _ _ (JBool true) (JArr []) sample_browser H).
Defined.

(** X3. A load only reads: it completes normally whatever is stored,
    leaves the browser as it is, and returns the fallback or the value
    that the text stored denotes. *)
Theorem load_reads_only key fallback b :
  exists v,
    loadFromStorage key fallback b = (Normal v, b)
    /\ (v = fallback
        \/ exists raw, localStorage b !! key = Some raw
                       /\ JSON_parse raw = Some v).
Proof.
  exists (reading (localStorage b !! key) fallback).
  split; [apply loadFromStorage_reading|].
  unfold reading. destruct (localStorage b !! key) as [raw|]; [|now left].
  destruct (truthy_string raw); [|now left].
  destruct (JSON_parse raw) as [v|] eqn:E; [right; eauto|now left].
Qed.

(** ** The contact form *)

(** X4. A file that cannot be read: no message is sent and nothing is
    stored; the form keeps what was typed, shows "Failed to send
    message." and is no longer sending. *)
Theorem submit_unreadable_file {Q : Quota} rand now c f app b :
  file c = Some f -> file_read f = None ->
  handleSubmit rand now c app b
  = (Normal ({| name := name c; email := email c; subject := subject c;
                message := message c; file := file c; sending := false;
                status := Some {| ok := false;
                                  status_text := "Failed to send message." |} |},
             app), b).
Proof.
  intros Hf Hr. unfold handleSubmit, bind, try_catch, readFileAsBase64.
  rewrite Hf, Hr. reflexivity.
Qed.

Lemma submit_unreadable_file_witness :
  let f := {| file_name := "scan.pdf"; file_size := 2048; file_read := None |} in
  let c := {| name := "Ada"; email := ""; subject := ""; message := "see file";
              file := Some f; sending := false; status := None |} in
  file c = Some f /\ file_read f = None /\
  handleSubmit "k3x9a1b" "2024-05-01T10:00:00.000Z" c sample_app sample_browser
  = (Normal ({| name := "Ada"; email := ""; subject := ""; message := "see file";
                file := Some f; sending := false;
                status := Some {| ok := false;
                                  status_text := "Failed to send message." |} |},
             sample_app), sample_browser).
Proof.
  cbv zeta. split; [reflexivity|]. split; [reflexivity|].
  apply (submit_unreadable_file "k3x9a1b" "2024-05-01T10:00:00.000Z"
           {| name := "Ada"; email := ""; subject := ""; message := "see file";
              file := Some {| file_name := "scan.pdf"; file_size := 2048;
                              file_read := None |};
              sending := false; status := None |}
           {| file_name := "scan.pdf"; file_size := 2048; file_read := None |}
           sample_app sample_browser); reflexivity.
Defined.

(** X5. A submission with no file, or with a file that reads.  One
    message is made, with the identifier drawn, the name and the subject
    as typed or their defaults when empty, the email and the body as
    typed, the attachment or null, the time and the status "unread".
    When the quota lets the storage hold the messages with this one
    after them, the message is added, the form is cleared and shows
    "Message sent. The rep will contact you."; resources and
    announcements stay, and the storage changes under [sr_messages]
    only.  When it does not, the effect that stores the messages throws:
    the error does not reach the handler, which reports no failure, the
    application is unmounted and the storage is as it was. *)
Theorem submit_sends {Q : Quota} rand now c app b fileData :
  (file c = None /\ fileData = JNull)
  \/ (exists f data,
         file c = Some f /\ file_read f = Some data
         /\ fileData = JObj [("name", JStr (file_name f));
                             ("size", JStr (size_KB (file_size f)));
                             ("data", JStr data)]) ->
  let msg : Obj :=
    [("id", JStr (uid "msg" rand));
     ("name", JStr (match name c with
                    | EmptyString => "Anonymous"
                    | _ => name c
                    end));
     ("email", JStr (email c));
     ("subject", JStr (match subject c with
                       | EmptyString => "General"
                       | _ => subject c
                       end));
     ("message", JStr (message c));
     ("file", fileData);
     ("createdAt", JStr now);
     ("status", JStr "unread")] in
  let text := JSON_stringify (collection (messages app ++ [msg])) in
  (within_quota (<["sr_messages" := text]> (localStorage b)) = true ->
   handleSubmit rand now c app b
   = (Normal ({| name := ""; email := ""; subject := ""; message := "";
                 file := None; sending := false;
                 status := Some {| ok := true;
                                   status_text := "Message sent. The rep will contact you." |} |},
              {| route := route app; messages := messages app ++ [msg];
                 resources := resources app; infos := infos app |}),
      stored "sr_messages" text b))
  /\ (within_quota (<["sr_messages" := text]> (localStorage b)) = false ->
      handleSubmit rand now c app b = (Unmounted QuotaExceededError, b)).
Proof.
  intros H msg text.
  assert (Em : msg = [("id", JStr (uid "msg" rand));
                      ("name", JStr (or_string (name c) "Anonymous"));
                      ("email", JStr (email c));
                      ("subject", JStr (or_string (subject c) "General"));
                      ("message", JStr (message c));
                      ("file", fileData);
                      ("createdAt", JStr now);
                      ("status", JStr "unread")]).
  { subst msg. unfold or_string. destruct (name c), (subject c); reflexivity. }
  assert (Run : handleSubmit rand now c app b
                = (let* r :=
                     try_catch
                       (let* app' := handleSendMessage msg app in
                        ret ({| name := ""; email := ""; subject := ""; message := "";
                                file := None; sending := true;
                                status := Some {| ok := true;
                                                  status_text := "Message sent. The rep will contact you." |} |},
                             app'))
                       (fun _ =>
                          ret ({| name := name c; email := email c; subject := subject c;
                                  message := message c; file := file c; sending := true;
                                  status := Some {| ok := false;
                                                    status_text := "Failed to send message." |} |},
                               app)) in
                   let c' := fst r in
                   ret ({| name := name c'; email := email c'; subject := subject c';
                           message := message c'; file := file c'; sending := false;
                           status := status c' |}, snd r)) b).
  { rewrite Em. unfold handleSubmit, bind, try_catch, readFileAsBase64.
    destruct H as [[Hf ->]|(f & data & Hf & Hr & ->)]; rewrite Hf.
    - reflexivity.
    - rewrite Hr. reflexivity. }
  rewrite Run. unfold bind, try_catch, handleSendMessage.
  split; intros Hq.
  - now rewrite (setMessages_accepted _ _ _ Hq).
  - now rewrite (setMessages_refused _ _ _ Hq).
Qed.

Lemma submit_sends_witness :
  let f := {| file_name := "scan.pdf"; file_size := 2048;
              file_read := Some "data:application/pdf;base64,JVBERg==" |} in
  let c := {| name := "Ada"; email := "ada@example.org"; subject := "";
              message := "see file"; file := Some f; sending := false;
              status := None |} in
  let fileData := JObj [("name", JStr "scan.pdf"); ("size", JStr "2 KB");
                        ("data", JStr "data:application/pdf;base64,JVBERg==")] in
  let msg : Obj :=
    [("id", JStr "msg_k3x9a1b"); ("name", JStr "Ada");
     ("email", JStr "ada@example.org"); ("subject", JStr "General");
     ("message", JStr "see file"); ("file", fileData);
     ("createdAt", JStr "2024-05-01T10:00:00.000Z"); ("status", JStr "unread")] in
  let text := JSON_stringify (collection (messages sample_app ++ [msg])) in
  @within_quota (at_most 600)
    (<["sr_messages" := text]> (localStorage sample_browser)) = true
  /\ @handleSubmit (at_most 600) "k3x9a1b" "2024-05-01T10:00:00.000Z" c
       sample_app sample_browser
     = (Normal ({| name := ""; email := ""; subject := ""; message := "";
                   file := None; sending := false;
                   status := Some {| ok := true;
                                     status_text := "Message sent. The rep will contact you." |} |},
                {| route := route sample_app;
                   messages := messages sample_app ++ [msg];
                   resources := resources sample_app;
                   infos := infos sample_app |}),
        stored "sr_messages" text sample_browser)
  /\ @within_quota (at_most 300)
       (<["sr_messages" := text]> (localStorage sample_browser)) = false
  /\ @handleSubmit (at_most 300) "k3x9a1b" "2024-05-01T10:00:00.000Z" c
       sample_app sample_browser
     = (Unmounted QuotaExceededError, sample_browser).
Proof.
  cbv zeta.
  set (f := {| file_name := "scan.pdf"; file_size := 2048;
               file_read := Some "data:application/pdf;base64,JVBERg==" |}).
  set (c := {| name := "Ada"; email := "ada@example.org"; subject := "";
               message := "see file"; file := Some f; sending := false;
               status := None |}).
  set (fileData := JObj [("name", JStr "scan.pdf"); ("size", JStr "2 KB");
                         ("data", JStr "data:application/pdf;base64,JVBERg==")]).
  assert (Hf : (file c = None /\ fileData = JNull)
               \/ (exists f data,
                      file c = Some f /\ file_read f = Some data
                      /\ fileData = JObj [("name", JStr (file_name f));
                                          ("size", JStr (size_KB (file_size f)));
                                          ("data", JStr data)])).
  { right. exists f, "data:application/pdf;base64,JVBERg=="%string.
    repeat split. }
  pose proof (submit_sends (Q := at_most 600) "k3x9a1b"
                "2024-05-01T10:00:00.000Z" c sample_app sample_browser fileData Hf)
    as [Ok _].
  pose proof (submit_sends (Q := at_most 300) "k3x9a1b"
                "2024-05-01T10:00:00.000Z" c sample_app sample_browser fileData Hf)
    as [_ No].
  cbv zeta in Ok, No.
  assert (Hq : @within_quota (at_most 600)
                 (<["sr_messages" :=
                      JSON_stringify
                        (collection
                           (messages sample_app
                            ++ [[("id", JStr "msg_k3x9a1b"); ("name", JStr "Ada");
                                 ("email", JStr "ada@example.org");
                                 ("subject", JStr "General");
                                 ("message", JStr "see file"); ("file", fileData);
                                 ("createdAt", JStr "2024-05-01T10:00:00.000Z");
                                 ("status", JStr "unread")]]))]>
                    (localStorage sample_browser)) = true)
    by (vm_compute; reflexivity).
  assert (Hn : @within_quota (at_most 300)
                 (<["sr_messages" :=
                      JSON_stringify
                        (collection
                           (messages sample_app
                            ++ [[("id", JStr "msg_k3x9a1b"); ("name", JStr "Ada");
                                 ("email", JStr "ada@example.org");
                                 ("subject", JStr "General");
                                 ("message", JStr "see file"); ("file", fileData);
                                 ("createdAt", JStr "2024-05-01T10:00:00.000Z");
                                 ("status", JStr "unread")]]))]>
                    (localStorage sample_browser)) = false)
    by (vm_compute; reflexivity).
  split; [exact Hq|]. split; [exact (Ok Hq)|]. split; [exact Hn|exact (No Hn)].
Defined.

(** ** The handlers of App *)

(** X6. [handlePostInfo] with a type that is neither "resource" nor
    "info" does nothing: the collections and the browser stay as they
    are, and the payload is dropped without a word. *)
Theorem post_info_unknown_type {Q : Quota} type payload app b :
  type <> "resource"%string -> type <> "info"%string ->
  handlePostInfo type payload app b = (Normal app, b).
Proof.
  intros Hr Hi. unfold handlePostInfo, bind.
  apply String.eqb_neq in Hr, Hi. rewrite Hr. cbn [ret]. now rewrite Hi.
Qed.

Lemma post_info_unknown_type_witness :
  "Resource"%string <> "resource"%string /\ "Resource"%string <> "info"%string /\
  handlePostInfo "Resource" (entry "res_eeeeeee" "map.png") sample_app sample_browser
  = (Normal sample_app, sample_browser).
Proof.
  split; [discriminate|]. split; [discriminate|].
  apply (post_info_unknown_type "Resource"); discriminate.
Defined.

Lemma filter_filter_same {A} (f : A -> bool) l :
  List.filter f (List.filter f l) = List.filter f l.
Proof.
  induction l as [|x l IH]; [reflexivity|]. cbn.
  destruct (f x) eqn:E; [|exact IH]. cbn. now rewrite E, IH.
Qed.

Lemma filter_filter_comm {A} (f g : A -> bool) l :
  List.filter f (List.filter g l) = List.filter g (List.filter f l).
Proof.
  induction l as [|x l IH]; [reflexivity|]. cbn.
  destruct (g x) eqn:Eg, (f x) eqn:Ef; cbn; rewrite ?Eg, ?Ef, IH; reflexivity.
Qed.

Lemma filter_app_fresh id (l : list Obj) m :
  Forall (fun x => ~ has_id id x) l -> has_id id m ->
  List.filter (id_differs id) (l ++ [m]) = l.
Proof.
  intros Hl Hm. rewrite List.filter_app. cbn.
  apply id_differs_false in Hm. rewrite Hm, app_nil_r.
  now apply filter_absent.
Qed.

(** X7. Deleting twice is deleting once: a second confirmed delete of
    the same identifier changes neither the collection nor the storage. *)
Theorem delete_twice id app b :
  (let* app1 := handleDeleteMessage true id app in
   handleDeleteMessage true id app1) b
  = handleDeleteMessage true id app b
  /\ (let* app1 := handleDeleteResource true id app in
      handleDeleteResource true id app1) b
     = handleDeleteResource true id app b.
Proof.
  split; unfold bind; cbn; rewrite filter_filter_same;
    unfold stored; cbn; now rewrite insert_insert_eq.
Qed.

(** X8. Deletes commute: two confirmed deletes leave the same
    collections and the same browser in either order, be they of two
    messages, of two resources, or of a message and a resource. *)
Theorem deletes_commute id1 id2 app b :
  (let* app1 := handleDeleteMessage true id1 app in
   handleDeleteMessage true id2 app1) b
  = (let* app1 := handleDeleteMessage true id2 app in
     handleDeleteMessage true id1 app1) b
  /\ (let* app1 := handleDeleteResource true id1 app in
      handleDeleteResource true id2 app1) b
     = (let* app1 := handleDeleteResource true id2 app in
        handleDeleteResource true id1 app1) b
  /\ (let* app1 := handleDeleteMessage true id1 app in
      handleDeleteResource true id2 app1) b
     = (let* app1 := handleDeleteResource true id2 app in
        handleDeleteMessage true id1 app1) b.
Proof.
  repeat split; unfold bind; cbn.
  - rewrite (filter_filter_comm (id_differs id2) (id_differs id1)).
    now rewrite !insert_insert_eq.
  - rewrite (filter_filter_comm (id_differs id2) (id_differs id1)).
    now rewrite !insert_insert_eq.
  - now rewrite insert_insert_ne by discriminate.
Qed.

(** X9. Sending and deleting cancel out: when no message carries the
    identifier of the message sent, deleting that identifier afterwards
    gives back the collections as they were, and the storage holds
    them. *)
Theorem send_then_delete id msg app b :
  has_id id msg ->
  Forall (fun m => ~ has_id id m) (messages app) ->
  (let* app1 := handleSendMessage msg app in
   handleDeleteMessage true id app1) b
  = (Normal app,
     stored "sr_messages" (JSON_stringify (collection (messages app))) b).
Proof.
  intros Hm Hl. unfold bind. cbn.
  rewrite (filter_app_fresh id _ _ Hl Hm).
  unfold stored. rewrite insert_insert_eq. now destruct app.
Qed.

Lemma send_then_delete_witness :
  let msg := entry "msg_zzzzzzz" "third" in
  has_id "msg_zzzzzzz" msg /\
  Forall (fun m => ~ has_id "msg_zzzzzzz" m) (messages sample_app) /\
  (let* app1 := handleSendMessage msg sample_app in
   handleDeleteMessage true "msg_zzzzzzz" app1) sample_browser
  = (Normal sample_app, sample_browser).
Proof.
  cbv zeta.
  assert (H1 : has_id "msg_zzzzzzz" (entry "msg_zzzzzzz" "third")) by reflexivity.
  assert (H2 : Forall (fun m => ~ has_id "msg_zzzzzzz" m) (messages sample_app)).
  { repeat constructor; discriminate. }
  split; [exact H1|]. split; [exact H2|].
  rewrite (send_then_delete "msg_zzzzzzz" _ sample_app sample_browser H1 H2).
  reflexivity.
Defined.

Lemma collections_only_refl b : collections_only b b.
Proof. repeat split. Qed.

Lemma collections_only_trans b1 b2 b3 :
  collections_only b1 b2 -> collections_only b2 b3 -> collections_only b1 b3.
Proof.
  intros (A1 & R1 & K1) (A2 & R2 & K2). repeat split; try congruence.
  intros k H1 H2 H3. rewrite K2, K1 by assumption. reflexivity.
Qed.

Lemma collections_only_stored key value b :
  key = "sr_messages"%string \/ key = "sr_resources"%string
  \/ key = "sr_infos"%string ->
  collections_only b (stored key value b).
Proof.
  intros H. repeat split. intros k H1 H2 H3. cbn.
  apply lookup_insert_ne. destruct H as [->|[->| ->]]; congruence.
Qed.

(** One callback: it completes, with the storage in step with the
    collections, or a write is refused and the application is unmounted,
    the storage still holding the collections of a state that was; it
    touches nothing else. *)
Lemma perform_step {Q : Quota} act app b :
  persisted b app ->
  (exists app' b',
      perform act app b = (Normal app', b')
      /\ persisted b' app' /\ route app' = route app /\ collections_only b b')
  \/ (exists app0 b',
         perform act app b = (Unmounted QuotaExceededError, b')
         /\ persisted b' app0 /\ collections_only b b'
         /\ exists st, within_quota st = false).
Proof.
  assert (Sm : forall f app b, persisted b app ->
             (exists app' b',
                 setMessages f app b = (Normal app', b')
                 /\ persisted b' app' /\ route app' = route app
                 /\ collections_only b b')
             \/ (exists app0 b',
                    setMessages f app b = (Unmounted QuotaExceededError, b')
                    /\ persisted b' app0 /\ collections_only b b'
                    /\ exists st, within_quota st = false)).
  { intros f app0 b0 P0.
    destruct (within_quota
                (<["sr_messages" := JSON_stringify (collection (f (messages app0)))]>
                   (localStorage b0))) eqn:E.
    - left. eexists _, _. split; [now apply setMessages_accepted|].
      destruct P0 as (Pm & Pr & Pi). split; [|split; [reflexivity|]].
      + unfold persisted. cbn.
        rewrite lookup_insert_eq, !lookup_insert_ne by discriminate. auto.
      + apply collections_only_stored. auto.
    - right. exists app0, b0. split; [now apply setMessages_refused|].
      split; [exact P0|]. split; [apply collections_only_refl|eauto]. }
  assert (Sr : forall f app b, persisted b app ->
             (exists app' b',
                 setResources f app b = (Normal app', b')
                 /\ persisted b' app' /\ route app' = route app
                 /\ collections_only b b')
             \/ (exists app0 b',
                    setResources f app b = (Unmounted QuotaExceededError, b')
                    /\ persisted b' app0 /\ collections_only b b'
                    /\ exists st, within_quota st = false)).
  { intros f app0 b0 P0.
    destruct (within_quota
                (<["sr_resources" := JSON_stringify (collection (f (resources app0)))]>
                   (localStorage b0))) eqn:E.
    - left. eexists _, _. split; [now apply setResources_accepted|].
      destruct P0 as (Pm & Pr & Pi). split; [|split; [reflexivity|]].
      + unfold persisted. cbn.
        rewrite lookup_insert_eq, !lookup_insert_ne by discriminate. auto.
      + apply collections_only_stored. auto.
    - right. exists app0, b0. split; [now apply setResources_refused|].
      split; [exact P0|]. split; [apply collections_only_refl|eauto]. }
  assert (Si : forall f app b, persisted b app ->
             (exists app' b',
                 setInfos f app b = (Normal app', b')
                 /\ persisted b' app' /\ route app' = route app
                 /\ collections_only b b')
             \/ (exists app0 b',
                    setInfos f app b = (Unmounted QuotaExceededError, b')
                    /\ persisted b' app0 /\ collections_only b b'
                    /\ exists st, within_quota st = false)).
  { intros f app0 b0 P0.
    destruct (within_quota
                (<["sr_infos" := JSON_stringify (collection (f (infos app0)))]>
                   (localStorage b0))) eqn:E.
    - left. eexists _, _. split; [now apply setInfos_accepted|].
      destruct P0 as (Pm & Pr & Pi). split; [|split; [reflexivity|]].
      + unfold persisted. cbn.
        rewrite lookup_insert_eq, !lookup_insert_ne by discriminate. auto.
      + apply collections_only_stored. auto.
    - right. exists app0, b0. split; [now apply setInfos_refused|].
      split; [exact P0|]. split; [apply collections_only_refl|eauto]. }
  intros P.
  assert (Id : (exists app' b',
                   ret app b = (Normal app', b')
                   /\ persisted b' app' /\ route app' = route app
                   /\ collections_only b b')
               \/ (exists app0 b',
                      ret app b = (Unmounted QuotaExceededError, b')
                      /\ persisted b' app0 /\ collections_only b b'
                      /\ exists st, within_quota st = false)).
  { left. exists app, b. split; [reflexivity|]. split; [exact P|].
    split; [reflexivity|apply collections_only_refl]. }
  destruct act as [msg|[|] id|[|] id|type payload]; cbn [perform].
  - apply Sm, P.
  - apply Sm, P.
  - exact Id.
  - apply Sr, P.
  - exact Id.
  - unfold handlePostInfo, bind.
    destruct (String.eqb type "resource").
    + destruct (Sr (fun prev => prev ++ [payload]) app b P)
        as [(app1 & b1 & -> & P1 & R1 & C1)|(app0 & b1 & -> & P1 & C1 & N1)].
      * destruct (String.eqb type "info"); [|left; exists app1, b1; auto].
        destruct (Si (fun prev => prev ++ [payload]) app1 b1 P1)
          as [(app2 & b2 & E2 & P2 & R2 & C2)|(app0 & b2 & E2 & P2 & C2 & N2)].
        -- left. exists app2, b2. split; [exact E2|]. split; [exact P2|].
           split; [congruence|]. eapply collections_only_trans; eassumption.
        -- right. exists app0, b2. split; [exact E2|]. split; [exact P2|].
           split; [eapply collections_only_trans; eassumption|exact N2].
      * right. exists app0, b1. auto.
    + cbn [ret]. destruct (String.eqb type "info"); [|exact Id].
      apply Si, P.
Qed.



(** ** The admin gate, again *)


(** X12. The gate trusts the flag stored.  Whatever valid JSON value is
    stored under [sr_admin_logged], a page load makes it the state of the
    gate as it is; when the value is truthy (a number other than 0, a
    non-empty string, an array, an object), the panel is shown with
    every message and resource, and no password has been asked. *)
Theorem gate_trusts_flag v b (h : Heap) r_messages r_resources ms rs :
  valid v = true ->
  localStorage b !! "sr_admin_logged" = Some (JSON_stringify v) ->
  truthy v = true ->
  h !! r_messages = Some ms -> h !! r_resources = Some rs ->
  Admin_mount b = (Normal {| loggedIn := v; pw := "" |}, b)
  /\ exists h',
       Admin_view {| loggedIn := v; pw := "" |} r_messages r_resources h
       = (Normal (Panel (length ms)
                    (list_view "No messages yet." (map message_item (rev ms)))
                    (length rs)
                    (Items (map resource_item (rev rs)))), h').
Proof.
  intros Hv Hs Ht Hm Hr. split.
  - unfold Admin_mount, Admin_effect, bind.
    rewrite loadFromStorage_reading, Hs, reading_stringify by exact Hv.
    reflexivity.
  - destruct (Admin_view_run h {| loggedIn := v; pw := "" |} r_messages
                r_resources ms rs Ht Hm Hr) as (h' & E & _).
    exists h'. exact E.
Qed.

Lemma gate_trusts_flag_witness :
  let b := stored "sr_admin_logged" "1" sample_browser in
  valid (JNum 1) = true
  /\ localStorage b !! "sr_admin_logged" = Some (JSON_stringify (JNum 1))
  /\ truthy (JNum 1) = true
  /\ Admin_mount b = (Normal {| loggedIn := JNum 1; pw := "" |}, b)
  /\ exists h',
       Admin_view {| loggedIn := JNum 1; pw := "" |} 3%positive 2%positive
         sample_heap
       = (Normal (Panel 2 (Items [message_item (entry "msg_bbbbbbb" "second");
                                  message_item (entry "msg_aaaaaaa" "first")])
                    1 (Items [resource_item (entry "res_ccccccc" "notes.pdf")])),
          h').
Proof.
  cbv zeta.
  assert (H1 : valid (JNum 1) = true) by reflexivity.
  assert (H2 : localStorage (stored "sr_admin_logged" "1" sample_browser)
                 !! "sr_admin_logged" = Some (JSON_stringify (JNum 1)))
    by (vm_compute; reflexivity).
  assert (H3 : truthy (JNum 1) = true) by reflexivity.
  repeat (split; [assumption|]).
  exact (gate_trusts_flag (JNum 1) _ sample_heap 3%positive 2%positive
           (messages sample_app) (resources sample_app) H1 H2 H3 eq_refl eq_refl).
Defined.

(** ** The admin panel *)

(** X13. An upload that does not go through posts nothing.  With no
    file chosen the handler alerts "Choose a file first." and changes
    nothing else; with a file that cannot be read it shows "Upload
    failed.", keeps the file chosen and leaves the browser as it is.
    The collections are untouched in both cases. *)
Theorem upload_not_done {Q : Quota} rand now p app b :
  (AdminPanel.uploadFile p = None ->
   AdminPanel.handleUpload rand now p app b
   = (Normal (p, app), alerted "Choose a file first." b))
  /\ (forall f,
        AdminPanel.uploadFile p = Some f -> file_read f = None ->
        AdminPanel.handleUpload rand now p app b
        = (Normal ({| AdminPanel.newTitle := AdminPanel.newTitle p;
                      AdminPanel.newBody := AdminPanel.newBody p;
                      AdminPanel.uploadFile := Some f;
                      AdminPanel.uploading := false;
                      AdminPanel.status :=
                        Some {| ok := false; status_text := "Upload failed." |};
                      AdminPanel.admin_file := AdminPanel.admin_file p |},
                   app), b)).
Proof.
  split.
  - intros H. unfold AdminPanel.handleUpload. rewrite H. reflexivity.
  - intros f H Hr. unfold AdminPanel.handleUpload. rewrite H.
    unfold bind, try_catch, readFileAsBase64. rewrite Hr. reflexivity.
Qed.

Lemma upload_not_done_witness :
  let f := {| file_name := "notes.pdf"; file_size := 2048; file_read := None |} in
  let p := {| AdminPanel.newTitle := "t"; AdminPanel.newBody := "";
              AdminPanel.uploadFile := Some f; AdminPanel.uploading := false;
              AdminPanel.status := None;
              AdminPanel.admin_file := "C:\fakepath\notes.pdf" |} in
  AdminPanel.uploadFile p = Some f /\ file_read f = None /\
  AdminPanel.handleUpload "k3x9a1b" "2024-05-01T10:00:00.000Z" p sample_app
    sample_browser
  = (Normal ({| AdminPanel.newTitle := "t"; AdminPanel.newBody := "";
                AdminPanel.uploadFile := Some f; AdminPanel.uploading := false;
                AdminPanel.status :=
                  Some {| ok := false; status_text := "Upload failed." |};
                AdminPanel.admin_file := "C:\fakepath\notes.pdf" |},
             sample_app), sample_browser).
Proof.
  cbv zeta. split; [reflexivity|]. split; [reflexivity|].
  apply (proj2 (upload_not_done "k3x9a1b" "2024-05-01T10:00:00.000Z"
                  {| AdminPanel.newTitle := "t"; AdminPanel.newBody := "";
                     AdminPanel.uploadFile :=
                       Some {| file_name := "notes.pdf"; file_size := 2048;
                               file_read := None |};
                     AdminPanel.uploading := false; AdminPanel.status := None;
                     AdminPanel.admin_file := "C:\fakepath\notes.pdf" |}
                  sample_app sample_browser)
               {| file_name := "notes.pdf"; file_size := 2048; file_read := None |});
    reflexivity.
Defined.

(** X14. An upload of a file that reads.  One resource is made, with
    the identifier drawn, the name of the file, its size in KB, its
    content as read and the time.  When the quota lets the storage hold
    the resources with this one after them, the resource is added;
    messages and announcements stay, the storage changes under
    [sr_resources] only, the panel shows "File uploaded." and the file
    input is cleared.  When it does not, the effect that stores the
    resources throws: the handler reports no failure, the application is
    unmounted and the storage is as it was. *)
Theorem upload_posts {Q : Quota} rand now p f data app b :
  AdminPanel.uploadFile p = Some f -> file_read f = Some data ->
  let res : Obj :=
    [("id", JStr (uid "res" rand)); ("name", JStr (file_name f));
     ("size", JStr (size_KB (file_size f))); ("data", JStr data);
     ("createdAt", JStr now)] in
  let text := JSON_stringify (collection (resources app ++ [res])) in
  (within_quota (<["sr_resources" := text]> (localStorage b)) = true ->
   AdminPanel.handleUpload rand now p app b
   = (Normal ({| AdminPanel.newTitle := AdminPanel.newTitle p;
                 AdminPanel.newBody := AdminPanel.newBody p;
                 AdminPanel.uploadFile := None;
                 AdminPanel.uploading := false;
                 AdminPanel.status :=
                   Some {| ok := true; status_text := "File uploaded." |};
                 AdminPanel.admin_file := "" |},
              {| route := route app; messages := messages app;
                 resources := resources app ++ [res]; infos := infos app |}),
      stored "sr_resources" text b))
  /\ (within_quota (<["sr_resources" := text]> (localStorage b)) = false ->
      AdminPanel.handleUpload rand now p app b
      = (Unmounted QuotaExceededError, b)).
Proof.
  intros H Hr res text.
  unfold AdminPanel.handleUpload. rewrite H.
  unfold bind, try_catch, readFileAsBase64. rewrite Hr.
  cbn [or_throw ret]. unfold handlePostInfo, bind.
  cbn [String.eqb Ascii.eqb Bool.eqb].
  split; intros Hq.
  - now rewrite (setResources_accepted _ _ _ Hq).
  - now rewrite (setResources_refused _ _ _ Hq).
Qed.

Lemma upload_posts_witness :
  let f := {| file_name := "notes.pdf"; file_size := 2048;
              file_read := Some "data:application/pdf;base64,JVBERg==" |} in
  let p := {| AdminPanel.newTitle := ""; AdminPanel.newBody := "";
              AdminPanel.uploadFile := Some f; AdminPanel.uploading := false;
              AdminPanel.status := None; AdminPanel.admin_file := "notes.pdf" |} in
  let res : Obj :=
    [("id", JStr "res_k3x9a1b"); ("name", JStr "notes.pdf");
     ("size", JStr "2 KB");
     ("data", JStr "data:application/pdf;base64,JVBERg==");
     ("createdAt", JStr "2024-05-01T10:00:00.000Z")] in
  let text := JSON_stringify (collection (resources sample_app ++ [res])) in
  AdminPanel.uploadFile p = Some f
  /\ file_read f = Some "data:application/pdf;base64,JVBERg=="%string
  /\ @within_quota (at_most 600)
       (<["sr_resources" := text]> (localStorage sample_browser)) = true
  /\ @AdminPanel.handleUpload (at_most 600) "k3x9a1b" "2024-05-01T10:00:00.000Z"
       p sample_app sample_browser
     = (Normal ({| AdminPanel.newTitle := ""; AdminPanel.newBody := "";
                   AdminPanel.uploadFile := None; AdminPanel.uploading := false;
                   AdminPanel.status :=
                     Some {| ok := true; status_text := "File uploaded." |};
                   AdminPanel.admin_file := "" |},
                {| route := route sample_app; messages := messages sample_app;
                   resources := resources sample_app ++ [res];
                   infos := infos sample_app |}),
        stored "sr_resources" text sample_browser).
Proof.
  cbv zeta.
  set (f := {| file_name := "notes.pdf"; file_size := 2048;
               file_read := Some "data:application/pdf;base64,JVBERg==" |}).
  set (p := {| AdminPanel.newTitle := ""; AdminPanel.newBody := "";
               AdminPanel.uploadFile := Some f; AdminPanel.uploading := false;
               AdminPanel.status := None; AdminPanel.admin_file := "notes.pdf" |}).
  assert (H1 : AdminPanel.uploadFile p = Some f) by reflexivity.
  assert (H2 : file_read f = Some "data:application/pdf;base64,JVBERg=="%string)
    by reflexivity.
  split; [exact H1|]. split; [exact H2|].
  pose proof (upload_posts (Q := at_most 600) "k3x9a1b" "2024-05-01T10:00:00.000Z"
                p f _ sample_app sample_browser H1 H2) as [Ok _].
  cbv zeta in Ok.
  assert (Hq : @within_quota (at_most 600)
                 (<["sr_resources" :=
                      JSON_stringify
                        (collection
                           (resources sample_app
                            ++ [[("id", JStr (uid "res" "k3x9a1b"));
                                 ("name", JStr (file_name f));
                                 ("size", JStr (size_KB (file_size f)));
                                 ("data", JStr "data:application/pdf;base64,JVBERg==");
                                 ("createdAt", JStr "2024-05-01T10:00:00.000Z")]]))]>
                    (localStorage sample_browser)) = true)
    by (vm_compute; reflexivity).
  split; [exact Hq|exact (Ok Hq)].
Defined.

(** X15. An announcement with no title or no body is not posted: the
    handler alerts "Please fill title and body." and changes nothing
    else, what was typed stays. *)
Theorem announcement_refused {Q : Quota} rand now p app b :
  AdminPanel.newTitle p = ""%string \/ AdminPanel.newBody p = ""%string ->
  AdminPanel.postAnnouncement rand now p app b
  = (Normal (p, app), alerted "Please fill title and body." b).
Proof.
  intros H. unfold AdminPanel.postAnnouncement.
  destruct H as [-> | ->]; cbn [truthy_string negb orb]; [reflexivity|].
  rewrite orb_true_r. reflexivity.
Qed.

Lemma announcement_refused_witness :
  let p := {| AdminPanel.newTitle := "Exams"; AdminPanel.newBody := "";
              AdminPanel.uploadFile := None; AdminPanel.uploading := false;
              AdminPanel.status := None; AdminPanel.admin_file := "" |} in
  (AdminPanel.newTitle p = ""%string \/ AdminPanel.newBody p = ""%string)
  /\ AdminPanel.postAnnouncement "k3x9a1b" "2024-05-01T10:00:00.000Z" p
       sample_app sample_browser
     = (Normal (p, sample_app), alerted "Please fill title and body." sample_browser).
Proof.
  cbv zeta.
  assert (H : AdminPanel.newTitle
                {| AdminPanel.newTitle := "Exams"; AdminPanel.newBody := "";
                   AdminPanel.uploadFile := None; AdminPanel.uploading := false;
                   AdminPanel.status := None; AdminPanel.admin_file := "" |}
              = ""%string
              \/ AdminPanel.newBody
                   {| AdminPanel.newTitle := "Exams"; AdminPanel.newBody := "";
                      AdminPanel.uploadFile := None; AdminPanel.uploading := false;
                      AdminPanel.status := None; AdminPanel.admin_file := "" |}
                 = ""%string) by (right; reflexivity).
  split; [exact H|].
  exact (announcement_refused "k3x9a1b" "2024-05-01T10:00:00.000Z" _
           sample_app sample_browser H).
Defined.

(** X16. An announcement with a title and a body.  One announcement is
    made, with the identifier drawn, the title, the body and the time.
    When the quota lets the storage hold the announcements with this one
    after them, it is added; messages and resources stay, the storage
    changes under [sr_infos] only, the two fields are cleared and the
    panel shows "Announcement posted.".  When it does not, the effect
    that stores the announcements throws: the application is unmounted
    and the storage is as it was. *)
Theorem announcement_posts {Q : Quota} rand now p app b :
  AdminPanel.newTitle p <> ""%string -> AdminPanel.newBody p <> ""%string ->
  let info : Obj :=
    [("id", JStr (uid "info" rand));
     ("title", JStr (AdminPanel.newTitle p));
     ("body", JStr (AdminPanel.newBody p));
     ("createdAt", JStr now)] in
  let text := JSON_stringify (collection (infos app ++ [info])) in
  (within_quota (<["sr_infos" := text]> (localStorage b)) = true ->
   AdminPanel.postAnnouncement rand now p app b
   = (Normal ({| AdminPanel.newTitle := ""; AdminPanel.newBody := "";
                 AdminPanel.uploadFile := AdminPanel.uploadFile p;
                 AdminPanel.uploading := AdminPanel.uploading p;
                 AdminPanel.status :=
                   Some {| ok := true; status_text := "Announcement posted." |};
                 AdminPanel.admin_file := AdminPanel.admin_file p |},
              {| route := route app; messages := messages app;
                 resources := resources app; infos := infos app ++ [info] |}),
      stored "sr_infos" text b))
  /\ (within_quota (<["sr_infos" := text]> (localStorage b)) = false ->
      AdminPanel.postAnnouncement rand now p app b
      = (Unmounted QuotaExceededError, b)).
Proof.
  intros Ht Hb info text.
  assert (Tt : truthy_string (AdminPanel.newTitle p) = true)
    by (destruct (AdminPanel.newTitle p); [congruence|reflexivity]).
  assert (Tb : truthy_string (AdminPanel.newBody p) = true)
    by (destruct (AdminPanel.newBody p); [congruence|reflexivity]).
  unfold AdminPanel.postAnnouncement. rewrite Tt, Tb. cbn [negb orb].
  unfold handlePostInfo, bind. cbn [String.eqb Ascii.eqb Bool.eqb ret].
  split; intros Hq.
  - now rewrite (setInfos_accepted _ _ _ Hq).
  - now rewrite (setInfos_refused _ _ _ Hq).
Qed.

Lemma announcement_posts_witness :
  let p := {| AdminPanel.newTitle := "Exams"; AdminPanel.newBody := "In June.";
              AdminPanel.uploadFile := None; AdminPanel.uploading := false;
              AdminPanel.status := None; AdminPanel.admin_file := "" |} in
  let info : Obj :=
    [("id", JStr "info_k3x9a1b"); ("title", JStr "Exams");
     ("body", JStr "In June.");
     ("createdAt", JStr "2024-05-01T10:00:00.000Z")] in
  let text := JSON_stringify (collection (infos sample_app ++ [info])) in
  AdminPanel.newTitle p <> ""%string /\ AdminPanel.newBody p <> ""%string
  /\ @within_quota (at_most 600)
       (<["sr_infos" := text]> (localStorage sample_browser)) = true
  /\ @AdminPanel.postAnnouncement (at_most 600) "k3x9a1b"
       "2024-05-01T10:00:00.000Z" p sample_app sample_browser
     = (Normal ({| AdminPanel.newTitle := ""; AdminPanel.newBody := "";
                   AdminPanel.uploadFile := None; AdminPanel.uploading := false;
                   AdminPanel.status :=
                     Some {| ok := true; status_text := "Announcement posted." |};
                   AdminPanel.admin_file := "" |},
                {| route := route sample_app; messages := messages sample_app;
                   resources := resources sample_app;
                   infos := infos sample_app ++ [info] |}),
        stored "sr_infos" text sample_browser).
Proof.
  cbv zeta.
  set (p := {| AdminPanel.newTitle := "Exams"; AdminPanel.newBody := "In June.";
               AdminPanel.uploadFile := None; AdminPanel.uploading := false;
               AdminPanel.status := None; AdminPanel.admin_file := "" |}).
  assert (H1 : AdminPanel.newTitle p <> ""%string) by discriminate.
  assert (H2 : AdminPanel.newBody p <> ""%string) by discriminate.
  split; [exact H1|]. split; [exact H2|].
  pose proof (announcement_posts (Q := at_most 600) "k3x9a1b"
                "2024-05-01T10:00:00.000Z" p sample_app sample_browser H1 H2)
    as [Ok _].
  cbv zeta in Ok.
  assert (Hq : @within_quota (at_most 600)
                 (<["sr_infos" :=
                      JSON_stringify
                        (collection
                           (infos sample_app
                            ++ [[("id", JStr (uid "info" "k3x9a1b"));
                                 ("title", JStr (AdminPanel.newTitle p));
                                 ("body", JStr (AdminPanel.newBody p));
                                 ("createdAt", JStr "2024-05-01T10:00:00.000Z")]]))]>
                    (localStorage sample_browser)) = true)
    by (vm_compute; reflexivity).
  split; [exact Hq|exact (Ok Hq)].
Defined.

(** ** Import and export, again *)

(** The import, by what the text of the file denotes. *)
Lemma import_onload_cases result b :
  import_onload result b
  = (Normal tt,
     match JSON_parse result with
     | None | Some JNull => alerted "Invalid file." b
     | Some (JObj o) => import_done (storage_after_import o (localStorage b)) b
     | Some _ => import_done (localStorage b) b
     end).
Proof.
  destruct (JSON_parse result) as [[| | | | | | |o]|] eqn:H;
    try (unfold import_onload, try_catch, bind; rewrite H; reflexivity).
  now rewrite (import_onload_object _ _ _ H).
Qed.

(** X17. A file that is not JSON, or that holds [null], is refused: the
    import alerts "Invalid file." and does nothing else; the storage is
    as it was and no reload is asked for. *)
Theorem import_invalid {Q : Quota} result b :
  JSON_parse result = None \/ JSON_parse result = Some JNull ->
  import_onload result b = (Normal tt, alerted "Invalid file." b).
Proof.
  intros [H|H]; unfold import_onload, try_catch, bind; rewrite H; reflexivity.
Qed.

Lemma import_invalid_witness :
  (JSON_parse "null" = None \/ JSON_parse "null" = Some JNull)
  /\ import_onload "null" sample_browser
     = (Normal tt, alerted "Invalid file." sample_browser).
Proof.
  assert (H : JSON_parse "null" = None \/ JSON_parse "null" = Some JNull)
    by (right; reflexivity).
  split; [exact H|]. exact (import_invalid "null" sample_browser H).
Defined.

(** X18. A file that holds JSON other than an object or [null] (a
    number, a string, a boolean, an array) is taken as an import with
    nothing in it: the storage stays as it was, and the import still
    reports "Import complete. Reloading..." and reloads the page. *)
Theorem import_non_object {Q : Quota} result v b :
  JSON_parse result = Some v ->
  v <> JNull -> (forall o, v <> JObj o) ->
  import_onload result b = (Normal tt, import_done (localStorage b) b).
Proof.
  intros H Hn Ho. unfold import_onload, try_catch, bind. rewrite H.
  destruct v as [| | | | | | |o]; try reflexivity; [congruence|].
  now destruct (Ho o).
Qed.

Lemma import_non_object_witness :
  JSON_parse "[1,2]" = Some (JArr [JNum 1; JNum 2])
  /\ JArr [JNum 1; JNum 2] <> JNull
  /\ (forall o, JArr [JNum 1; JNum 2] <> JObj o)
  /\ import_onload "[1,2]" sample_browser
     = (Normal tt, import_done (localStorage sample_browser) sample_browser).
Proof.
  assert (H1 : JSON_parse "[1,2]" = Some (JArr [JNum 1; JNum 2])) by reflexivity.
  assert (H2 : JArr [JNum 1; JNum 2] <> JNull) by discriminate.
  assert (H3 : forall o, JArr [JNum 1; JNum 2] <> JObj o) by discriminate.
  repeat (split; [assumption|]).
  exact (import_non_object "[1,2]" _ sample_browser H1 H2 H3).
Defined.

Lemma App_initial_run b :
  App_initial b
  = (Normal {| loaded_messages := reading (localStorage b !! "sr_messages") (JArr []);
               loaded_resources := reading (localStorage b !! "sr_resources") (JArr []);
               loaded_infos := reading (localStorage b !! "sr_infos") (JArr []) |},
     b).
Proof.
  unfold App_initial, bind. now rewrite !loadFromStorage_reading.
Qed.

(** X19. What is imported is what the application starts from.  When
    the file holds an object with three valid arrays and the quota lets
    the storage hold them, the import stores them, asks for one reload,
    and the initial state of [App] after it is these arrays, whatever
    their elements are: nothing checks that they are messages, resources
    or announcements. *)
Theorem import_then_initial {Q : Quota} result o ms rs is_ b :
  JSON_parse result = Some (JObj o) ->
  obj_get o "messages" = Some (JArr ms) -> valid (JArr ms) = true ->
  obj_get o "resources" = Some (JArr rs) -> valid (JArr rs) = true ->
  obj_get o "infos" = Some (JArr is_) -> valid (JArr is_) = true ->
  let st1 := <["sr_messages" := JSON_stringify (JArr ms)]> (localStorage b) in
  let st2 := <["sr_resources" := JSON_stringify (JArr rs)]> st1 in
  let st3 := <["sr_infos" := JSON_stringify (JArr is_)]> st2 in
  within_quota st1 = true -> within_quota st2 = true ->
  within_quota st3 = true ->
  import_onload result b = (Normal tt, import_done st3 b)
  /\ App_initial (import_done st3 b)
     = (Normal {| loaded_messages := JArr ms; loaded_resources := JArr rs;
                  loaded_infos := JArr is_ |}, import_done st3 b).
Proof.
  intros H Hm Vm Hr Vr Hi Vi st1 st2 st3 Q1 Q2 Q3. split.
  - assert (S1 : save_if_array "sr_messages" (Some (JArr ms)) b
                 = (Normal tt, with_storage st1 b))
      by exact (save_if_array_accepted "sr_messages" (Some (JArr ms)) b Q1).
    assert (S2 : save_if_array "sr_resources" (Some (JArr rs)) (with_storage st1 b)
                 = (Normal tt, with_storage st2 b))
      by exact (save_if_array_accepted "sr_resources" (Some (JArr rs))
                  (with_storage st1 b) Q2).
    assert (S3 : save_if_array "sr_infos" (Some (JArr is_)) (with_storage st2 b)
                 = (Normal tt, with_storage st3 b))
      by exact (save_if_array_accepted "sr_infos" (Some (JArr is_))
                  (with_storage st2 b) Q3).
    rewrite (import_onload_steps _ _ _ H), Hm, Hr, Hi. unfold try_catch, bind.
    rewrite S1, S2, S3. reflexivity.
  - rewrite App_initial_run. cbn [localStorage import_done]. subst st3 st2 st1.
    rewrite lookup_insert_eq, !lookup_insert_ne, lookup_insert_eq by discriminate.
    rewrite lookup_insert_ne, lookup_insert_eq by discriminate.
    now rewrite !reading_stringify.
Qed.

Lemma import_then_initial_witness :
  let o : Obj := [("messages", JArr [JNum 1; JStr "two"]); ("resources", JArr []);
                  ("infos", JArr [JObj (entry "info_ddddddd" "welcome")])] in
  let result := JSON_stringify (JObj o) in
  let st3 := <["sr_infos" :=
                 JSON_stringify (JArr [JObj (entry "info_ddddddd" "welcome")])]>
               (<["sr_resources" := JSON_stringify (JArr [])]>
                  (<["sr_messages" := JSON_stringify (JArr [JNum 1; JStr "two"])]>
                     ∅)) in
  JSON_parse result = Some (JObj o)
  /\ @within_quota (at_most 200) st3 = true
  /\ @import_onload (at_most 200) result empty_browser
     = (Normal tt, import_done st3 empty_browser)
  /\ App_initial (import_done st3 empty_browser)
     = (Normal {| loaded_messages := JArr [JNum 1; JStr "two"];
                  loaded_resources := JArr [];
                  loaded_infos := JArr [JObj (entry "info_ddddddd" "welcome")] |},
        import_done st3 empty_browser).
Proof.
  cbv zeta.
  set (o := [("messages", JArr [JNum 1; JStr "two"]); ("resources", JArr []);
             ("infos", JArr [JObj (entry "info_ddddddd" "welcome")])] : Obj).
  assert (H : JSON_parse (JSON_stringify (JObj o)) = Some (JObj o))
    by (vm_compute; reflexivity).
  split; [exact H|]. split; [vm_compute; reflexivity|].
  apply (import_then_initial (Q := at_most 200) _ o [JNum 1; JStr "two"] []
           [JObj (entry "info_ddddddd" "welcome")] empty_browser H);
    vm_compute; reflexivity.
Defined.

Lemma storage_after_save_imported key v st k :
  storage_after_save key v st !! k
  = if decide (key = k) then imported v (st !! k) else st !! k.
Proof.
  rewrite storage_after_save_lookup.
  destruct v as [[| | | | | |xs|]|]; cbn [imported]; now case_decide.
Qed.

Lemma imported_twice v old : imported v (imported v old) = imported v old.
Proof. now destruct v as [[| | | | | |xs|]|]. Qed.

Lemma storage_after_import_twice o st :
  storage_after_import o (storage_after_import o st) = storage_after_import o st.
Proof.
  apply map_eq. intros k. unfold storage_after_import.
  rewrite !storage_after_save_imported.
  repeat case_decide; rewrite ?imported_twice; congruence.
Qed.

(** X20. Importing a file a second time changes nothing in the storage:
    it holds after the second import what it held after the first, for
    every file, valid or not. *)
Theorem import_twice result b :
  localStorage (snd ((import_onload result ;;; import_onload result) b))
  = localStorage (snd (import_onload result b)).
Proof.
  unfold bind. rewrite (import_onload_cases result b).
  rewrite import_onload_cases.
  destruct (JSON_parse result) as [[| | | | | | |o]|]; try reflexivity.
  cbn [snd localStorage import_done]. apply storage_after_import_twice.
Qed.

(** ** The initial state *)

Lemma reading_unreadable key fallback b :
  unreadable key b -> reading (localStorage b !! key) fallback = fallback.
Proof.
  intros [H|(raw & H & Hp)]; rewrite H; [reflexivity|].
  cbn [reading]. rewrite Hp. now destruct (truthy_string raw).
Qed.



(** X22. A reload is stable.  When the storage holds the three
    collections and they are valid, the initial state that [App] takes
    from it is these collections, and the effects of the first render
    leave the browser exactly as it is. *)
Theorem reload_stable app b :
  persisted b app ->
  valid (collection (messages app)) = true ->
  valid (collection (resources app)) = true ->
  valid (collection (infos app)) = true ->
  App_initial b = (Normal (loaded_of app), b)
  /\ App_effects app b = (Normal tt, b).
Proof.
  intros (Pm & Pr & Pi) Vm Vr Vi. split.
  - rewrite App_initial_run, Pm, Pr, Pi. now rewrite !reading_stringify.
  - unfold App_effects, bind. rewrite !effect_save_run.
    rewrite (stored_id _ _ _ Pm), (stored_id _ _ _ Pr), (stored_id _ _ _ Pi).
    reflexivity.
Qed.

Lemma reload_stable_witness :
  persisted sample_browser sample_app
  /\ App_initial sample_browser = (Normal (loaded_of sample_app), sample_browser)
  /\ App_effects sample_app sample_browser = (Normal tt, sample_browser).
Proof.
  split; [apply App_effects_persisted|].
  apply reload_stable; [apply App_effects_persisted| | |]; reflexivity.
Defined.

(** X23. The export takes the announcements from the storage, not from
    the state.  When nothing readable is stored under [sr_infos], the
    file exported holds the messages and the resources given and an
    empty list of announcements; the export completes, changes nothing
    in the browser, and its text parses back to that object. *)
Theorem export_without_infos ms rs b :
  unreadable "sr_infos" b ->
  valid ms = true -> valid rs = true ->
  exists text,
    export_onClick ms rs b = (Normal text, b)
    /\ JSON_parse text
       = Some (JObj [("messages", ms); ("resources", rs); ("infos", JArr [])]).
Proof.
  intros Hi Vm Vr. eexists. split.
  - unfold export_onClick, bind.
    rewrite loadFromStorage_reading, reading_unreadable by exact Hi.
    reflexivity.
  - apply JSON_parse_stringify_space, valid_dump; auto.
Qed.

Lemma export_without_infos_witness :
  let ms := collection (messages sample_app) in
  let rs := collection (resources sample_app) in
  unreadable "sr_infos" empty_browser
  /\ valid ms = true /\ valid rs = true
  /\ exists text,
       export_onClick ms rs empty_browser = (Normal text, empty_browser)
       /\ JSON_parse text
          = Some (JObj [("messages", ms); ("resources", rs); ("infos", JArr [])]).
Proof.
  cbv zeta.
  assert (H1 : unreadable "sr_infos" empty_browser) by (left; reflexivity).
  assert (H2 : valid (collection (messages sample_app)) = true) by reflexivity.
  assert (H3 : valid (collection (resources sample_app)) = true) by reflexivity.
  repeat (split; [assumption|]).
  exact (export_without_infos _ _ empty_browser H1 H2 H3).
Defined.

(** ** From the forms to the pages *)

Lemma list_view_snoc placeholder (items : list Item) item :
  list_view placeholder (items ++ [item]) = Items (items ++ [item]).
Proof. now destruct items. Qed.

(** X24. An announcement posted is on the home page: the page rendered
    from the announcements after the post shows those there were, in
    their order, and then the new one, with its title, its body and its
    time. *)
Theorem announcement_on_home rand now p app b (h : Heap) r :
  AdminPanel.newTitle p <> ""%string -> AdminPanel.newBody p <> ""%string ->
  exists p' app' b',
    AdminPanel.postAnnouncement rand now p app b = (Normal (p', app'), b')
    /\ (h !! r = Some (infos app') ->
        Home r h
        = (Normal (Items (map info_article (infos app)
                          ++ [{| item_key := Some (JStr (uid "info" rand));
                                 item_cells :=
                                   [Some (JStr (AdminPanel.newTitle p));
                                    Some (JStr (AdminPanel.newBody p));
                                    Some (JStr now)] |}])), h)).
Proof.
  intros Ht Hb.
  assert (Tt : truthy_string (AdminPanel.newTitle p) = true)
    by (destruct (AdminPanel.newTitle p); [congruence|reflexivity]).
  assert (Tb : truthy_string (AdminPanel.newBody p) = true)
    by (destruct (AdminPanel.newBody p); [congruence|reflexivity]).
  eexists _, _, _. split.
  - unfold AdminPanel.postAnnouncement. rewrite Tt, Tb. reflexivity.
  - cbn [infos]. intros Hr. rewrite (Home_run _ _ _ Hr), map_app.
    cbn [map]. now rewrite list_view_snoc.
Qed.

Lemma announcement_on_home_witness :
  let p := {| AdminPanel.newTitle := "Exams"; AdminPanel.newBody := "In June.";
              AdminPanel.uploadFile := None; AdminPanel.uploading := false;
              AdminPanel.status := None; AdminPanel.admin_file := "" |} in
  let h : Heap :=
    {[ 1%positive :=
         infos sample_app
         ++ [[("id", JStr "info_k3x9a1b"); ("title", JStr "Exams");
              ("body", JStr "In June.");
              ("createdAt", JStr "2024-05-01T10:00:00.000Z")]] ]} in
  AdminPanel.newTitle p <> ""%string /\ AdminPanel.newBody p <> ""%string /\
  Home 1%positive h
  = (Normal (Items [info_article (entry "info_ddddddd" "welcome");
                    {| item_key := Some (JStr "info_k3x9a1b");
                       item_cells := [Some (JStr "Exams"); Some (JStr "In June.");
                                      Some (JStr "2024-05-01T10:00:00.000Z")] |}]),
     h).
Proof.
  cbv zeta.
  set (p := {| AdminPanel.newTitle := "Exams"; AdminPanel.newBody := "In June.";
               AdminPanel.uploadFile := None; AdminPanel.uploading := false;
               AdminPanel.status := None; AdminPanel.admin_file := "" |}).
  set (h := ({[ 1%positive :=
                  infos sample_app
                  ++ [[("id", JStr "info_k3x9a1b"); ("title", JStr "Exams");
                       ("body", JStr "In June.");
                       ("createdAt", JStr "2024-05-01T10:00:00.000Z")]] ]} : Heap)).
  assert (H1 : AdminPanel.newTitle p <> ""%string) by discriminate.
  assert (H2 : AdminPanel.newBody p <> ""%string) by discriminate.
  split; [exact H1|]. split; [exact H2|].
  destruct (announcement_on_home "k3x9a1b" "2024-05-01T10:00:00.000Z" p
              sample_app sample_browser h 1%positive H1 H2)
    as (p' & app' & b' & E & Hh).
  injection E as _ <- _. exact (Hh eq_refl).
Defined.

(** X25. A message sent is at the top of the admin's list: the list
    rendered from the messages after a submission without a file shows
    the new message first, with its subject and its name, typed or
    defaulted, its body, its email, its time and no attachment, and then
    those there were, the latest first. *)
Theorem message_on_admin_list rand now c app b (h : Heap) r :
  file c = None ->
  exists c' app' b',
    handleSubmit rand now c app b = (Normal (c', app'), b')
    /\ (h !! r = Some (messages app') ->
        exists h',
          Admin_messages r h
          = (Normal (Items ({| item_key := Some (JStr (uid "msg" rand));
                               item_cells :=
                                 [Some (JStr (or_string (subject c) "General"));
                                  Some (JStr (or_string (name c) "Anonymous"));
                                  Some (JStr (message c));
                                  Some (JStr (email c));
                                  Some (JStr now);
                                  Some JNull] |}
                            :: map message_item (rev (messages app)))), h')
          /\ arrays_kept h h').
Proof.
  intros Hf. eexists _, _, _. split.
  - unfold handleSubmit, bind, try_catch. rewrite Hf. reflexivity.
  - cbn [messages snd]. intros Hr.
    destruct (Admin_messages_run h r _ Hr) as (h' & E & K).
    exists h'. split; [|exact K]. rewrite E, rev_unit. reflexivity.
Qed.

Lemma message_on_admin_list_witness :
  let c := {| name := ""; email := "ada@example.org"; subject := "Printer";
              message := "It is broken."; file := None; sending := false;
              status := None |} in
  let h : Heap :=
    {[ 3%positive :=
         messages sample_app
         ++ [[("id", JStr "msg_k3x9a1b"); ("name", JStr "Anonymous");
              ("email", JStr "ada@example.org"); ("subject", JStr "Printer");
              ("message", JStr "It is broken."); ("file", JNull);
              ("createdAt", JStr "2024-05-01T10:00:00.000Z");
              ("status", JStr "unread")]] ]} in
  file c = None /\
  exists h',
    Admin_messages 3%positive h
    = (Normal (Items [{| item_key := Some (JStr "msg_k3x9a1b");
                         item_cells :=
                           [Some (JStr "Printer"); Some (JStr "Anonymous");
                            Some (JStr "It is broken.");
                            Some (JStr "ada@example.org");
                            Some (JStr "2024-05-01T10:00:00.000Z");
                            Some JNull] |};
                      message_item (entry "msg_bbbbbbb" "second");
                      message_item (entry "msg_aaaaaaa" "first")]), h')
    /\ arrays_kept h h'.
Proof.
  cbv zeta.
  set (c := {| name := ""; email := "ada@example.org"; subject := "Printer";
               message := "It is broken."; file := None; sending := false;
               status := None |}).
  set (h := ({[ 3%positive :=
                  messages sample_app
                  ++ [[("id", JStr "msg_k3x9a1b"); ("name", JStr "Anonymous");
                       ("email", JStr "ada@example.org"); ("subject", JStr "Printer");
                       ("message", JStr "It is broken."); ("file", JNull);
                       ("createdAt", JStr "2024-05-01T10:00:00.000Z");
                       ("status", JStr "unread")]] ]} : Heap)).
  assert (H : file c = None) by reflexivity.
  split; [exact H|].
  destruct (message_on_admin_list "k3x9a1b" "2024-05-01T10:00:00.000Z" c
              sample_app sample_browser h 3%positive H)
    as (c' & app' & b' & E & Hh).
  injection E as _ <- _. exact (Hh eq_refl).
Defined.

(** X26. A file uploaded is on the files page and in the admin's list:
    the files page rendered from the resources after the upload shows
    those there were and then the new one; the admin's list shows the
    new one first. *)
Theorem upload_on_pages rand now p f data app b (h : Heap) r :
  AdminPanel.uploadFile p = Some f -> file_read f = Some data ->
  let item :=
    {| item_key := Some (JStr (uid "res" rand));
       item_cells := [Some (JStr (file_name f));
                      Some (JStr (size_KB (file_size f)));
                      Some (JStr now); Some (JStr data);
                      Some (JStr (file_name f))] |} in
  exists p' app' b',
    AdminPanel.handleUpload rand now p app b = (Normal (p', app'), b')
    /\ (h !! r = Some (resources app') ->
        FilesPage r h
        = (Normal (Items (map resource_item (resources app) ++ [item])), h)
        /\ exists h',
             Admin_resources r h
             = (Normal (Items (item :: map resource_item (rev (resources app)))),
                h')
             /\ arrays_kept h h').
Proof.
  intros Hf Hd item. eexists _, _, _. split.
  - unfold AdminPanel.handleUpload. rewrite Hf.
    unfold bind, try_catch, readFileAsBase64. rewrite Hd. reflexivity.
  - cbn [resources snd]. intros Hr. split.
    + rewrite (FilesPage_run _ _ _ Hr), map_app. cbn [map].
      now rewrite list_view_snoc.
    + destruct (Admin_resources_run h r _ Hr) as (h' & E & K).
      exists h'. split; [|exact K]. rewrite E, rev_unit. reflexivity.
Qed.

Lemma upload_on_pages_witness :
  let f := {| file_name := "notes.pdf"; file_size := 2048;
              file_read := Some "data:application/pdf;base64,JVBERg==" |} in
  let p := {| AdminPanel.newTitle := ""; AdminPanel.newBody := "";
              AdminPanel.uploadFile := Some f; AdminPanel.uploading := false;
              AdminPanel.status := None; AdminPanel.admin_file := "notes.pdf" |} in
  let h : Heap :=
    {[ 2%positive :=
         [[("id", JStr "res_k3x9a1b"); ("name", JStr "notes.pdf");
           ("size", JStr "2 KB");
           ("data", JStr "data:application/pdf;base64,JVBERg==");
           ("createdAt", JStr "2024-05-01T10:00:00.000Z")]] ]} in
  AdminPanel.uploadFile p = Some f
  /\ file_read f = Some "data:application/pdf;base64,JVBERg=="%string
  /\ FilesPage 2%positive h
     = (Normal (Items [{| item_key := Some (JStr "res_k3x9a1b");
                          item_cells :=
                            [Some (JStr "notes.pdf"); Some (JStr "2 KB");
                             Some (JStr "2024-05-01T10:00:00.000Z");
                             Some (JStr "data:application/pdf;base64,JVBERg==");
                             Some (JStr "notes.pdf")] |}]), h).
Proof.
  cbv zeta.
  set (f := {| file_name := "notes.pdf"; file_size := 2048;
               file_read := Some "data:application/pdf;base64,JVBERg==" |}).
  set (p := {| AdminPanel.newTitle := ""; AdminPanel.newBody := "";
               AdminPanel.uploadFile := Some f; AdminPanel.uploading := false;
               AdminPanel.status := None; AdminPanel.admin_file := "notes.pdf" |}).
  set (h := ({[ 2%positive :=
                  [[("id", JStr "res_k3x9a1b"); ("name", JStr "notes.pdf");
                    ("size", JStr "2 KB");
                    ("data", JStr "data:application/pdf;base64,JVBERg==");
                    ("createdAt", JStr "2024-05-01T10:00:00.000Z")]] ]} : Heap)).
  assert (H1 : AdminPanel.uploadFile p = Some f) by reflexivity.
  assert (H2 : file_read f = Some "data:application/pdf;base64,JVBERg=="%string)
    by reflexivity.
  split; [exact H1|]. split; [exact H2|].
  destruct (upload_on_pages "k3x9a1b" "2024-05-01T10:00:00.000Z" p f _
              {| route := "admin"; messages := []; resources := []; infos := [] |}
              empty_browser h 2%positive H1 H2)
    as (p' & app' & b' & E & Hh).
  injection E as _ <- _. exact (proj1 (Hh eq_refl)).
Defined.

(** ** Sizes and identifiers *)

Lemma number_text_inj a b : number_text a = number_text b -> a = b.
Proof.
  assert (P : forall p q,
             uint_text (Pos.to_uint p) = uint_text (Pos.to_uint q) -> p = q).
  { intros p q H.
    destruct (digits_of_pos p) as (c & ds & E & _ & _ & _ & Hv).
    destruct (digits_of_pos q) as (c' & ds' & E' & _ & _ & _ & Hv').
    rewrite E, E' in H. rewrite H in Hv. congruence. }
  assert (Z : forall p, uint_text (Pos.to_uint p) <> ["0"%char]).
  { intros p H. destruct (digits_of_pos p) as (c & ds & E & _ & H0 & _).
    rewrite E in H. injection H as -> _. discriminate H0. }
  assert (M : forall p t, uint_text (Pos.to_uint p) <> "-"%char :: t).
  { intros p t H. destruct (digits_of_pos p) as (c & ds & E & Hc & _).
    rewrite E in H. injection H as -> _. discriminate Hc. }
  destruct a as [|p|p], b as [|q|q]; cbn [number_text]; intros H;
    try reflexivity; try discriminate H;
    try (now apply Z in H); try (symmetry in H; now apply Z in H);
    try (now apply M in H); try (symmetry in H; now apply M in H).
  - f_equal. now apply P.
  - injection H as H. f_equal. now apply P.
Qed.

Lemma list_ascii_of_string_app s t :
  list_ascii_of_string (s ++ t)
  = (list_ascii_of_string s ++ list_ascii_of_string t)%list.
Proof. induction s as [|c s IH]; simpl; [reflexivity|]. now rewrite IH. Qed.

Lemma KB_inj a b :
  (string_of_list_ascii (number_text a) ++ " KB")%string
  = (string_of_list_ascii (number_text b) ++ " KB")%string ->
  a = b.
Proof.
  intros H. apply (f_equal list_ascii_of_string) in H.
  rewrite !list_ascii_of_string_app, !list_ascii_of_string_of_list_ascii in H.
  apply app_inv_tail in H. now apply number_text_inj.
Qed.

(** X27. The size shown is the size in bytes rounded to the nearest
    multiple of 1024, a half going up: a file is shown as [k KB] exactly
    when its size is from [1024 k - 512] to [1024 k + 511] bytes.  Files
    of less than 512 bytes are shown as "0 KB". *)
Theorem size_KB_rounds (n : N) (k : Z) :
  size_KB n = (string_of_list_ascii (number_text k) ++ " KB")%string
  <-> 1024 * k - 512 <= Z.of_N n < 1024 * k + 512.
Proof.
  unfold size_KB. split.
  - intros H. apply KB_inj in H. subst k.
    pose proof (Z.div_mod (Z.of_N n + 512) 1024 ltac:(lia)) as D.
    pose proof (Z.mod_pos_bound (Z.of_N n + 512) 1024 ltac:(lia)) as B.
    lia.
  - intros H. replace ((Z.of_N n + 512) / 1024) with k; [reflexivity|].
    apply (Z.div_unique_pos _ _ k (Z.of_N n + 512 - 1024 * k)); lia.
Qed.

(** X28. Identifiers collide only where the fragments drawn do: with one
    prefix, two identifiers are equal exactly when their fragments are;
    identifiers of messages, of resources and of announcements are never
    equal to one another. *)
Theorem uid_collisions prefix r1 r2 :
  (uid prefix r1 = uid prefix r2 <-> r1 = r2)
  /\ uid "msg" r1 <> uid "res" r2
  /\ uid "msg" r1 <> uid "info" r2
  /\ uid "res" r1 <> uid "info" r2.
Proof.
  split; [|repeat split; discriminate].
  split; [|congruence]. unfold uid. intros H.
  induction prefix as [|c prefix IH]; cbn in H.
  - now injection H.
  - injection H as H. exact (IH H).
Qed.
